(** * Verovio staff layout: a shallow embedding of [staff.cpp] and [iocmme.cpp]

    The development follows the C++ sources function by function.  Part I
    gives the data model and the operations (one module per component);
    Part II states and proves the properties.

    Conventions.
    - A C++ [int] is a [Z]; where the source adds two [int]s the 32-bit
      wrap-around is written out ([Int.add]).
    - An object pointer is the address of the object (a [Z]); [NULL] is
      [None].
    - A [void] member function that mutates [this] returns the new state;
      a function that can hit an [assert] on a missing collaborator returns
      an [option]. *)

From Stdlib Require Import ZArith QArith Lia DecimalString DecimalZ.
From stdpp Require Import base option list sorting gmap strings.

#[local] Open Scope Z_scope.
#[local] Set Warnings "-register-all".

(* ===================================================================== *)
(** * Part I: the model *)
(* ===================================================================== *)

(** ** Machine integers *)

Module Int.

Definition min_signed : Z := - 2 ^ 31.
Definition max_signed : Z := 2 ^ 31 - 1.

Definition in_range (z : Z) : Prop := min_signed <= z <= max_signed.

(** Two's-complement reduction of a mathematical integer to an [int]. *)
Definition wrap (z : Z) : Z := (z + 2 ^ 31) mod 2 ^ 32 - 2 ^ 31.

Definition add (a b : Z) : Z := wrap (a + b).
Definition sub (a b : Z) : Z := wrap (a - b).

End Int.

(** ** LedgerLine (staff.cpp, lines 298-341) *)

Module LedgerLine.

(** [std::pair<int, int>]: left and right edge of one dash. *)
Definition Dash : Type := Z * Z.

(** [LedgerLine::m_dashes], a [std::list] of dashes. *)
Record t : Type := Build { m_dashes : list Dash }.

(** [LedgerLine::Reset]. *)
Definition Reset (_ : t) : t := Build [].

(** The constructor calls [Reset]. *)
Definition new : t := Build [].

(** The first loop of [AddDash] with the [insert] that follows it: walk
    to the first dash whose left edge is greater than [left] and insert
    the new dash in front of it (at the end when there is none). *)
Fixpoint insertDash (left right : Z) (dashes : list Dash) : list Dash :=
  match dashes with
  | [] => [(left, right)]
  | d :: rest =>
      if left <? d.1 then (left, right) :: d :: rest
      else d :: insertDash left right rest
  end.

(** The test [previous->second > iter->first + 1.5 * extension].  The
    right-hand side is computed in [double]; every operand is an [int],
    so both sides are exact multiples of one half below 2^53 and the
    comparison is the comparison of the doubled integers. *)
Definition overlaps (previousRight iterLeft extension : Z) : bool :=
  2 * iterLeft + 3 * extension <? 2 * previousRight.

(** The same condition as the comment above the loop words it: the
    earlier dash's right edge exceeds the later dash's left edge by more
    than one and a half extensions (over the rationals). *)
Definition overlapsBeyond (previousRight iterLeft extension : Z) : Prop :=
  (inject_Z iterLeft + (3 # 2) * inject_Z extension < inject_Z previousRight)%Q.

(** The [while] loop of [AddDash].  [previous] is the dash the iterator
    [previous] points to, [rest] the dashes from [iter] to the end; the
    dashes before [previous] are final and are emitted as the loop
    advances. *)
Fixpoint sweep (extension : Z) (previous : Dash) (rest : list Dash)
  : list Dash :=
  match rest with
  | [] => [previous]
  | iter :: rest' =>
      if overlaps previous.2 iter.1 extension
      then sweep extension (previous.1, Z.max iter.2 previous.2) rest'
      else previous :: sweep extension iter rest'
  end.

(** [LedgerLine::AddDash] on the dash list, below the assertion
    [left < right] that opens the function: the assertion is the
    precondition of every statement about [AddDash], and
    [Staff::AddLedgerLines] checks it before it calls.  After the
    insertion the list is never empty, so [begin()] can be advanced
    once. *)
Definition AddDash_dashes (left right extension : Z) (dashes : list Dash)
  : list Dash :=
  match insertDash left right dashes with
  | [] => []
  | first :: rest => sweep extension first rest
  end.

Definition AddDash (left right extension : Z) (line : t) : t :=
  Build (AddDash_dashes left right extension (m_dashes line)).

(** One call of [AddDash] as data, and a run of calls on one line. *)
Record call : Type := Call { c_left : Z; c_right : Z; c_extension : Z }.

Definition apply (line : t) (c : call) : t :=
  AddDash (c_left c) (c_right c) (c_extension c) line.

Definition run (calls : list call) (line : t) : t :=
  foldl apply line calls.

(** The two halves of the invariant. *)
Definition sortedByLeft (dashes : list Dash) : Prop :=
  Sorted (fun a b : Dash => a.1 <= b.1) dashes.

(** No adjacent pair that the sweep would still merge. *)
Fixpoint noMergeable (extension : Z) (dashes : list Dash) : Prop :=
  match dashes with
  | a :: (b :: _) as tail =>
      overlaps a.2 b.1 extension = false /\ noMergeable extension tail
  | _ => True
  end.

End LedgerLine.

(** ** Traversal control codes *)

(** [FunctorCode]: what a visit method returns to the traversal. *)
Inductive FunctorCode : Type :=
  | FUNCTOR_CONTINUE
  | FUNCTOR_SIBLINGS
  | FUNCTOR_STOP.

(** ** Stem directions per layer (staff.cpp, [Staff::CalcStem], lines 522-567) *)

Module Stem.

(** [data_STEMDIRECTION]: the unset value and the two values [CalcStem]
    assigns. *)
Inductive data_STEMDIRECTION : Type :=
  | STEMDIRECTION_NONE
  | STEMDIRECTION_up
  | STEMDIRECTION_down.

(** What [CalcStem] reads and writes of a [Layer] object.  [l_addr] is the
    address of the object, the value of a [Layer *]; [l_isEmpty] is the
    verdict of [IsEmptyComparison(LAYER)] on it. *)
Record Layer : Type := {
  l_addr : Z;
  l_n : Z;
  l_isEmpty : bool;
  l_crossStaffFromBelow : bool;
  l_crossStaffFromAbove : bool;
  l_drawingStemDir : data_STEMDIRECTION
}.

(** [Layer::SetDrawingStemDir]. *)
Definition SetDrawingStemDir (dir : data_STEMDIRECTION) (l : Layer) : Layer :=
  {| l_addr := l_addr l;
     l_n := l_n l;
     l_isEmpty := l_isEmpty l;
     l_crossStaffFromBelow := l_crossStaffFromBelow l;
     l_crossStaffFromAbove := l_crossStaffFromAbove l;
     l_drawingStemDir := dir |}.

(** The layer objects below one staff, in document order.  A write through
    a pointer replaces the object stored at that address. *)
Abbreviation store := (list Layer).

Definition write (addr : Z) (f : Layer -> Layer) (s : store) : store :=
  map (fun l => if decide (l_addr l = addr) then f l else l) s.

(** [FindAllDescendantsByType(LAYER, false)]: pointers to the layers, in
    document order. *)
Definition FindAllLayers (s : store) : list Z := map l_addr s.

(** [FindAllDescendantsByComparison] with [IsEmptyComparison(LAYER)]. *)
Definition FindEmptyLayers (s : store) : list Z :=
  map l_addr (filter (fun l => l_isEmpty l = true) s).

(** [std::set_difference] over two ranges of pointers, ordered by [<] on the
    pointer values: the standard merge-like scan, then the copy of what is
    left of the first range. *)
Fixpoint set_difference (range1 range2 : list Z) : list Z :=
  match range1 with
  | [] => []
  | x :: range1' =>
      (fix scan (range2 : list Z) : list Z :=
         match range2 with
         | [] => x :: range1'
         | y :: range2' =>
             if x <? y then x :: set_difference range1' (y :: range2')
             else if y <? x then scan range2'
             else set_difference range1' range2'
         end) range2
  end.

(** [layer->GetN() % 2 ? STEMDIRECTION_up : STEMDIRECTION_down]; [%] is the
    truncating remainder of C++. *)
Definition stemDirOfN (n : Z) : data_STEMDIRECTION :=
  if Z.rem n 2 =? 0 then STEMDIRECTION_down else STEMDIRECTION_up.

(** The body of the final [for] loop, for one pointer of the list. *)
Definition assignByParity (s : store) (addr : Z) : store :=
  write addr (fun l => SetDrawingStemDir (stemDirOfN (l_n l)) l) s.

(** [Staff::CalcStem]. *)
Definition CalcStem (s : store) : FunctorCode * store :=
  let layers := FindAllLayers s in
  match s with
  | [] => (FUNCTOR_CONTINUE, s)
  | [layer] =>
      if l_crossStaffFromBelow layer then
        (FUNCTOR_CONTINUE, [SetDrawingStemDir STEMDIRECTION_up layer])
      else if l_crossStaffFromAbove layer then
        (FUNCTOR_CONTINUE, [SetDrawingStemDir STEMDIRECTION_down layer])
      else (FUNCTOR_CONTINUE, s)
  | _ :: _ :: _ =>
      let emptyLayers := FindEmptyLayers s in
      if (length layers <? 3)%nat && (0 <? length emptyLayers)%nat then
        (FUNCTOR_CONTINUE, s)
      else
        let layers :=
          match emptyLayers with
          | [] => layers
          | _ :: _ => set_difference layers emptyLayers
          end in
        (FUNCTOR_CONTINUE, foldl assignByParity s layers)
  end.

(** The pointers the final loop of [CalcStem] runs over when the staff has
    two layers or more and the early return is not taken. *)
Definition considered (s : store) : list Z :=
  match FindEmptyLayers s with
  | [] => FindAllLayers s
  | _ :: _ => set_difference (FindAllLayers s) (FindEmptyLayers s)
  end.

(** The reading of the ambiguous case in the specification: removing the
    empty layers would leave fewer than two layers with content while an
    empty layer exists. *)
Definition fewerThanTwoWithContent (s : store) : Prop :=
  (length (filter (fun l => l_isEmpty l = false) s) < 2)%nat /\
  exists l, l ∈ s /\ l_isEmpty l = true.

(** The guard in the source: fewer than three layers, one of them empty. *)
Definition ambiguous (s : store) : Prop :=
  (length s < 3)%nat /\ exists l, l ∈ s /\ l_isEmpty l = true.

Definition mkLayer (addr n : Z) (isEmpty : bool) : Layer :=
  {| l_addr := addr; l_n := n; l_isEmpty := isEmpty;
     l_crossStaffFromBelow := false; l_crossStaffFromAbove := false;
     l_drawingStemDir := STEMDIRECTION_NONE |}.



Definition oneEmptyOfThree : store :=
  [mkLayer 100 1 true; mkLayer 200 2 false; mkLayer 300 3 false].

(** Layers 1 and 2 with content and layer 3 empty, the object of layer 3
    lying below the object of layer 2 in memory. *)
Definition emptyLayerAtLowerAddress : store :=
  [mkLayer 100 1 false; mkLayer 300 2 false; mkLayer 200 3 true].

End Stem.

(** ** What the sources at hand use without declaring it *)

(** [ClassId]: the class tags named in staff.cpp; every other tag of the
    enumeration is an [OtherClass]. *)
Inductive ClassId : Type :=
  | DOC | SYSTEM | MEASURE | STAFF | LAYER | VERSE | SYL
  | OtherClass (tag : Z).

#[global] Instance ClassId_eq_dec : EqDecision ClassId.
Proof. solve_decision. Defined.

(** Constants and predicates of headers that are not among the sources:
    the sentinel [VRV_UNSET] of an unset [int], the value [N_UNSET] that
    [GetN()] yields while [@n] is unset, and [Object::IsEditorialElement]
    as a predicate on the class tag. *)
Class VrvDef : Type := {
  VRV_UNSET : Z;
  N_UNSET : Z;
  IsEditorialElement : ClassId -> bool
}.

(** [data_BOOLEAN], [data_NOTATIONTYPE] and the document type, with the
    values the sources name. *)
Inductive data_BOOLEAN : Type := BOOLEAN_NONE | BOOLEAN_true | BOOLEAN_false.

Inductive data_NOTATIONTYPE : Type :=
  | NOTATIONTYPE_NONE
  | NOTATIONTYPE_cmn
  | NOTATIONTYPE_mensural
  | NOTATIONTYPE_mensural_white
  | NOTATIONTYPE_mensural_black
  | NOTATIONTYPE_neume
  | NOTATIONTYPE_tab
  | NOTATIONTYPE_tab_guitar
  | NOTATIONTYPE_tab_lute_italian
  | NOTATIONTYPE_tab_lute_french
  | NOTATIONTYPE_tab_lute_german.

Inductive DocType : Type := Raw | Facs | OtherDocType (tag : Z).

#[global] Instance DocType_eq_dec : EqDecision DocType.
Proof. solve_decision. Defined.

(** ** Staff (staff.cpp, lines 39-295) *)

Module StaffModel.

(** What the staff-level code reads of a child object: its class, its
    identifier and its [@n] ([AttNInteger], [None] while unset). *)
Record Node : Type := {
  node_classId : ClassId;
  node_id : string;
  node_n : option Z
}.

(** A [Staff] object: the identifier and the children of its [Object] base,
    the attributes [@facs], [@n] and [@visible], and its own members.
    Pointers to collaborators ([StaffAlignment *], [StaffDef *], [Tuning *],
    [Object *]) are addresses. *)
Record Staff : Type := {
  m_id : string;
  m_children : list Node;
  att_facs : option string;
  att_n : option Z;
  att_visible : data_BOOLEAN;
  m_yAbs : Z;
  m_cachedDrawingY : Z;
  m_drawingStaffSize : Z;
  m_drawingLines : Z;
  m_drawingNotationType : data_NOTATIONTYPE;
  m_staffAlignment : option Z;
  m_timeSpanningElements : list Z;
  m_drawingStaffDef : option Z;
  m_drawingTuning : option Z;
  m_ledgerLinesAbove : list LedgerLine.t;
  m_ledgerLinesBelow : list LedgerLine.t;
  m_ledgerLinesAboveCue : list LedgerLine.t;
  m_ledgerLinesBelowCue : list LedgerLine.t
}.



Section WithDefs.
Context `{VrvDef}.

(** [HasFacs], [HasN], [GetN]. *)
Definition HasFacs (s : Staff) : bool := bool_decide (is_Some (att_facs s)).
Definition GetN (s : Staff) : Z := default N_UNSET (att_n s).

(** [Staff::ClearLedgerLines]. *)
Definition ClearLedgerLines (s : Staff) : Staff :=
  {| m_id := m_id s; m_children := m_children s;
     att_facs := att_facs s; att_n := att_n s; att_visible := att_visible s;
     m_yAbs := m_yAbs s; m_cachedDrawingY := m_cachedDrawingY s;
     m_drawingStaffSize := m_drawingStaffSize s;
     m_drawingLines := m_drawingLines s;
     m_drawingNotationType := m_drawingNotationType s;
     m_staffAlignment := m_staffAlignment s;
     m_timeSpanningElements := m_timeSpanningElements s;
     m_drawingStaffDef := m_drawingStaffDef s;
     m_drawingTuning := m_drawingTuning s;
     m_ledgerLinesAbove := [];
     m_ledgerLinesBelow := [];
     m_ledgerLinesAboveCue := [];
     m_ledgerLinesBelowCue := [] |}.

(** [Staff::Reset].  The resets of the base class and of the attribute
    classes come first: [@facs], [@n] and [@visible] become unset
    ([Object::Reset] is not among the sources; the identifier and the
    children stay as they are here).  Then the members, then
    [ClearLedgerLines].  [m_cachedDrawingY] is not assigned. *)
Definition Reset (s : Staff) : Staff :=
  ClearLedgerLines
    {| m_id := m_id s; m_children := m_children s;
       att_facs := None; att_n := None; att_visible := BOOLEAN_NONE;
       m_yAbs := VRV_UNSET;
       m_cachedDrawingY := m_cachedDrawingY s;
       m_drawingStaffSize := 100;
       m_drawingLines := 5;
       m_drawingNotationType := NOTATIONTYPE_NONE;
       m_staffAlignment := None;
       m_timeSpanningElements := [];
       m_drawingStaffDef := None;
       m_drawingTuning := None;
       m_ledgerLinesAbove := m_ledgerLinesAbove s;
       m_ledgerLinesBelow := m_ledgerLinesBelow s;
       m_ledgerLinesAboveCue := m_ledgerLinesAboveCue s;
       m_ledgerLinesBelowCue := m_ledgerLinesBelowCue s |}.

(** Modelled from the spec: [Object::CloneReset], which is not among the
    sources.  Section 4.5 has the clone, after the reset, without children
    and ready to receive the identifier of the original: the reset of the
    base class leaves the identifier and the child list as they are. *)
Definition Object_CloneReset (s : Staff) : Staff := s.

(** [Staff::CloneReset]: [Object::CloneReset()], then seven assignments. *)
Definition CloneReset (s : Staff) : Staff :=
  let s := Object_CloneReset s in
  {| m_id := m_id s; m_children := m_children s;
     att_facs := att_facs s; att_n := att_n s; att_visible := att_visible s;
     m_yAbs := m_yAbs s; m_cachedDrawingY := m_cachedDrawingY s;
     m_drawingStaffSize := 100;
     m_drawingLines := 5;
     m_drawingNotationType := NOTATIONTYPE_NONE;
     m_staffAlignment := None;
     m_timeSpanningElements := [];
     m_drawingStaffDef := None;
     m_drawingTuning := None;
     m_ledgerLinesAbove := m_ledgerLinesAbove s;
     m_ledgerLinesBelow := m_ledgerLinesBelow s;
     m_ledgerLinesAboveCue := m_ledgerLinesAboveCue s;
     m_ledgerLinesBelowCue := m_ledgerLinesBelowCue s |}.

(** Writes to single members. *)
Definition set_cachedDrawingY (y : Z) (s : Staff) : Staff :=
  {| m_id := m_id s; m_children := m_children s;
     att_facs := att_facs s; att_n := att_n s; att_visible := att_visible s;
     m_yAbs := m_yAbs s; m_cachedDrawingY := y;
     m_drawingStaffSize := m_drawingStaffSize s;
     m_drawingLines := m_drawingLines s;
     m_drawingNotationType := m_drawingNotationType s;
     m_staffAlignment := m_staffAlignment s;
     m_timeSpanningElements := m_timeSpanningElements s;
     m_drawingStaffDef := m_drawingStaffDef s;
     m_drawingTuning := m_drawingTuning s;
     m_ledgerLinesAbove := m_ledgerLinesAbove s;
     m_ledgerLinesBelow := m_ledgerLinesBelow s;
     m_ledgerLinesAboveCue := m_ledgerLinesAboveCue s;
     m_ledgerLinesBelowCue := m_ledgerLinesBelowCue s |}.

Definition set_timeSpanningElements (l : list Z) (s : Staff) : Staff :=
  {| m_id := m_id s; m_children := m_children s;
     att_facs := att_facs s; att_n := att_n s; att_visible := att_visible s;
     m_yAbs := m_yAbs s; m_cachedDrawingY := m_cachedDrawingY s;
     m_drawingStaffSize := m_drawingStaffSize s;
     m_drawingLines := m_drawingLines s;
     m_drawingNotationType := m_drawingNotationType s;
     m_staffAlignment := m_staffAlignment s;
     m_timeSpanningElements := l;
     m_drawingStaffDef := m_drawingStaffDef s;
     m_drawingTuning := m_drawingTuning s;
     m_ledgerLinesAbove := m_ledgerLinesAbove s;
     m_ledgerLinesBelow := m_ledgerLinesBelow s;
     m_ledgerLinesAboveCue := m_ledgerLinesAboveCue s;
     m_ledgerLinesBelowCue := m_ledgerLinesBelowCue s |}.

Definition set_staffAlignment (a : option Z) (s : Staff) : Staff :=
  {| m_id := m_id s; m_children := m_children s;
     att_facs := att_facs s; att_n := att_n s; att_visible := att_visible s;
     m_yAbs := m_yAbs s; m_cachedDrawingY := m_cachedDrawingY s;
     m_drawingStaffSize := m_drawingStaffSize s;
     m_drawingLines := m_drawingLines s;
     m_drawingNotationType := m_drawingNotationType s;
     m_staffAlignment := a;
     m_timeSpanningElements := m_timeSpanningElements s;
     m_drawingStaffDef := m_drawingStaffDef s;
     m_drawingTuning := m_drawingTuning s;
     m_ledgerLinesAbove := m_ledgerLinesAbove s;
     m_ledgerLinesBelow := m_ledgerLinesBelow s;
     m_ledgerLinesAboveCue := m_ledgerLinesAboveCue s;
     m_ledgerLinesBelowCue := m_ledgerLinesBelowCue s |}.

(** Writes to the base class: the identifier and the child list. *)
Definition set_base (id : string) (children : list Node) (s : Staff) : Staff :=
  {| m_id := id; m_children := children;
     att_facs := att_facs s; att_n := att_n s; att_visible := att_visible s;
     m_yAbs := m_yAbs s; m_cachedDrawingY := m_cachedDrawingY s;
     m_drawingStaffSize := m_drawingStaffSize s;
     m_drawingLines := m_drawingLines s;
     m_drawingNotationType := m_drawingNotationType s;
     m_staffAlignment := m_staffAlignment s;
     m_timeSpanningElements := m_timeSpanningElements s;
     m_drawingStaffDef := m_drawingStaffDef s;
     m_drawingTuning := m_drawingTuning s;
     m_ledgerLinesAbove := m_ledgerLinesAbove s;
     m_ledgerLinesBelow := m_ledgerLinesBelow s;
     m_ledgerLinesAboveCue := m_ledgerLinesAboveCue s;
     m_ledgerLinesBelowCue := m_ledgerLinesBelowCue s |}.

(** [Staff::ResetVerticalAlignment], [Staff::CastOffEncoding] and
    [Staff::ResetData]. *)
Definition ResetVerticalAlignment (s : Staff) : FunctorCode * Staff :=
  (FUNCTOR_CONTINUE, ClearLedgerLines (set_staffAlignment None s)).

Definition CastOffEncoding (s : Staff) : FunctorCode * Staff :=
  (FUNCTOR_SIBLINGS, set_staffAlignment None s).

Definition ResetData (s : Staff) : FunctorCode * Staff :=
  (FUNCTOR_CONTINUE, ClearLedgerLines (set_timeSpanningElements [] s)).

(** *** Children *)

(** [GetChildCount(classId)]: the direct children of that class. *)
Definition GetChildCount (classId : ClassId) (s : Staff) : Z :=
  Z.of_nat (length (filter (fun c => node_classId c = classId) (m_children s))).

Definition SetN (n : Z) (c : Node) : Node :=
  {| node_classId := node_classId c; node_id := node_id c; node_n := Some n |}.

(** [Staff::IsSupportedChild].  The verdict, and the child as the call
    leaves it: a layer without [@n] is numbered on the way. *)
Definition IsSupportedChild (this : Staff) (child : Node) : bool * Node :=
  if decide (node_classId child = LAYER) then
    match node_n child with
    | None => (true, SetN (Int.add (GetChildCount LAYER this) 1) child)
    | Some _ => (true, child)
    end
  else if IsEditorialElement (node_classId child) then (true, child)
  else (false, child).

(** Modelled from the spec: [Object::AddChild], which is not among the
    sources.  Section 4.1: it rejects, with no mutation, a child whose kind
    the parent's supported-child predicate does not accept, and otherwise
    appends the child.  The boolean is the rejection signal. *)
Definition AddChild (this : Staff) (child : Node) : bool * Staff :=
  let (supported, child') := IsSupportedChild this child in
  if supported
  then (true, set_base (m_id this) (m_children this ++ [child']) this)
  else (false, this).

(** *** Drawing position *)

(** What [GetDrawingY] reads outside the staff: the type of the ancestor
    [Doc], the value of [FacsimileInterface::GetDrawingY()], the drawing y
    of the ancestor [System], and [GetYRel()] of the alignment behind a
    [StaffAlignment *]. *)
Record DrawingContext : Type := {
  doc_type : DocType;
  facsimile_drawingY : Z;
  system_drawingY : Z;
  alignment_yRel : Z -> Z
}.

(** [Staff::GetDrawingY].  The method is [const] and writes the [mutable]
    cache: it returns the value and the staff. *)
Definition GetDrawingY (ctx : DrawingContext) (s : Staff) : Z * Staff :=
  if HasFacs s && bool_decide (doc_type ctx = Facs) then
    (facsimile_drawingY ctx, s)
  else if bool_decide (m_yAbs s <> VRV_UNSET) then (m_yAbs s, s)
  else
    match m_staffAlignment s with
    | None => (0, s)
    | Some alignment =>
        if bool_decide (m_cachedDrawingY s <> VRV_UNSET) then
          (m_cachedDrawingY s, s)
        else
          let y := Int.add (system_drawingY ctx) (alignment_yRel ctx alignment) in
          (y, set_cachedDrawingY y s)
    end.

(** The two conditions of the first branch of [GetDrawingY]. *)
Definition positionedByFacsimile (ctx : DrawingContext) (s : Staff) : Prop :=
  HasFacs s = true /\ doc_type ctx = Facs.

(** *** Time-spanning elements *)

(** What the pass reads of the [TimeSpanningInterface] of an element.  A
    [Measure *] is the position of that measure in the document, so two
    pointers differ exactly when the positions differ; [None] is [NULL]. *)
Record TimeSpanningInterface : Type := {
  GetStartMeasure : option Z;
  IsOnStaff : Z -> bool
}.

(** The body of the [while] loop for the element under [iter]. *)
Definition visitTimeSpanning
    (GetTimeSpanningInterface : Z -> TimeSpanningInterface)
    (currentMeasure : Z) (this : Staff) (iter : Z) : Staff :=
  let interface := GetTimeSpanningInterface iter in
  if bool_decide (GetStartMeasure interface <> Some currentMeasure)
     && IsOnStaff interface (GetN this)
  then set_timeSpanningElements (m_timeSpanningElements this ++ [iter]) this
  else this.

(** [Staff::PrepareStaffCurrentTimeSpanning]; [elements] is
    [params->m_timeSpanningElements], [currentMeasure] the ancestor measure
    of the staff. *)
Definition PrepareStaffCurrentTimeSpanning
    (GetTimeSpanningInterface : Z -> TimeSpanningInterface)
    (currentMeasure : Z) (elements : list Z) (this : Staff)
  : FunctorCode * Staff :=
  (FUNCTOR_CONTINUE,
   foldl (visitTimeSpanning GetTimeSpanningInterface currentMeasure)
         this elements).

(** The reading of the specification: the start measure precedes the
    current one. *)
Definition startsBefore (interface : TimeSpanningInterface) (currentMeasure : Z)
  : Prop :=
  exists start, GetStartMeasure interface = Some start /\ start < currentMeasure.

(** *** Cast-off *)

(** The target [Measure], as far as the staff-level code sees it, and the
    parameters of the pass. *)
Record Measure : Type := { measure_children : list Staff }.

Record ConvertToCastOffMensuralParams : Type := {
  m_targetStaff : option Staff;
  m_targetMeasure : option Measure
}.

(** Modelled from the spec: [Object::GenerateID], which is not among the
    sources.  Section 4.5 calls its result a newly generated identifier:
    one that no node of the document carries.  [used] holds the
    identifiers in use. *)
Definition GenerateID (used : gset string) : string := fresh used.

(** Modelled from the spec: the copy constructor behind the [new Staff] of
    the staff itself.
    The [Object] base is not among the sources; section 4.5 has the clone
    take the attributes of the staff, and the base gives a copy an
    identifier of its own.  The members of [Staff] are copied one by one,
    as the implicit copy constructor of C++ does. *)
Definition CopyStaff (used : gset string) (s : Staff) : Staff :=
  set_base (GenerateID used) (m_children s) s.

(** Modelled from the spec: [Object::ClearChildren], which is not among the
    sources.  Section 4.5: the clone has no children. *)
Definition ClearChildren (s : Staff) : Staff := set_base (m_id s) [] s.

(** Modelled from the spec: [Object::SwapID], which is not among the
    sources.  Section 4.5: the first segment receives the identifier of the
    original and the original the generated one; the two objects exchange
    their identifiers. *)
Definition SwapID (this other : Staff) : Staff * Staff :=
  (set_base (m_id other) (m_children this) this,
   set_base (m_id this) (m_children other) other).

(** Modelled from the spec: [AddChild] on the target measure, which accepts
    a staff and appends it. *)
Definition Measure_AddChild (m : Measure) (s : Staff) : Measure :=
  {| measure_children := measure_children m ++ [s] |}.

(** [Staff::ConvertToCastOffMensural].  The result is the control code, the
    staff the method ran on and the parameters; [None] is the failed
    [assert(params->m_targetMeasure)]. *)
Definition ConvertToCastOffMensural
    (used : gset string) (params : ConvertToCastOffMensuralParams)
    (this : Staff)
  : option (FunctorCode * Staff * ConvertToCastOffMensuralParams) :=
  let target := CopyStaff used this in
  let target := ClearChildren target in
  let target := CloneReset target in
  let (target, this) := SwapID target this in
  match m_targetMeasure params with
  | None => None
  | Some measure =>
      Some (FUNCTOR_CONTINUE, this,
            {| m_targetStaff := Some target;
               m_targetMeasure := Some (Measure_AddChild measure target) |})
  end.

(** The identifiers carried after the call by the staff, by the staves of
    the target measure and by the other nodes of the document. *)
Definition carriers (id : string) (this : Staff) (measure : Measure)
    (others : list string) : nat :=
  length (filter (fun i => i = id)
            (m_id this :: map m_id (measure_children measure) ++ others)).

(** The constructor [Staff::Staff(n)]: [Reset()], then [SetN(n)], on an
    object that carries the identifier [id]. *)
Definition newStaff (id : string) (n : Z) : Staff :=
  let s :=
    Reset {| m_id := id; m_children := [];
             att_facs := None; att_n := None; att_visible := BOOLEAN_NONE;
             m_yAbs := VRV_UNSET; m_cachedDrawingY := VRV_UNSET;
             m_drawingStaffSize := 100; m_drawingLines := 5;
             m_drawingNotationType := NOTATIONTYPE_NONE;
             m_staffAlignment := None; m_timeSpanningElements := [];
             m_drawingStaffDef := None; m_drawingTuning := None;
             m_ledgerLinesAbove := []; m_ledgerLinesBelow := [];
             m_ledgerLinesAboveCue := []; m_ledgerLinesBelowCue := [] |} in
  {| m_id := m_id s; m_children := m_children s;
     att_facs := att_facs s; att_n := Some n; att_visible := att_visible s;
     m_yAbs := m_yAbs s; m_cachedDrawingY := m_cachedDrawingY s;
     m_drawingStaffSize := m_drawingStaffSize s;
     m_drawingLines := m_drawingLines s;
     m_drawingNotationType := m_drawingNotationType s;
     m_staffAlignment := m_staffAlignment s;
     m_timeSpanningElements := m_timeSpanningElements s;
     m_drawingStaffDef := m_drawingStaffDef s;
     m_drawingTuning := m_drawingTuning s;
     m_ledgerLinesAbove := m_ledgerLinesAbove s;
     m_ledgerLinesBelow := m_ledgerLinesBelow s;
     m_ledgerLinesAboveCue := m_ledgerLinesAboveCue s;
     m_ledgerLinesBelowCue := m_ledgerLinesBelowCue s |}.


(** [SetVisible] of [AttVisibility]. *)
Definition SetVisible (v : data_BOOLEAN) (s : Staff) : Staff :=
  {| m_id := m_id s; m_children := m_children s;
     att_facs := att_facs s; att_n := att_n s; att_visible := v;
     m_yAbs := m_yAbs s; m_cachedDrawingY := m_cachedDrawingY s;
     m_drawingStaffSize := m_drawingStaffSize s;
     m_drawingLines := m_drawingLines s;
     m_drawingNotationType := m_drawingNotationType s;
     m_staffAlignment := m_staffAlignment s;
     m_timeSpanningElements := m_timeSpanningElements s;
     m_drawingStaffDef := m_drawingStaffDef s;
     m_drawingTuning := m_drawingTuning s;
     m_ledgerLinesAbove := m_ledgerLinesAbove s;
     m_ledgerLinesBelow := m_ledgerLinesBelow s;
     m_ledgerLinesAboveCue := m_ledgerLinesAboveCue s;
     m_ledgerLinesBelowCue := m_ledgerLinesBelowCue s |}.

End WithDefs.

(** *** Sample data *)

(** One assignment of the undeclared constants: the sentinel is the
    smallest [int] but one, and the tags 100 to 199 are the editorial
    classes. *)
Definition sampleDef : VrvDef :=
  {| VRV_UNSET := - 2147483647;
     N_UNSET := - 2147483647;
     IsEditorialElement := fun c =>
       match c with
       | OtherClass tag => (100 <=? tag) && (tag <? 200)
       | _ => false
       end |}.

(** A staff with identifier "staff-X", number 1 and one layer. *)
Definition sampleLayer : Node :=
  {| node_classId := LAYER; node_id := "layer-1"; node_n := Some 1 |}.

Definition sampleStaff : Staff :=
  set_base "staff-X" [sampleLayer] (@newStaff sampleDef "staff-X" 1).



(** An aligned staff with an empty cache. *)
Definition alignedStaff : Staff := set_staffAlignment (Some 4096) sampleStaff.

Definition sampleContext : DrawingContext :=
  {| doc_type := Raw; facsimile_drawingY := 0;
     system_drawingY := 2000; alignment_yRel := fun _ => - 350 |}.

(** The identifiers in use in the document of the sample staff. *)
Definition sampleUsed : gset string := {[ "staff-X"; "layer-1" ]}.

Definition sampleParams : ConvertToCastOffMensuralParams :=
  {| m_targetStaff := None;
     m_targetMeasure := Some {| measure_children := [] |} |}.

(** Time-spanning elements at the addresses 70, 71 and 72, on staff 1,
    starting in measure 5, in measure 3 and in measure 2. *)
Definition sampleInterfaces (element : Z) : TimeSpanningInterface :=
  {| GetStartMeasure :=
       if element =? 70 then Some 5
       else if element =? 71 then Some 3
       else Some 2;
     IsOnStaff := fun n => n =? 1 |}.

End StaffModel.

(** ** The CMME importer: the document and the members (iocmme.cpp, lines 139-220 and 512-553) *)

Module Cmme.
Import StaffModel.

(** A node of the pugixml tree: an element with its children, character
    data, a CDATA section or a comment (the document is loaded with
    [parse_comments]). *)
Inductive xml_node : Type :=
  | node_element (name : string) (children : list xml_node)
  | node_pcdata (value : string)
  | node_cdata (value : string)
  | node_comment (value : string).

Definition children (n : xml_node) : list xml_node :=
  match n with
  | node_element _ c => c
  | _ => []
  end.

Definition is_element (name : string) (n : xml_node) : bool :=
  match n with
  | node_element name' _ => String.eqb name' name
  | _ => false
  end.

(** The value of a text node of XPath: character data or CDATA. *)
Definition text_value (n : xml_node) : option string :=
  match n with
  | node_pcdata v | node_cdata v => Some v
  | _ => None
  end.

Definition is_text (n : xml_node) : bool :=
  match text_value n with Some _ => true | None => false end.

(** [node.select_node(name)] for a child name: the first child element of
    that name in document order. *)
Definition select_child (name : string) (n : xml_node) : option xml_node :=
  List.find (is_element name) (children n).

(** [node.text()]: the first character-data child, if there is one. *)
Definition text (n : xml_node) : option string :=
  List.find is_text (children n) ≫= text_value.

(** [StringFormat] with the conversion [%d]: the decimal numeral. *)
Definition StringFormat_d (z : Z) : string :=
  NilEmpty.string_of_int (Z.to_int z).

(** The XPath predicate [VoiceNum[text()='s']]: some [VoiceNum] child has
    some text node whose value is [s]. *)
Definition has_VoiceNum (s : string) (voice : xml_node) : bool :=
  existsb
    (fun c => is_element "VoiceNum" c &&
              existsb (fun t => bool_decide (text_value t = Some s)) (children c))
    (children voice).

(** [musicSectionNode.select_node("./Voice[VoiceNum[text()='%d']]")]: the
    first such [Voice] child in document order. *)
Definition select_voice (musicSectionNode : xml_node) (number : Z)
  : option xml_node :=
  List.find
    (fun v => is_element "Voice" v && has_VoiceNum (StringFormat_d number) v)
    (children musicSectionNode).

(** [xml_text::as_int] of pugixml, which reads a numeral. *)
Class PugiXml : Type := { as_int : string -> Z }.

(** The mensuration of one voice, binary by default. *)
Record MensInfo : Type := {
  prolatio : Z; tempus : Z; modusminor : Z; modusmaior : Z
}.

(** The members of [CmmeInput] that [CreateSection] and [CreateStaff] use.
    [m_score] is the score, [None] while it is [NULL], with the [@type] of
    the sections added to it, in order; [m_currentSection] is the measure
    under construction; [m_mensInfo] points into [m_mensInfos]; [m_used]
    stands for the identifiers the objects created so far carry. *)
Record CmmeInput : Type := {
  m_score : option (list string);
  m_numVoices : Z;
  m_mensInfos : list MensInfo;
  m_mensInfo : option nat;
  m_isInSyllable : bool;
  m_currentSection : option Measure;
  m_currentLayer : option Node;
  m_used : gset string
}.

Section WithDefs.
Context `{VrvDef} `{PugiXml}.

(** [CmmeInput::AsInt] and [CmmeInput::ChildAsInt]; a null node handle is
    [None]. *)
Definition AsInt (node : option xml_node) : Z :=
  match node with
  | None => VRV_UNSET
  | Some n =>
      match text n with
      | Some value => as_int value
      | None => VRV_UNSET
      end
  end.

Definition ChildAsInt (node : option xml_node) (child : string) : Z :=
  match node with
  | None => VRV_UNSET
  | Some n =>
      match select_child child n with
      | Some childNode => AsInt (Some childNode)
      | None => VRV_UNSET
      end
  end.

(** [m_mensInfos.at(k)]: the index is converted to [size_t], so a negative
    [k] is out of range like one past the end. *)
Definition vector_at (k : Z) (v : list MensInfo) : option nat :=
  if (0 <=? k) && (k <? Z.of_nat (length v)) then Some (Z.to_nat k) else None.

(** The construction of an object draws an identifier for it. *)
Definition newID (input : CmmeInput) : string * CmmeInput :=
  let id := GenerateID (m_used input) in
  (id,
   {| m_score := m_score input;
      m_numVoices := m_numVoices input;
      m_mensInfos := m_mensInfos input;
      m_mensInfo := m_mensInfo input;
      m_isInSyllable := m_isInSyllable input;
      m_currentSection := m_currentSection input;
      m_currentLayer := m_currentLayer input;
      m_used := {[ id ]} ∪ m_used input |}).

(** [m_currentSection->AddChild(staff)]. *)
Definition addToCurrentSection (staff : Staff) (input : CmmeInput)
  : option CmmeInput :=
  match m_currentSection input with
  | None => None
  | Some measure =>
      Some {| m_score := m_score input;
              m_numVoices := m_numVoices input;
              m_mensInfos := m_mensInfos input;
              m_mensInfo := m_mensInfo input;
              m_isInSyllable := m_isInSyllable input;
              m_currentSection := Some (Measure_AddChild measure staff);
              m_currentLayer := m_currentLayer input;
              m_used := m_used input |}
  end.

(** A [Voice] element as the CMME format has it: one [VoiceNum] child,
    holding one text node. *)
Definition singleVoiceNum (voice : xml_node) : Prop :=
  exists number value,
    filter (fun c => is_element "VoiceNum" c = true) (children voice)
      = [number] /\
    omap text_value (children number) = [value].

Definition wellFormedSection (musicSectionNode : xml_node) : Prop :=
  forall voice,
    voice ∈ children musicSectionNode ->
    is_element "Voice" voice = true -> singleVoiceNum voice.

(** What the claim says of the staff for the voice index [i]: its number
    is [i + 1]; when the section has that voice the staff holds the layer
    parsed from it, numbered 1, and when it has not the staff is a
    placeholder without children whose [@visible] is false. *)
Definition staffOfVoice (musicSectionNode : xml_node) (i : Z) (staff : Staff)
  : Prop :=
  att_n staff = Some (i + 1) /\
  match select_voice musicSectionNode (i + 1) with
  | Some _ =>
      exists layer,
        m_children staff = [layer] /\
        node_classId layer = LAYER /\ node_n layer = Some 1
  | None => att_visible staff = BOOLEAN_false /\ m_children staff = []
  end.

End WithDefs.

(** *** Sample data *)

(** A reader of decimal numerals in the place of [as_int]. *)
Definition samplePugi : PugiXml :=
  {| as_int := fun s =>
       match NilEmpty.int_of_string s with
       | Some d => Z.of_int d
       | None => 0
       end |}.

Definition binary : MensInfo :=
  {| prolatio := 2; tempus := 2; modusminor := 2; modusmaior := 2 |}.

(** The importer after [Import] has counted two voices. *)
Definition sampleInput : CmmeInput :=
  {| m_score := Some [];
     m_numVoices := 2;
     m_mensInfos := [binary; binary];
     m_mensInfo := None;
     m_isInSyllable := false;
     m_currentSection := None;
     m_currentLayer := None;
     m_used := ∅ |}.

(** A section whose only voice carries two [VoiceNum] children. *)
Definition doubleNumberSection : xml_node :=
  node_element "MensuralMusic"
    [node_element "Voice"
       [node_element "VoiceNum" [node_pcdata "2"];
        node_element "VoiceNum" [node_pcdata "1"];
        node_element "EventList" []]].

(** The numbers and the visibility of the staves in the measure of the
    section, as the importer leaves them. *)
Definition staffNumbers (result : option CmmeInput)
  : option (list (option Z * data_BOOLEAN)) :=
  input ← result;
  measure ← m_currentSection input;
  Some (map (fun staff => (att_n staff, att_visible staff))
            (measure_children measure)).

End Cmme.

(** ** More machine arithmetic *)

Module IntOps.

(** [a * b] on [int]s, reduced like the sum. *)
Definition mul (a b : Z) : Z := Int.wrap (a * b).

(** [a % b] of C++: the remainder of the division that truncates toward
    zero.  The language gives it no value for a zero divisor and for
    [INT_MIN % -1]. *)
Definition rem (a b : Z) : option Z :=
  if (b =? 0) || ((a =? Int.min_signed) && (b =? -1)) then None
  else Some (Z.rem a b).

End IntOps.

(** ** The ledger line buffers of a staff (staff.cpp, lines 241-260) *)

Module StaffLedger.
Import StaffModel.

(** [ArrayOfLedgerLines::resize(count)]: the first [count] lines are kept
    and new lines, without dashes, fill the vector up to [count].  The
    source calls it only with a count above the size of the vector. *)
Definition resize (count : Z) (lines : list LedgerLine.t) : list LedgerLine.t :=
  take (Z.to_nat count) lines ++
  replicate (Z.to_nat count - length lines) LedgerLine.new.

(** The body of the [for] loop: [lines.at(i).AddDash(left, right,
    extension)].  [at] throws past the end of the vector; [None] is that
    exception. *)
Definition addDashAt (left right extension : Z)
    (lines : option (list LedgerLine.t)) (i : Z)
  : option (list LedgerLine.t) :=
  lines ← lines;
  line ← lines !! Z.to_nat i;
  Some (<[Z.to_nat i := LedgerLine.AddDash left right extension line]> lines).

(** [Staff::AddLedgerLines].  [None] is the failed [assert(left < right)]
    or the exception of [at]. *)
Definition AddLedgerLines (lines : list LedgerLine.t)
    (count left right extension : Z) : option (list LedgerLine.t) :=
  if left <? right then
    let lines :=
      if Z.of_nat (length lines) <? count then resize count lines else lines in
    foldl (addDashAt left right extension) (Some lines) (seqZ 0 count)
  else None.

(** A write to the four buffers. *)
Definition set_ledgerLines
    (above below aboveCue belowCue : list LedgerLine.t) (s : Staff) : Staff :=
  {| m_id := m_id s; m_children := m_children s;
     att_facs := att_facs s; att_n := att_n s; att_visible := att_visible s;
     m_yAbs := m_yAbs s; m_cachedDrawingY := m_cachedDrawingY s;
     m_drawingStaffSize := m_drawingStaffSize s;
     m_drawingLines := m_drawingLines s;
     m_drawingNotationType := m_drawingNotationType s;
     m_staffAlignment := m_staffAlignment s;
     m_timeSpanningElements := m_timeSpanningElements s;
     m_drawingStaffDef := m_drawingStaffDef s;
     m_drawingTuning := m_drawingTuning s;
     m_ledgerLinesAbove := above;
     m_ledgerLinesBelow := below;
     m_ledgerLinesAboveCue := aboveCue;
     m_ledgerLinesBelowCue := belowCue |}.

(** [Staff::AddLedgerLineAbove] and [Staff::AddLedgerLineBelow]: the flag
    [cueSize] selects the buffer [AddLedgerLines] works on. *)
Definition AddLedgerLineAbove (count left right extension : Z) (cueSize : bool)
    (s : Staff) : option Staff :=
  if cueSize then
    lines ← AddLedgerLines (m_ledgerLinesAboveCue s) count left right extension;
    Some (set_ledgerLines (m_ledgerLinesAbove s) (m_ledgerLinesBelow s)
            lines (m_ledgerLinesBelowCue s) s)
  else
    lines ← AddLedgerLines (m_ledgerLinesAbove s) count left right extension;
    Some (set_ledgerLines lines (m_ledgerLinesBelow s)
            (m_ledgerLinesAboveCue s) (m_ledgerLinesBelowCue s) s).

Definition AddLedgerLineBelow (count left right extension : Z) (cueSize : bool)
    (s : Staff) : option Staff :=
  if cueSize then
    lines ← AddLedgerLines (m_ledgerLinesBelowCue s) count left right extension;
    Some (set_ledgerLines (m_ledgerLinesAbove s) (m_ledgerLinesBelow s)
            (m_ledgerLinesAboveCue s) lines s)
  else
    lines ← AddLedgerLines (m_ledgerLinesBelow s) count left right extension;
    Some (set_ledgerLines (m_ledgerLinesAbove s) lines
            (m_ledgerLinesAboveCue s) (m_ledgerLinesBelowCue s) s).

(** One call of [AddLedgerLines] as data, and a run of calls on one
    buffer. *)
Record request : Type :=
  Request { r_count : Z; r_left : Z; r_right : Z; r_extension : Z }.

Definition serve (lines : option (list LedgerLine.t)) (r : request)
  : option (list LedgerLine.t) :=
  lines ← lines;
  AddLedgerLines lines (r_count r) (r_left r) (r_right r) (r_extension r).

Definition serveAll (requests : list request) (lines : list LedgerLine.t)
  : option (list LedgerLine.t) :=
  foldl serve (Some lines) requests.

(** The [AddDash] calls that reach the line at index [i]: the requests
    whose count exceeds [i], in the order of the run. *)
Definition callsAt (i : nat) (requests : list request) : list LedgerLine.call :=
  map (fun r => LedgerLine.Call (r_left r) (r_right r) (r_extension r))
      (filter (fun r => Z.of_nat i < r_count r) requests).

(** The largest count of a run of requests, zero for none. *)
Definition maxCount (requests : list request) : Z :=
  foldr (fun r m => Z.max (r_count r) m) 0 requests.

(** The points a dash list covers. *)
Definition covered (x : Z) (dashes : list LedgerLine.Dash) : Prop :=
  exists d, d ∈ dashes /\ d.1 <= x <= d.2.

(** The dashes of a list are proper and take their edges from the calls of
    a list: each left edge is the left edge of a call, each right edge the
    right edge of a call. *)
Definition edgesFrom (calls : list LedgerLine.call)
    (dashes : list LedgerLine.Dash) : Prop :=
  Forall (fun d : LedgerLine.Dash =>
            d.1 < d.2 /\
            (exists c, c ∈ calls /\ d.1 = LedgerLine.c_left c) /\
            (exists c, c ∈ calls /\ d.2 = LedgerLine.c_right c)) dashes.

End StaffLedger.

(** ** Notation type and staff geometry (staff.cpp, lines 202-239 and 274-295) *)

Module StaffGeometry.
Import StaffModel.

(** [Staff::IsMensural], [Staff::IsNeume] and [Staff::IsTablature]. *)
Definition IsMensural (s : Staff) : bool :=
  match m_drawingNotationType s with
  | NOTATIONTYPE_mensural | NOTATIONTYPE_mensural_white
  | NOTATIONTYPE_mensural_black => true
  | _ => false
  end.

Definition IsNeume (s : Staff) : bool :=
  match m_drawingNotationType s with
  | NOTATIONTYPE_neume => true
  | _ => false
  end.

Definition IsTablature (s : Staff) : bool :=
  match m_drawingNotationType s with
  | NOTATIONTYPE_tab | NOTATIONTYPE_tab_guitar | NOTATIONTYPE_tab_lute_italian
  | NOTATIONTYPE_tab_lute_french | NOTATIONTYPE_tab_lute_german => true
  | _ => false
  end.

(** What the geometry reads of the [Doc]: [GetDrawingUnit(staffSize)]. *)
Record Doc : Type := { GetDrawingUnit : Z -> Z }.

(** [data_STAFFREL]: the value the source names; every other value of the
    enumeration is an [OtherStaffRel]. *)
Inductive data_STAFFREL : Type :=
  | STAFFREL_above
  | OtherStaffRel (tag : Z).

(** [Staff::CalcPitchPosYRel]. *)
Definition CalcPitchPosYRel (doc : Doc) (loc : Z) (s : Staff) : Z :=
  let staffLocOffset := IntOps.mul (Int.sub (m_drawingLines s) 1) 2 in
  IntOps.mul (Int.sub loc staffLocOffset)
             (GetDrawingUnit doc (m_drawingStaffSize s)).

Section WithDefs.
Context `{VrvDef}.

(** [Staff::IsOnStaffLine].  The call of [GetDrawingY] can write the cache:
    the staff is returned with the answer.  [None] is a remainder without
    a value. *)
Definition IsOnStaffLine (ctx : DrawingContext) (doc : Doc) (y : Z) (s : Staff)
  : option bool * Staff :=
  let (drawingY, s) := GetDrawingY ctx s in
  (r ← IntOps.rem (Int.sub y drawingY)
                   (IntOps.mul 2 (GetDrawingUnit doc (m_drawingStaffSize s)));
   Some (r =? 0),
   s).

(** [Staff::GetNearestInterStaffPosition]. *)
Definition GetNearestInterStaffPosition
    (ctx : DrawingContext) (doc : Doc) (y : Z) (place : data_STAFFREL)
    (s : Staff) : option Z * Staff :=
  let (drawingY, s) := GetDrawingY ctx s in
  let unit := GetDrawingUnit doc (m_drawingStaffSize s) in
  let yPos := Int.sub y drawingY in
  (distance ← IntOps.rem yPos unit;
   Some match place with
        | STAFFREL_above =>
            let distance :=
              if 0 <? distance then Int.sub unit distance else distance in
            Int.add (Int.sub y distance) unit
        | _ =>
            let distance :=
              if distance <? 0 then Int.add unit distance else distance in
            Int.sub (Int.sub y distance) unit
        end,
   s).

End WithDefs.

(** The coordinates for which no operation of the two functions above
    leaves the range of [int]: [y], the drawing y of the staff, their
    difference, and what lies within two units of [y]. *)
Definition fitsInt (y drawingY unit : Z) : Prop :=
  Int.in_range y /\ Int.in_range drawingY /\ Int.in_range (y - drawingY) /\
  Int.in_range (y - 2 * unit) /\ Int.in_range (y + 2 * unit).

(** The staff and the location for which no operation of
    [CalcPitchPosYRel] leaves the range of [int]. *)
Definition pitchFitsInt (doc : Doc) (loc : Z) (s : Staff) : Prop :=
  Int.in_range (m_drawingLines s - 1) /\
  Int.in_range ((m_drawingLines s - 1) * 2) /\
  Int.in_range (loc - (m_drawingLines s - 1) * 2) /\
  Int.in_range ((loc - (m_drawingLines s - 1) * 2) *
                GetDrawingUnit doc (m_drawingStaffSize s)).

End StaffGeometry.

(** ** Transposition to sounding pitch (staff.cpp, lines 590-604) *)

Module Transposition.
Import StaffModel.

(** [TransposeParams]: the flag, the interval registered per staff number
    and, of the [Transposer] behind [m_transposer], the interval that
    [SetTransposition] stores. *)
Record TransposeParams : Type := {
  m_transposeToSoundingPitch : bool;
  m_transposeIntervalForStaffN : gmap Z Z;
  m_transposition : Z
}.

Definition SetTransposition (interval : Z) (params : TransposeParams)
  : TransposeParams :=
  {| m_transposeToSoundingPitch := m_transposeToSoundingPitch params;
     m_transposeIntervalForStaffN := m_transposeIntervalForStaffN params;
     m_transposition := interval |}.

(** [std::map::count] and [std::map::at]; [at] throws for a missing key. *)
Definition count (key : Z) (m : gmap Z Z) : Z :=
  if bool_decide (is_Some (m !! key)) then 1 else 0.

Definition at_ (key : Z) (m : gmap Z Z) : option Z := m !! key.

Section WithDefs.
Context `{VrvDef}.

Definition HasN (s : Staff) : bool := bool_decide (is_Some (att_n s)).

(** [Staff::Transpose]; [None] is the exception of [at]. *)
Definition Transpose (params : TransposeParams) (s : Staff)
  : option (FunctorCode * TransposeParams) :=
  if m_transposeToSoundingPitch params then
    transposeInterval ←
      (if HasN s && (0 <? count (GetN s) (m_transposeIntervalForStaffN params))
       then at_ (GetN s) (m_transposeIntervalForStaffN params)
       else Some 0);
    Some (FUNCTOR_CONTINUE, SetTransposition transposeInterval params)
  else Some (FUNCTOR_CONTINUE, params).

End WithDefs.

End Transposition.

(** ** The CMME importer: sections, staves and events (iocmme.cpp, lines 139-553) *)

Module CmmeEvents.
Import StaffModel Cmme.

(** The values of the MEI data types that the importer names. *)
Inductive data_CLEFSHAPE : Type := CLEFSHAPE_C | CLEFSHAPE_F | CLEFSHAPE_G.

Inductive data_ACCIDENTAL_WRITTEN : Type :=
  | ACCIDENTAL_WRITTEN_f | ACCIDENTAL_WRITTEN_n | ACCIDENTAL_WRITTEN_s.

Inductive data_PITCHNAME : Type :=
  | PITCHNAME_c | PITCHNAME_d | PITCHNAME_e | PITCHNAME_f
  | PITCHNAME_g | PITCHNAME_a | PITCHNAME_b.

#[global] Instance data_PITCHNAME_eq_dec : EqDecision data_PITCHNAME.
Proof. solve_decision. Defined.

Inductive data_DURATION : Type :=
  | DURATION_maxima | DURATION_longa | DURATION_brevis | DURATION_semibrevis
  | DURATION_minima | DURATION_semiminima | DURATION_fusa | DURATION_semifusa.

Inductive data_PROLATIO : Type := PROLATIO_2 | PROLATIO_3.
Inductive data_TEMPUS : Type := TEMPUS_2 | TEMPUS_3.
Inductive data_MODUSMINOR : Type := MODUSMINOR_2 | MODUSMINOR_3.
Inductive data_MODUSMAIOR : Type := MODUSMAIOR_2 | MODUSMAIOR_3.
Inductive data_MENSURATIONSIGN : Type := MENSURATIONSIGN_C | MENSURATIONSIGN_O.
Inductive sylLog_WORDPOS : Type :=
  | sylLog_WORDPOS_i | sylLog_WORDPOS_m | sylLog_WORDPOS_t.
Inductive sylLog_CON : Type := sylLog_CON_d.

(** The objects the importer creates, with the attributes it sets; an
    attribute it can leave unset is an [option]. *)
Record Clef : Type := { clef_line : Z; clef_shape : data_CLEFSHAPE }.

(** A [KeySig] with its one [KeyAccid] child. *)
Record KeyAccid : Type := {
  keyaccid_accid : data_ACCIDENTAL_WRITTEN;
  keyaccid_pname : data_PITCHNAME;
  keyaccid_oct : Z;
  keyaccid_loc : Z
}.

Record Mensur : Type := {
  mensur_prolatio : data_PROLATIO;
  mensur_tempus : data_TEMPUS;
  mensur_modusminor : data_MODUSMINOR;
  mensur_modusmaior : data_MODUSMAIOR;
  mensur_sign : option data_MENSURATIONSIGN;
  mensur_dot : option data_BOOLEAN
}.

(** A [Syl] with its [Text] child, and the [Verse] around it. *)
Record Syl : Type := {
  syl_wordpos : sylLog_WORDPOS;
  syl_con : option sylLog_CON;
  syl_text : string
}.

Record Verse : Type := { verse_n : Z; verse_syl : Syl }.

Record Note : Type := {
  note_pname : data_PITCHNAME;
  note_dur : data_DURATION;
  note_numbase : option Z;
  note_num : option Z;
  note_oct : Z;
  note_colored : option data_BOOLEAN;
  note_verse : option Verse
}.

Record Rest : Type := {
  rest_dur : data_DURATION;
  rest_numbase : option Z;
  rest_num : option Z
}.

Inductive LayerElement : Type :=
  | LayerClef (clef : Clef)
  | LayerKeySig (keyaccid : KeyAccid)
  | LayerDot
  | LayerMensur (mensur : Mensur)
  | LayerNote (note : Note)
  | LayerRest (rest : Rest).

(** *** The XPath expressions of the importer *)

Definition element_name (n : xml_node) : option string :=
  match n with
  | node_element name _ => Some name
  | _ => None
  end.

(** A relative location path of child steps with name tests, as
    "Pitch/LetterName": the list of the names.  The node set, in document
    order. *)
Fixpoint select_nodes (path : list string) (context : list xml_node)
  : list xml_node :=
  match path with
  | [] => context
  | name :: path' =>
      select_nodes path'
        (flat_map (fun n => filter (fun c => is_element name c = true)
                                   (children n)) context)
  end.

(** [node.select_node(path)]: the first node of the set in document
    order. *)
Definition select_node (path : list string) (node : xml_node)
  : option xml_node :=
  head (select_nodes path [node]).

(** [voiceNode.select_nodes("./EventList/*")]: the element children of the
    [EventList] children. *)
Definition events (voiceNode : xml_node) : list xml_node :=
  flat_map (fun n => filter (fun c => is_Some (element_name c)) (children n))
           (select_nodes ["EventList"] [voiceNode]).

(** [eventNode.name()]: the name of an element, empty for another
    node. *)
Definition eventName (eventNode : xml_node) : string :=
  default "" (element_name eventNode).

(** [CmmeInput::AsString] and [CmmeInput::ChildAsString]. *)
Definition AsString (node : option xml_node) : string :=
  match node with
  | None => ""
  | Some n =>
      match text n with
      | Some value => value
      | None => ""
      end
  end.

Definition ChildAsString (node : option xml_node) (child : list string)
  : string :=
  match node with
  | None => ""
  | Some n =>
      match select_node child n with
      | Some childNode => AsString (Some childNode)
      | None => ""
      end
  end.

(** *** The static tables *)

(** [shapeMap] of [CreateClef]. *)
Definition CreateClef_shapeMap : gmap string data_CLEFSHAPE :=
  list_to_map
    [("C", CLEFSHAPE_C); ("F", CLEFSHAPE_F); ("G", CLEFSHAPE_G);
     ("Frnd", CLEFSHAPE_F); ("Fsqr", CLEFSHAPE_F)].

(** [shapeMap] of [CreateKeySig]. *)
Definition CreateKeySig_shapeMap : gmap string data_ACCIDENTAL_WRITTEN :=
  list_to_map
    [("Bmol", ACCIDENTAL_WRITTEN_f); ("BmolDouble", ACCIDENTAL_WRITTEN_f);
     ("Bqua", ACCIDENTAL_WRITTEN_n); ("Diesis", ACCIDENTAL_WRITTEN_s)].

(** [pitchMap] of [CreateKeySig] and of [CreateNote]. *)
Definition pitchMap : gmap string data_PITCHNAME :=
  list_to_map
    [("C", PITCHNAME_c); ("D", PITCHNAME_d); ("E", PITCHNAME_e);
     ("F", PITCHNAME_f); ("G", PITCHNAME_g); ("A", PITCHNAME_a);
     ("B", PITCHNAME_b)].

(** [durationMap] of [ReadDuration]. *)
Definition durationMap : gmap string data_DURATION :=
  list_to_map
    [("Maxima", DURATION_maxima); ("Longa", DURATION_longa);
     ("Brevis", DURATION_brevis); ("Semibrevis", DURATION_semibrevis);
     ("Minima", DURATION_minima); ("Semiminima", DURATION_semiminima);
     ("Fusa", DURATION_fusa); ("Semifusa", DURATION_semifusa)].

(** [clefs] of [IsClef]. *)
Definition clefs : list string := ["C"; "F"; "Fsqr"; "Frnd"; "G"].

(** [CmmeInput::IsClef]. *)
Definition IsClef (clefNode : xml_node) : bool :=
  match select_node ["Signature"] clefNode with
  | Some _ => false
  | None => bool_decide (ChildAsString (Some clefNode) ["Appearance"] ∈ clefs)
  end.

(** *** The importer while it fills a layer *)

(** The members of the importer, the objects handed to
    [m_currentLayer->AddChild], in the order of the calls, and the event
    names handed to [LogWarning]. *)
Record Filling : Type := {
  f_input : CmmeInput;
  f_children : list LayerElement;
  f_warnings : list string
}.

(** Writes to [*m_mensInfo] and to [m_isInSyllable]. *)
Definition set_voiceState (mensInfos : list MensInfo) (isInSyllable : bool)
    (input : CmmeInput) : CmmeInput :=
  {| m_score := m_score input;
     m_numVoices := m_numVoices input;
     m_mensInfos := mensInfos;
     m_mensInfo := m_mensInfo input;
     m_isInSyllable := isInSyllable;
     m_currentSection := m_currentSection input;
     m_currentLayer := m_currentLayer input;
     m_used := m_used input |}.

(** [m_currentLayer->AddChild(child)]. *)
Definition AddChild_layer (child : LayerElement) (st : Filling) : Filling :=
  {| f_input := f_input st;
     f_children := f_children st ++ [child];
     f_warnings := f_warnings st |}.

(** [*m_mensInfo]: the entry of [m_mensInfos] that [m_mensInfo] points
    to. *)
Definition currentMensInfo (input : CmmeInput) : option MensInfo :=
  k ← m_mensInfo input; m_mensInfos input !! k.

(** The default length of a note of the type [type], as the numerator and
    the denominator that [ReadDuration] builds in [ratio]. *)
Definition ratio (type : string) (mens : MensInfo) : Z * Z :=
  if String.eqb type "Maxima" then
    (IntOps.mul 1
       (IntOps.mul
          (IntOps.mul (IntOps.mul (modusmaior mens) (modusminor mens))
                      (tempus mens))
          (prolatio mens)), 1)
  else if String.eqb type "Longa" then
    (IntOps.mul 1
       (IntOps.mul (IntOps.mul (modusminor mens) (tempus mens))
                   (prolatio mens)), 1)
  else if String.eqb type "Brevis" then
    (IntOps.mul 1 (IntOps.mul (tempus mens) (prolatio mens)), 1)
  else if String.eqb type "Semibrevis" then
    (IntOps.mul 1 (prolatio mens), 1)
  else if String.eqb type "Semiminima" then (1, 2)
  else if String.eqb type "Fusa" then (1, 4)
  else if String.eqb type "Semifusa" then (1, 8)
  else (1, 1).

(** [CmmeInput::CreateVerse]: the verse, and [m_isInSyllable] as the call
    leaves it. *)
Definition CreateVerse (verseNode : xml_node) (isInSyllable : bool)
  : Verse * bool :=
  let sylText := ChildAsString (Some verseNode) ["Syllable"] in
  match select_child "WordEnd" verseNode with
  | Some _ =>
      ({| verse_n := 1;
          verse_syl := {| syl_wordpos := sylLog_WORDPOS_t;
                          syl_con := None;
                          syl_text := sylText |} |},
       false)
  | None =>
      ({| verse_n := 1;
          verse_syl := {| syl_wordpos :=
                            if isInSyllable then sylLog_WORDPOS_m
                            else sylLog_WORDPOS_i;
                          syl_con := Some sylLog_CON_d;
                          syl_text := sylText |} |},
       true)
  end.

Section WithDefs.
Context `{VrvDef} `{PugiXml}.

(** [CmmeInput::ChildAsInt] for a path of more than one step. *)
Definition ChildAsIntAt (node : option xml_node) (child : list string) : Z :=
  match node with
  | None => VRV_UNSET
  | Some n =>
      match select_node child n with
      | Some childNode => AsInt (Some childNode)
      | None => VRV_UNSET
      end
  end.

(** [CmmeInput::CreateClef].  In each of the functions below [None] is a
    failed assertion. *)
Definition CreateClef (clefNode : xml_node) (st : Filling) : option Filling :=
  _ ← m_currentLayer (f_input st);
  let staffLoc := ChildAsInt (Some clefNode) "StaffLoc" in
  let staffLoc := Z.quot (Int.add staffLoc 1) 2 in
  let appearance := ChildAsString (Some clefNode) ["Appearance"] in
  let shape :=
    match CreateClef_shapeMap !! appearance with
    | Some shape => shape
    | None => CLEFSHAPE_C
    end in
  Some (AddChild_layer
          (LayerClef {| clef_line := staffLoc; clef_shape := shape |}) st).

(** [CmmeInput::CreateDot]. *)
Definition CreateDot (dotNode : xml_node) (st : Filling) : option Filling :=
  _ ← m_currentLayer (f_input st);
  Some (AddChild_layer LayerDot st).

(** The octave of MEI for a pitch name and the [OctaveNum] of CMME, as
    [CreateKeySig] and [CreateNote] compute it. *)
Definition octaveOf (pname : data_PITCHNAME) (oct : Z) : Z :=
  if bool_decide (pname <> PITCHNAME_a) && bool_decide (pname <> PITCHNAME_b)
  then Int.add oct 1 else oct.

(** [CmmeInput::CreateKeySig]. *)
Definition CreateKeySig (keyNode : xml_node) (st : Filling) : option Filling :=
  _ ← m_currentLayer (f_input st);
  let appearance := ChildAsString (Some keyNode) ["Appearance"] in
  let accid :=
    match CreateKeySig_shapeMap !! appearance with
    | Some accid => accid
    | None => ACCIDENTAL_WRITTEN_f
    end in
  let step := ChildAsString (Some keyNode) ["Pitch"; "LetterName"] in
  let pname :=
    match pitchMap !! step with
    | Some pname => pname
    | None => PITCHNAME_c
    end in
  let oct := ChildAsIntAt (Some keyNode) ["Pitch"; "OctaveNum"] in
  let oct := octaveOf pname oct in
  let staffLoc := ChildAsInt (Some keyNode) "StaffLoc" in
  Some (AddChild_layer
          (LayerKeySig {| keyaccid_accid := accid;
                          keyaccid_pname := pname;
                          keyaccid_oct := oct;
                          keyaccid_loc := Int.sub staffLoc 1 |}) st).

(** The [Mensur] that [CreateMensuration] makes of [*m_mensInfo]. *)
Definition mensurOf (info : MensInfo) : Mensur :=
  {| mensur_prolatio := if prolatio info =? 3 then PROLATIO_3 else PROLATIO_2;
     mensur_tempus := if tempus info =? 3 then TEMPUS_3 else TEMPUS_2;
     mensur_modusminor :=
       if modusminor info =? 3 then MODUSMINOR_3 else MODUSMINOR_2;
     mensur_modusmaior :=
       if modusmaior info =? 3 then MODUSMAIOR_3 else MODUSMAIOR_2;
     mensur_sign :=
       Some (if tempus info =? 3 then MENSURATIONSIGN_O else MENSURATIONSIGN_C);
     mensur_dot :=
       Some (if prolatio info =? 3 then BOOLEAN_true else BOOLEAN_false) |}.

(** The four assignments to [*m_mensInfo] from a [MensInfo] element. *)
Definition readMensInfo (mensInfo : xml_node) : MensInfo :=
  {| prolatio := ChildAsInt (Some mensInfo) "Prolatio";
     tempus := ChildAsInt (Some mensInfo) "Tempus";
     modusminor := ChildAsInt (Some mensInfo) "ModusMinor";
     modusmaior := ChildAsInt (Some mensInfo) "ModusMaior" |}.

(** [*m_mensInfo] after [CreateMensuration]. *)
Definition mensInfoAfter (mensurationNode : xml_node) (info : MensInfo)
  : MensInfo :=
  match select_child "MensInfo" mensurationNode with
  | Some mensInfo => readMensInfo mensInfo
  | None => info
  end.

(** [CmmeInput::CreateMensuration]. *)
Definition CreateMensuration (mensurationNode : xml_node) (st : Filling)
  : option Filling :=
  _ ← m_currentLayer (f_input st);
  k ← m_mensInfo (f_input st);
  info ← m_mensInfos (f_input st) !! k;
  let info := mensInfoAfter mensurationNode info in
  Some (AddChild_layer (LayerMensur (mensurOf info))
          {| f_input :=
               set_voiceState (<[k := info]> (m_mensInfos (f_input st)))
                              (m_isInSyllable (f_input st)) (f_input st);
             f_children := f_children st;
             f_warnings := f_warnings st |}).

(** The body of [CmmeInput::ReadDuration] below its assertion: the
    duration, [num] and [numbase], for the mensuration [mens] that
    [m_mensInfo] points to. *)
Definition readDuration (durationNode : xml_node) (mens : MensInfo)
  : data_DURATION * Z * Z :=
  let type := ChildAsString (Some durationNode) ["Type"] in
  let duration :=
    match durationMap !! type with
    | Some duration => duration
    | None => DURATION_brevis
    end in
  match select_child "Length" durationNode with
  | None => (duration, VRV_UNSET, VRV_UNSET)
  | Some length =>
      let num := ChildAsInt (Some length) "Num" in
      let numbase := ChildAsInt (Some length) "Den" in
      let ratio := ratio type mens in
      if negb (ratio.1 =? num) || negb (ratio.2 =? numbase)
      then (duration, IntOps.mul num ratio.2, IntOps.mul numbase ratio.1)
      else (duration, VRV_UNSET, VRV_UNSET)
  end.

(** [CmmeInput::ReadDuration]. *)
Definition ReadDuration (durationNode : xml_node) (input : CmmeInput)
  : option (data_DURATION * Z * Z) :=
  mens ← currentMensInfo input;
  Some (readDuration durationNode mens).

(** The guard [num != VRV_UNSET && numbase != VRV_UNSET] of [CreateNote]
    and [CreateRest]. *)
Definition bothSet (num numbase : Z) : bool :=
  bool_decide (num <> VRV_UNSET) && bool_decide (numbase <> VRV_UNSET).

(** [CmmeInput::CreateNote]. *)
Definition CreateNote (noteNode : xml_node) (st : Filling) : option Filling :=
  _ ← m_currentLayer (f_input st);
  let step := ChildAsString (Some noteNode) ["LetterName"] in
  let pname :=
    match pitchMap !! step with
    | Some pname => pname
    | None => PITCHNAME_c
    end in
  '(duration, num, numbase) ← ReadDuration noteNode (f_input st);
  let oct := octaveOf pname (ChildAsInt (Some noteNode) "OctaveNum") in
  let colored :=
    match select_child "Colored" noteNode with
    | Some _ => Some BOOLEAN_true
    | None => None
    end in
  let '(verse, isInSyllable) :=
    match select_child "ModernText" noteNode with
    | Some verseNode =>
        let (verse, isInSyllable) :=
          CreateVerse verseNode (m_isInSyllable (f_input st)) in
        (Some verse, isInSyllable)
    | None => (None, m_isInSyllable (f_input st))
    end in
  Some (AddChild_layer
          (LayerNote {| note_pname := pname;
                        note_dur := duration;
                        note_numbase := if bothSet num numbase then Some num
                                        else None;
                        note_num := if bothSet num numbase then Some numbase
                                    else None;
                        note_oct := oct;
                        note_colored := colored;
                        note_verse := verse |})
          {| f_input := set_voiceState (m_mensInfos (f_input st)) isInSyllable
                                       (f_input st);
             f_children := f_children st;
             f_warnings := f_warnings st |}).

(** [CmmeInput::CreateOriginalText]. *)
Definition CreateOriginalText (originalTextNode : xml_node) (st : Filling)
  : option Filling := Some st.

(** [CmmeInput::CreateRest]. *)
Definition CreateRest (restNode : xml_node) (st : Filling) : option Filling :=
  _ ← m_currentLayer (f_input st);
  '(duration, num, numbase) ← ReadDuration restNode (f_input st);
  Some (AddChild_layer
          (LayerRest {| rest_dur := duration;
                        rest_numbase := if bothSet num numbase then Some num
                                        else None;
                        rest_num := if bothSet num numbase then Some numbase
                                    else None |}) st).

(** [LogWarning("Unsupported event '%s'", name)]. *)
Definition LogWarning (name : string) (st : Filling) : Filling :=
  {| f_input := f_input st;
     f_children := f_children st;
     f_warnings := f_warnings st ++ [name] |}.

(** The body of the loop of [CreateStaff] over the events. *)
Definition CreateEvent (st : option Filling) (eventNode : xml_node)
  : option Filling :=
  st ← st;
  let name := eventName eventNode in
  if String.eqb name "Clef" then
    if IsClef eventNode then CreateClef eventNode st
    else CreateKeySig eventNode st
  else if String.eqb name "Dot" then CreateDot eventNode st
  else if String.eqb name "Mensuration" then CreateMensuration eventNode st
  else if String.eqb name "Note" then CreateNote eventNode st
  else if String.eqb name "OriginalText" then CreateOriginalText eventNode st
  else if String.eqb name "Rest" then CreateRest eventNode st
  else Some (LogWarning name st).

(** [*m_mensInfo] past the event [eventNode]: of the functions the loop
    calls, [CreateMensuration] alone writes it. *)
Definition mensInfoPast (info : MensInfo) (eventNode : xml_node) : MensInfo :=
  if String.eqb (eventName eventNode) "Mensuration"
  then mensInfoAfter eventNode info else info.

(** [CmmeInput::CreateStaff] with the loop over the events, up to the
    two calls of [AddChild] that end it: the importer, the children of the
    new layer and the warnings. *)
Definition CreateStaff_layer (voiceNode : xml_node) (input : CmmeInput)
  : option Filling :=
  match m_currentSection input with
  | None => None
  | Some _ =>
      let numVoice := ChildAsInt (Some voiceNode) "VoiceNum" in
      let (staffId, input) := newID input in
      let (layerId, input) := newID input in
      let layer :=
        {| node_classId := LAYER; node_id := layerId; node_n := Some 1 |} in
      match vector_at (Int.sub numVoice 1) (m_mensInfos input) with
      | None => None
      | Some mensInfo =>
          let input :=
            {| m_score := m_score input;
               m_numVoices := m_numVoices input;
               m_mensInfos := m_mensInfos input;
               m_mensInfo := Some mensInfo;
               m_isInSyllable := false;
               m_currentSection := m_currentSection input;
               m_currentLayer := Some layer;
               m_used := m_used input |} in
          foldl CreateEvent
                (Some {| f_input := input; f_children := []; f_warnings := [] |})
                (events voiceNode)
      end
  end.

(** [CmmeInput::CreateStaff].  [None] is the failed
    [assert(m_currentSection)], the exception of [m_mensInfos.at] or a
    failed assertion of a function the loop calls.  After the loop the
    layer goes under the staff and the staff under the measure of the
    section.  The result is the importer, with the children of the layer
    and the warnings of the loop. *)
Definition CreateStaff (voiceNode : xml_node) (input : CmmeInput)
  : option Filling :=
  match m_currentSection input with
  | None => None
  | Some _ =>
      let numVoice := ChildAsInt (Some voiceNode) "VoiceNum" in
      let (staffId, input) := newID input in
      let staff := newStaff staffId numVoice in
      let (layerId, input) := newID input in
      let layer :=
        {| node_classId := LAYER; node_id := layerId; node_n := Some 1 |} in
      match vector_at (Int.sub numVoice 1) (m_mensInfos input) with
      | None => None
      | Some mensInfo =>
          let input :=
            {| m_score := m_score input;
               m_numVoices := m_numVoices input;
               m_mensInfos := m_mensInfos input;
               m_mensInfo := Some mensInfo;
               m_isInSyllable := false;
               m_currentSection := m_currentSection input;
               m_currentLayer := Some layer;
               m_used := m_used input |} in
          st ← foldl CreateEvent
                 (Some {| f_input := input; f_children := [];
                          f_warnings := [] |})
                 (events voiceNode);
          currentLayer ← m_currentLayer (f_input st);
          input ← addToCurrentSection (AddChild staff currentLayer).2
                                      (f_input st);
          Some {| f_input := input;
                  f_children := f_children st;
                  f_warnings := f_warnings st |}
      end
  end.

(** The importer while it builds a section: its members, the layers
    filled so far with the children handed to each, in the order of the
    voices, and the warnings. *)
Record Building : Type := {
  b_input : CmmeInput;
  b_layers : list (Node * list LayerElement);
  b_warnings : list string
}.

(** The body of the loop of [CreateSection] for the voice index [i]. *)
Definition CreateSection_voice (musicSectionNode : xml_node)
    (state : Building) (i : Z) : option Building :=
  match select_voice musicSectionNode (Int.add i 1) with
  | Some voice =>
      st ← CreateStaff voice (b_input state);
      layer ← m_currentLayer (f_input st);
      Some {| b_input := f_input st;
              b_layers := b_layers state ++ [(layer, f_children st)];
              b_warnings := b_warnings state ++ f_warnings st |}
  | None =>
      let (staffId, input) := newID (b_input state) in
      let staff := newStaff staffId (Int.add i 1) in
      let staff := SetVisible BOOLEAN_false staff in
      input ← addToCurrentSection staff input;
      Some {| b_input := input;
              b_layers := b_layers state;
              b_warnings := b_warnings state |}
  end.

(** [CmmeInput::CreateSection]: a new section of the type
    [musicSectionNode.name()] under the score, with a new measure as the
    current section, then one round of the loop per voice.  [None] is the
    failed [assert(m_score)] or a failure of [CreateStaff]. *)
Definition CreateSection (musicSectionNode : xml_node) (input : CmmeInput)
  : option Building :=
  match m_score input with
  | None => None
  | Some sections =>
      let sectionType := eventName musicSectionNode in
      let (sectionId, input) := newID input in
      let (measureId, input) := newID input in
      let input :=
        {| m_score := Some (sections ++ [sectionType]);
           m_numVoices := m_numVoices input;
           m_mensInfos := m_mensInfos input;
           m_mensInfo := m_mensInfo input;
           m_isInSyllable := m_isInSyllable input;
           m_currentSection := Some {| measure_children := [] |};
           m_currentLayer := m_currentLayer input;
           m_used := m_used input |} in
      foldl (fun state i => state ≫= fun state =>
                            CreateSection_voice musicSectionNode state i)
            (Some {| b_input := input; b_layers := []; b_warnings := [] |})
            (seqZ 0 (m_numVoices input))
  end.

End WithDefs.

(** *** What the properties speak of *)

(** The kind of object an event adds to the layer, if it adds one. *)
Inductive Kind : Type :=
  | KindClef | KindKeySig | KindDot | KindMensur | KindNote | KindRest.

Definition kindOf (element : LayerElement) : Kind :=
  match element with
  | LayerClef _ => KindClef
  | LayerKeySig _ => KindKeySig
  | LayerDot => KindDot
  | LayerMensur _ => KindMensur
  | LayerNote _ => KindNote
  | LayerRest _ => KindRest
  end.

(** The name of an event of the six supported names. *)
Definition supported (name : string) : bool :=
  bool_decide (name ∈ ["Clef"; "Dot"; "Mensuration"; "Note"; "OriginalText";
                       "Rest"]).

Definition eventKind (eventNode : xml_node) : option Kind :=
  let name := eventName eventNode in
  if String.eqb name "Clef" then
    Some (if IsClef eventNode then KindClef else KindKeySig)
  else if String.eqb name "Dot" then Some KindDot
  else if String.eqb name "Mensuration" then Some KindMensur
  else if String.eqb name "Note" then Some KindNote
  else if String.eqb name "Rest" then Some KindRest
  else None.

(** The syllables of the notes of a layer, in order. *)
Definition syllables (elements : list LayerElement) : list Syl :=
  omap (fun element =>
          match element with
          | LayerNote note => verse_syl <$> note_verse note
          | _ => None
          end) elements.

(** The word positions of a run of syllables form words: the first
    syllable does not continue a word, a syllable that begins a word
    follows one that ended a word, and a syllable in the middle of a word
    follows one that did not end a word. *)
Fixpoint wordsFrom (inWord : bool) (syls : list Syl) : Prop :=
  match syls with
  | [] => True
  | syl :: syls' =>
      match syl_wordpos syl with
      | sylLog_WORDPOS_i => inWord = false /\ wordsFrom true syls'
      | sylLog_WORDPOS_m => inWord = true /\ wordsFrom true syls'
      | sylLog_WORDPOS_t => wordsFrom false syls'
      end
  end.

(** A syllable that does not end a word carries the connector [d], one
    that ends a word carries none. *)
Definition connectorFits (syl : Syl) : Prop :=
  match syl_wordpos syl with
  | sylLog_WORDPOS_t => syl_con syl = None
  | _ => syl_con syl = Some sylLog_CON_d
  end.

Fixpoint inWordAfter (inWord : bool) (syls : list Syl) : bool :=
  match syls with
  | [] => inWord
  | syl :: syls' =>
      inWordAfter
        (match syl_wordpos syl with sylLog_WORDPOS_t => false | _ => true end)
        syls'
  end.

(** The importer can take an event: the current layer is there, and
    [m_mensInfo] points into [m_mensInfos]. *)
Definition ready (input : CmmeInput) (layer : Node) (k : nat) : Prop :=
  m_currentLayer input = Some layer /\
  m_mensInfo input = Some k /\
  (k < length (m_mensInfos input))%nat.

(** The step of a pitch on the diatonic scale: seven steps to the
    octave, counted for MEI from the c of octave 0 and for CMME from the A
    of octave 0. *)
Definition stepOfPitch (pname : data_PITCHNAME) (oct : Z) : Z :=
  7 * oct +
  match pname with
  | PITCHNAME_c => 0 | PITCHNAME_d => 1 | PITCHNAME_e => 2 | PITCHNAME_f => 3
  | PITCHNAME_g => 4 | PITCHNAME_a => 5 | PITCHNAME_b => 6
  end.

Definition stepOfLetter (letter : string) (octaveNum : Z) : option Z :=
  if String.eqb letter "A" then Some (7 * octaveNum)
  else if String.eqb letter "B" then Some (7 * octaveNum + 1)
  else if String.eqb letter "C" then Some (7 * octaveNum + 2)
  else if String.eqb letter "D" then Some (7 * octaveNum + 3)
  else if String.eqb letter "E" then Some (7 * octaveNum + 4)
  else if String.eqb letter "F" then Some (7 * octaveNum + 5)
  else if String.eqb letter "G" then Some (7 * octaveNum + 6)
  else None.

(** A mensuration whose four numbers are 2 or 3. *)
Definition mensural (mens : MensInfo) : Prop :=
  (prolatio mens = 2 \/ prolatio mens = 3) /\
  (tempus mens = 2 \/ tempus mens = 3) /\
  (modusminor mens = 2 \/ modusminor mens = 3) /\
  (modusmaior mens = 2 \/ modusmaior mens = 3).

End CmmeEvents.

(** ** The CMME importer: voices and staff group (iocmme.cpp, lines 82-91 and 100-125) *)

Module CmmeImport.
Import StaffModel Cmme CmmeEvents.

(** The importer with its list of voice names, [m_voices]. *)
Record Importer : Type := {
  i_input : CmmeInput;
  m_voices : list string
}.

(** The objects of the minimal score definition. *)
Inductive StaffDefChild : Type :=
  | StaffDefLabel (text : string)
  | StaffDefMensur (mensur : Mensur).

Record StaffDef : Type := {
  staffDef_n : Z;
  staffDef_lines : Z;
  staffDef_notationtype : data_NOTATIONTYPE;
  staffDef_children : list StaffDefChild
}.

Inductive staffGroupingSym_SYMBOL : Type := staffGroupingSym_SYMBOL_bracket.

Inductive StaffGrpChild : Type :=
  | StaffGrpSym (symbol : staffGroupingSym_SYMBOL)
  | StaffGrpStaffDef (staffDef : StaffDef).

(** [root.select_nodes("/Piece/VoiceData/Voice")]: the path starts at the
    document node, whose children are [document]. *)
Definition voiceNodes (document : list xml_node) : list xml_node :=
  select_nodes ["VoiceData"; "Voice"]
    (filter (fun n => is_element "Piece" n = true) document).

(** The body of the loop over the voices: [m_numVoices++] and
    [m_voices.push_back(name)]. *)
Definition countVoice (importer : Importer) (voiceNode : xml_node) : Importer :=
  let input := i_input importer in
  {| i_input :=
       {| m_score := m_score input;
          m_numVoices := Int.add (m_numVoices input) 1;
          m_mensInfos := m_mensInfos input;
          m_mensInfo := m_mensInfo input;
          m_isInSyllable := m_isInSyllable input;
          m_currentSection := m_currentSection input;
          m_currentLayer := m_currentLayer input;
          m_used := m_used input |};
     m_voices := m_voices importer ++ [ChildAsString (Some voiceNode) ["Name"]] |}.

(** [m_mensInfos.resize(m_numVoices)]: the count is converted to [size_t],
    and a negative one asks for more than a vector can hold; [None] is
    that exception.  A new entry is binary in all four numbers. *)
Definition resize (count : Z) (mensInfos : list MensInfo)
  : option (list MensInfo) :=
  if count <? 0 then None
  else Some (take (Z.to_nat count) mensInfos ++
             replicate (Z.to_nat count - length mensInfos) binary).

(** The part of [CmmeInput::Import] that counts the voices and allocates
    the mensurations. *)
Definition Import_voices (document : list xml_node) (importer : Importer)
  : option Importer :=
  let importer := foldl countVoice importer (voiceNodes document) in
  let input := i_input importer in
  mensInfos ← resize (m_numVoices input) (m_mensInfos input);
  Some {| i_input :=
            {| m_score := m_score input;
               m_numVoices := m_numVoices input;
               m_mensInfos := mensInfos;
               m_mensInfo := m_mensInfo input;
               m_isInSyllable := m_isInSyllable input;
               m_currentSection := m_currentSection input;
               m_currentLayer := m_currentLayer input;
               m_used := m_used input |};
          m_voices := m_voices importer |}.

(** The [Mensur] of a staff definition: "everything binary". *)
Definition defaultMensur : Mensur :=
  {| mensur_prolatio := PROLATIO_2;
     mensur_tempus := TEMPUS_2;
     mensur_modusminor := MODUSMINOR_2;
     mensur_modusmaior := MODUSMAIOR_2;
     mensur_sign := None;
     mensur_dot := None |}.

(** The body of the loop that builds the staff definitions;
    [m_voices.at(i)] throws past the end. *)
Definition newStaffDef (importer : Importer) (i : Z) : option StaffGrpChild :=
  name ← m_voices importer !! Z.to_nat i;
  Some (StaffGrpStaffDef
          {| staffDef_n := Int.add i 1;
             staffDef_lines := 5;
             staffDef_notationtype := NOTATIONTYPE_mensural;
             staffDef_children :=
               (if String.eqb name "" then [] else [StaffDefLabel name]) ++
               [StaffDefMensur defaultMensur] |}).

(** The part of [CmmeInput::Import] that builds the staff group: the
    children handed to [staffGrp->AddChild], in order. *)
Definition Import_staffGrp (importer : Importer) : option (list StaffGrpChild) :=
  staffDefs ← mapM (newStaffDef importer)
                   (seqZ 0 (m_numVoices (i_input importer)));
  Some (StaffGrpSym staffGroupingSym_SYMBOL_bracket :: staffDefs).

(** The staff definitions among the children of a staff group. *)
Definition staffDefsOf (children : list StaffGrpChild) : list StaffDef :=
  omap (fun child =>
          match child with
          | StaffGrpStaffDef staffDef => Some staffDef
          | StaffGrpSym _ => None
          end) children.

(** The label of a staff definition, if it has one. *)
Definition labelOf (staffDef : StaffDef) : option string :=
  head (omap (fun child =>
                match child with
                | StaffDefLabel text => Some text
                | StaffDefMensur _ => None
                end) (staffDef_children staffDef)).

End CmmeImport.

(** ** Sample data for the geometry and for the importer *)

Module Samples.
Import StaffModel StaffGeometry Cmme CmmeEvents CmmeImport.

(** A document whose drawing unit is 9 at the staff size 100. *)
Definition sampleDoc : Doc :=
  {| GetDrawingUnit := fun staffSize => Z.quot (9 * staffSize) 100 |}.

(** The aligned sample staff after a first [GetDrawingY]: its cache holds
    2000 - 350. *)
Definition cachedStaff : Staff :=
  (@GetDrawingY sampleDef sampleContext alignedStaff).2.

(** An element with one text node. *)
Definition field (name value : string) : xml_node :=
  node_element name [node_pcdata value].

(** The events of a voice: a round F clef on the third line, a flat on B,
    a mensuration with prolatio 3, two notes that carry the two syllables
    of a word, the first one longer than its type, a rest, an event the
    importer does not know, and a text of the source. *)
Definition sampleClef : xml_node :=
  node_element "Clef" [field "Appearance" "Frnd"; field "StaffLoc" "5"].

Definition sampleKey : xml_node :=
  node_element "Clef"
    [field "Appearance" "Bmol"; field "StaffLoc" "4";
     node_element "Pitch" [field "LetterName" "B"; field "OctaveNum" "3"];
     node_element "Signature" []].

Definition sampleMensuration : xml_node :=
  node_element "Mensuration"
    [node_element "MensInfo"
       [field "Prolatio" "3"; field "Tempus" "2";
        field "ModusMinor" "2"; field "ModusMaior" "2"]].

Definition sampleNote : xml_node :=
  node_element "Note"
    [field "Type" "Semibrevis"; field "LetterName" "G"; field "OctaveNum" "3";
     node_element "Length" [field "Num" "2"; field "Den" "1"];
     node_element "ModernText" [field "Syllable" "Ky"]].

Definition sampleLastNote : xml_node :=
  node_element "Note"
    [field "Type" "Minima"; field "LetterName" "A"; field "OctaveNum" "3";
     node_element "ModernText"
       [field "Syllable" "rie"; node_element "WordEnd" []]].

Definition sampleRest : xml_node := node_element "Rest" [field "Type" "Brevis"].

Definition sampleVoice : xml_node :=
  node_element "Voice"
    [field "VoiceNum" "1";
     node_element "EventList"
       [sampleClef; sampleKey; sampleMensuration; sampleNote; sampleLastNote;
        sampleRest; node_element "Proportion" [];
        node_element "OriginalText" []]].

(** A section with the first of two voices only, the voice above. *)
Definition sampleEventSection : xml_node :=
  node_element "MensuralMusic" [sampleVoice].

(** The importer of [Cmme.sampleInput] inside a section. *)
Definition sampleInSection : CmmeInput :=
  {| m_score := Some [];
     m_numVoices := 2;
     m_mensInfos := [binary; binary];
     m_mensInfo := None;
     m_isInSyllable := true;
     m_currentSection := Some {| measure_children := [] |};
     m_currentLayer := None;
     m_used := ∅ |}.

(** The same importer at the head of the loop over the events of the
    first voice. *)
Definition sampleFilling : Filling :=
  {| f_input :=
       {| m_score := Some [];
          m_numVoices := 2;
          m_mensInfos := [binary; binary];
          m_mensInfo := Some 0%nat;
          m_isInSyllable := false;
          m_currentSection := Some {| measure_children := [] |};
          m_currentLayer := Some sampleLayer;
          m_used := ∅ |};
     f_children := [];
     f_warnings := [] |}.

(** A piece with two voices, the first one with a name. *)
Definition sampleDocument : list xml_node :=
  [node_comment "a piece";
   node_element "Piece"
     [node_element "VoiceData"
        [field "NumVoices" "2";
         node_element "Voice" [field "Name" "Cantus"];
         node_element "Voice" [node_element "Name" []]]]].

(** An importer whose [Import] has made the score and has not yet counted
    the voices. *)
Definition sampleImporter : Importer :=
  {| i_input :=
       {| m_score := Some [];
          m_numVoices := 0;
          m_mensInfos := [];
          m_mensInfo := None;
          m_isInSyllable := false;
          m_currentSection := None;
          m_currentLayer := None;
          m_used := ∅ |};
     m_voices := [] |}.

End Samples.

(* ===================================================================== *)
(** * Part II: properties *)
(* ===================================================================== *)

(** ** Lists *)

Lemma lookup_map {A B : Type} (f : A -> B) (l : list A) (i : nat) :
  map f l !! i = f <$> l !! i.
Proof. revert i; induction l as [|x l IH]; intros [|i]; simpl; auto. Qed.

(** ** Ledger lines *)

Section LedgerLineFacts.
Import LedgerLine.

(** The integer test is the comparison with one and a half extensions. *)
Lemma overlaps_spec (previousRight iterLeft extension : Z) :
  overlaps previousRight iterLeft extension = true <->
  overlapsBeyond previousRight iterLeft extension.
Proof.
  unfold overlaps, overlapsBeyond, Qlt, Qplus, Qmult, inject_Z; simpl.
  rewrite Z.ltb_lt. lia.
Qed.

Lemma overlaps_false_spec (previousRight iterLeft extension : Z) :
  overlaps previousRight iterLeft extension = false <->
  ~ overlapsBeyond previousRight iterLeft extension.
Proof.
  rewrite <- overlaps_spec.
  destruct (overlaps previousRight iterLeft extension); split; intros H;
    congruence || (exfalso; auto).
Qed.

Lemma insertDash_split (left right : Z) (dashes : list Dash) :
  exists before after,
    dashes = before ++ after /\
    insertDash left right dashes = before ++ (left, right) :: after /\
    Forall (fun d : Dash => d.1 <= left) before /\
    (forall d, head after = Some d -> left < d.1).
Proof.
  induction dashes as [|d rest IH]; simpl.
  - exists [], []. repeat split; auto. intros d [=].
  - destruct (Z.ltb_spec left d.1) as [Hlt|Hge].
    + exists [], (d :: rest). repeat split; auto.
      intros d' [= <-]. exact Hlt.
    + destruct IH as (before & after & -> & Hins & Hall & Hhd).
      exists (d :: before), after. rewrite Hins.
      repeat split; auto.
Qed.

Lemma insertDash_nonempty (left right : Z) (dashes : list Dash) :
  insertDash left right dashes <> [].
Proof. destruct dashes as [|d rest]; simpl; [|destruct (left <? d.1)]; discriminate. Qed.

(** The sweep keeps the left edge of the dash it starts from. *)
Lemma sweep_head (extension : Z) (previous : Dash) (rest : list Dash) :
  exists r tail, sweep extension previous rest = (previous.1, r) :: tail.
Proof.
  revert previous; induction rest as [|iter rest IH]; intros [l r]; simpl.
  - eauto.
  - destruct (overlaps r iter.1 extension); [apply IH | eauto].
Qed.

Lemma sweep_noMergeable (extension : Z) (previous : Dash) (rest : list Dash) :
  noMergeable extension (sweep extension previous rest).
Proof.
  revert previous; induction rest as [|iter rest IH]; intros previous; simpl.
  - exact I.
  - destruct (overlaps previous.2 iter.1 extension) eqn:Hov; [apply IH|].
    specialize (IH iter).
    destruct (sweep_head extension iter rest) as (r & tail & Heq).
    rewrite Heq in IH |- *. simpl. split; [exact Hov | exact IH].
Qed.

#[local] Instance left_le_trans : Transitive (fun a b : Dash => a.1 <= b.1).
Proof. intros a b c; lia. Qed.

Lemma sortedByLeft_strongly (dashes : list Dash) :
  sortedByLeft dashes <-> StronglySorted (fun a b : Dash => a.1 <= b.1) dashes.
Proof.
  split; [apply Sorted_StronglySorted, left_le_trans | apply StronglySorted_Sorted].
Qed.

Lemma insertDash_sorted (left right : Z) (dashes : list Dash) :
  sortedByLeft dashes -> sortedByLeft (insertDash left right dashes).
Proof.
  rewrite !sortedByLeft_strongly.
  induction dashes as [|d rest IH]; simpl; intros Hs.
  - repeat constructor.
  - inversion Hs as [|? ? Hrest Hall]; subst.
    destruct (Z.ltb_spec left d.1) as [Hlt|Hge].
    + constructor; [exact Hs|].
      constructor; [simpl; lia|].
      eapply Forall_impl; [exact Hall|]. simpl; intros; lia.
    + constructor; [auto|].
      destruct (insertDash_split left right rest) as (b & a & -> & -> & _ & _).
      apply Forall_app in Hall as [Hb Ha].
      apply Forall_app; split; [exact Hb|].
      constructor; [simpl; lia | exact Ha].
Qed.

Lemma sweep_strongly_sorted (extension : Z) (previous : Dash) (rest : list Dash) :
  StronglySorted (fun a b : Dash => a.1 <= b.1) (previous :: rest) ->
  StronglySorted (fun a b : Dash => a.1 <= b.1) (sweep extension previous rest).
Proof.
  revert previous; induction rest as [|iter rest IH]; intros previous Hs; simpl.
  - repeat constructor.
  - inversion Hs as [|? ? Hrest Hall]; subst.
    inversion Hall as [|? ? Hpi Hall']; subst.
    destruct (overlaps previous.2 iter.1 extension).
    + apply IH.
      inversion Hrest; subst. constructor; [assumption|exact Hall'].
    + pose proof (IH iter Hrest) as Hsw.
      constructor; [exact Hsw|].
      destruct (sweep_head extension iter rest) as (r & tail & Heq).
      rewrite Heq in Hsw |- *.
      inversion Hsw as [|? ? _ Htail]; subst.
      constructor; [exact Hpi|].
      eapply Forall_impl; [exact Htail|]. simpl in *; intros; lia.
Qed.

Lemma sweep_sorted (extension : Z) (previous : Dash) (rest : list Dash) :
  sortedByLeft (previous :: rest) ->
  sortedByLeft (sweep extension previous rest).
Proof. rewrite !sortedByLeft_strongly. apply sweep_strongly_sorted. Qed.

Lemma AddDash_dashes_sorted (left right extension : Z) (dashes : list Dash) :
  sortedByLeft dashes ->
  sortedByLeft (AddDash_dashes left right extension dashes).
Proof.
  intros Hs. unfold AddDash_dashes.
  pose proof (insertDash_sorted left right dashes Hs) as Hi.
  destruct (insertDash left right dashes); [constructor|].
  apply sweep_sorted, Hi.
Qed.

Lemma AddDash_dashes_noMergeable (left right extension : Z) (dashes : list Dash) :
  noMergeable extension (AddDash_dashes left right extension dashes).
Proof.
  unfold AddDash_dashes.
  destruct (insertDash left right dashes); [exact I | apply sweep_noMergeable].
Qed.

Lemma run_snoc (calls : list call) (c : call) (line : t) :
  run (calls ++ [c]) line = apply (run calls line) c.
Proof. unfold run. rewrite foldl_app. reflexivity. Qed.

Lemma run_sorted (calls : list call) (line : t) :
  sortedByLeft (m_dashes line) -> sortedByLeft (m_dashes (run calls line)).
Proof.
  revert line; induction calls as [|c calls IH]; intros line Hs; simpl; [exact Hs|].
  apply IH. simpl. apply AddDash_dashes_sorted, Hs.
Qed.

(** C1.  [AddDash(left, right, extension)] with [left < right] puts the new
    dash in front of the first dash whose left edge is greater than [left],
    after every dash whose left edge is at most [left]; the sweep that
    follows merges the dash under [previous] with the next one exactly when
    its right edge exceeds the next left edge by more than 1.5 extensions,
    the merged dash keeping its left edge and taking the larger right edge,
    and otherwise moves on; so a dash added to a line that holds one dash
    to its left is merged into it exactly in that case.  With extension 2,
    (0,10) then (8,20) on an empty line stay two dashes and (0,10) then
    (5,20) become (0,20). *)
Theorem AddDash_inserts_sorted_then_merges
    (left right extension : Z) (line : t) :
  left < right ->
  (exists before after first rest,
      m_dashes line = before ++ after /\
      Forall (fun d : Dash => d.1 <= left) before /\
      (forall d, head after = Some d -> left < d.1) /\
      before ++ (left, right) :: after = first :: rest /\
      m_dashes (AddDash left right extension line) = sweep extension first rest) /\
  (forall previous iter rest,
      (overlapsBeyond previous.2 iter.1 extension ->
       sweep extension previous (iter :: rest) =
       sweep extension (previous.1, Z.max iter.2 previous.2) rest) /\
      (~ overlapsBeyond previous.2 iter.1 extension ->
       sweep extension previous (iter :: rest) =
       previous :: sweep extension iter rest)) /\
  (forall previous, sweep extension previous [] = [previous]) /\
  (forall l1 r1, l1 <= left ->
      (overlapsBeyond r1 left extension ->
       m_dashes (AddDash left right extension (Build [(l1, r1)])) =
       [(l1, Z.max right r1)]) /\
      (~ overlapsBeyond r1 left extension ->
       m_dashes (AddDash left right extension (Build [(l1, r1)])) =
       [(l1, r1); (left, right)])) /\
  m_dashes (AddDash 8 20 2 (AddDash 0 10 2 new)) = [(0, 10); (8, 20)] /\
  m_dashes (AddDash 5 20 2 (AddDash 0 10 2 new)) = [(0, 20)].
Proof.
  intros _. split; [|split; [|split; [|split; [|split]]]].
  - destruct (insertDash_split left right (m_dashes line))
      as (before & after & Hsplit & Hins & Hbefore & Hafter).
    destruct (insertDash left right (m_dashes line)) as [|first rest] eqn:Heq.
    { exfalso. eapply insertDash_nonempty, Heq. }
    exists before, after, first, rest.
    repeat split; auto.
    unfold AddDash, AddDash_dashes; simpl. rewrite Heq. reflexivity.
  - intros previous iter rest. split; intros Hov; simpl.
    + apply overlaps_spec in Hov. rewrite Hov. reflexivity.
    + apply overlaps_false_spec in Hov. rewrite Hov. reflexivity.
  - reflexivity.
  - intros l1 r1 Hle. unfold AddDash, AddDash_dashes. cbn [m_dashes insertDash fst].
    destruct (Z.ltb_spec left l1) as [Hlt|_]; [lia|].
    split; intros Hov; cbn [sweep fst snd].
    + apply overlaps_spec in Hov. rewrite Hov. reflexivity.
    + apply overlaps_false_spec in Hov. rewrite Hov. reflexivity.
  - reflexivity.
  - reflexivity.
Qed.

Lemma AddDash_inserts_sorted_then_merges_witness :
  4 < 9 /\
  exists before after first rest,
    [(0, 10); (8, 20)] = before ++ after /\
    Forall (fun d : Dash => d.1 <= 4) before /\
    (forall d, head after = Some d -> 4 < d.1) /\
    before ++ (4, 9) :: after = first :: rest /\
    m_dashes (AddDash 4 9 2 (Build [(0, 10); (8, 20)])) = sweep 2 first rest.
Proof.
  split; [lia|].
  apply (AddDash_inserts_sorted_then_merges 4 9 2 (Build [(0, 10); (8, 20)])).
  lia.
Defined.

(** C7.  Starting from a new ledger line, after every call of a run of
    [AddDash] calls with [left < right] the dashes are sorted by left edge
    and no dash reaches more than 1.5 times that call's extension past the
    left edge of the dash that follows it. *)
Theorem AddDash_keeps_sorted_and_merged (calls : list call) (c : call) :
  Forall (fun c' => c_left c' < c_right c') (calls ++ [c]) ->
  sortedByLeft (m_dashes (run (calls ++ [c]) new)) /\
  noMergeable (c_extension c) (m_dashes (run (calls ++ [c]) new)) /\
  (forall before a b after,
      m_dashes (run (calls ++ [c]) new) = before ++ a :: b :: after ->
      a.1 <= b.1 /\ ~ overlapsBeyond a.2 b.1 (c_extension c)).
Proof.
  intros _.
  assert (Hsorted : sortedByLeft (m_dashes (run (calls ++ [c]) new))).
  { apply run_sorted. constructor. }
  assert (Hmerged : noMergeable (c_extension c) (m_dashes (run (calls ++ [c]) new))).
  { rewrite run_snoc. apply AddDash_dashes_noMergeable. }
  split; [exact Hsorted|]. split; [exact Hmerged|].
  intros before a b after Heq. rewrite Heq in Hsorted, Hmerged.
  clear Heq. induction before as [|x before IH]; simpl in *.
  - split.
    + inversion Hsorted as [|? ? _ Hhd]; subst. inversion Hhd; subst. assumption.
    + apply overlaps_false_spec, Hmerged.
  - apply IH.
    + inversion Hsorted; subst; assumption.
    + destruct before; simpl in *; apply Hmerged.
Qed.

Lemma AddDash_keeps_sorted_and_merged_witness :
  Forall (fun c' => c_left c' < c_right c')
         ([Call 0 10 2; Call 20 30 2] ++ [Call 5 20 2]) /\
  sortedByLeft (m_dashes (run ([Call 0 10 2; Call 20 30 2] ++ [Call 5 20 2]) new)) /\
  noMergeable 2 (m_dashes (run ([Call 0 10 2; Call 20 30 2] ++ [Call 5 20 2]) new)).
Proof.
  assert (H : Forall (fun c' => c_left c' < c_right c')
                     ([Call 0 10 2; Call 20 30 2] ++ [Call 5 20 2])).
  { repeat constructor; simpl; lia. }
  split; [exact H|].
  destruct (AddDash_keeps_sorted_and_merged
              [Call 0 10 2; Call 20 30 2] (Call 5 20 2) H) as (Hs & Hm & _).
  split; [exact Hs | exact Hm].
Defined.

End LedgerLineFacts.

(** ** Stem directions *)

Section StemFacts.
Import Stem.

Lemma stemDirOfN_odd (n : Z) : Z.odd n = true -> stemDirOfN n = STEMDIRECTION_up.
Proof.
  intros Hodd. unfold stemDirOfN.
  destruct (Z.eqb_spec (Z.rem n 2) 0) as [Hz|Hnz]; [|reflexivity].
  apply Z.rem_divide in Hz; [|lia]. destruct Hz as [k ->].
  rewrite Z.mul_comm, Z.odd_mul in Hodd. discriminate.
Qed.

Lemma stemDirOfN_even (n : Z) : Z.even n = true -> stemDirOfN n = STEMDIRECTION_down.
Proof.
  intros Heven. unfold stemDirOfN.
  apply Z.even_spec in Heven as [k ->].
  rewrite Z.mul_comm, Z.rem_mul by lia. reflexivity.
Qed.

(** The loop over a pointer list writes every object whose address is in
    the list, and no other. *)
Lemma foldl_assignByParity (addrs : list Z) (s : store) :
  foldl assignByParity s addrs =
  map (fun l => if decide (l_addr l ∈ addrs)
                then SetDrawingStemDir (stemDirOfN (l_n l)) l else l) s.
Proof.
  revert s; induction addrs as [|a addrs IH]; intros s; simpl.
  - induction s as [|l s IHs]; simpl; [reflexivity|].
    rewrite <- IHs. destruct (decide (l_addr l ∈ [])) as [Hin|_]; [|reflexivity].
    inversion Hin.
  - rewrite IH. unfold assignByParity, write. rewrite map_map.
    apply map_ext. intros l.
    destruct (decide (l_addr l = a)) as [Heq|Hne]; simpl.
    + destruct (decide (l_addr l ∈ a :: addrs)) as [_|Hn].
      * destruct (decide (l_addr l ∈ addrs)); reflexivity.
      * exfalso. apply Hn. rewrite Heq. left.
    + destruct (decide (l_addr l ∈ addrs)) as [Hin|Hnin];
        destruct (decide (l_addr l ∈ a :: addrs)) as [Hin'|Hnin']; try reflexivity.
      * exfalso. apply Hnin'. right. exact Hin.
      * exfalso. apply elem_of_cons in Hin' as [?|?]; auto.
Qed.


Lemma set_difference_keeps (range1 range2 : list Z) (x : Z) :
  x ∈ range1 -> x ∉ range2 -> x ∈ set_difference range1 range2.
Proof.
  revert range2; induction range1 as [|a range1 IH]; intros range2; simpl.
  - inversion 1.
  - induction range2 as [|b range2 IH2]; [auto|].
    intros Hin Hnotin.
    apply not_elem_of_cons in Hnotin as [Hxb Hnotin].
    destruct (Z.ltb_spec a b) as [Hab|Hba].
    + apply elem_of_cons in Hin as [->|Hin]; [left|right].
      apply IH; [exact Hin|]. apply not_elem_of_cons; auto.
    + destruct (Z.ltb_spec b a) as [Hlt|Hge]; [apply IH2; auto|].
      assert (a = b) as -> by lia.
      apply elem_of_cons in Hin as [->|Hin]; [congruence|].
      apply IH; auto.
Qed.


Lemma CalcStem_guard_spec (s : store) :
  ((length (FindAllLayers s) <? 3)%nat && (0 <? length (FindEmptyLayers s))%nat) = true
  <-> ambiguous s.
Proof.
  unfold ambiguous, FindAllLayers, FindEmptyLayers.
  rewrite andb_true_iff, !Nat.ltb_lt, !length_map.
  split; intros [Hlen Hex]; (split; [exact Hlen|]).
  - destruct (filter (fun l => l_isEmpty l = true) s) as [|l tl] eqn:Hf;
      [simpl in Hex; lia|].
    assert (Hl : l ∈ filter (fun l => l_isEmpty l = true) s) by (rewrite Hf; left).
    apply list_elem_of_filter in Hl as [Hempty Hin]. eauto.
  - destruct Hex as (l & Hin & Hempty).
    assert (Hl : l ∈ filter (fun l => l_isEmpty l = true) s)
      by (apply list_elem_of_filter; auto).
    destruct (filter (fun l => l_isEmpty l = true) s); [inversion Hl | simpl; lia].
Qed.

Lemma CalcStem_unfold (s : store) :
  (2 <= length s)%nat -> ~ ambiguous s ->
  CalcStem s =
  (FUNCTOR_CONTINUE,
   map (fun l => if decide (l_addr l ∈ considered s)
                 then SetDrawingStemDir (stemDirOfN (l_n l)) l else l) s).
Proof.
  intros Hlen Hamb. rewrite <- CalcStem_guard_spec in Hamb.
  apply not_true_is_false in Hamb.
  destruct s as [|l1 [|l2 s]]; simpl in Hlen; try lia.
  unfold CalcStem. rewrite Hamb, foldl_assignByParity. reflexivity.
Qed.

Lemma CalcStem_ambiguous (s : store) :
  (2 <= length s)%nat -> ambiguous s -> CalcStem s = (FUNCTOR_CONTINUE, s).
Proof.
  intros Hlen Hamb. rewrite <- CalcStem_guard_spec in Hamb.
  destruct s as [|l1 [|l2 s]]; simpl in Hlen; try lia.
  unfold CalcStem. rewrite Hamb. reflexivity.
Qed.

Lemma addr_inj (s : store) (l l' : Layer) :
  NoDup (map l_addr s) -> l ∈ s -> l' ∈ s -> l_addr l = l_addr l' -> l = l'.
Proof.
  induction s as [|x s IH]; simpl; intros Hnd Hl Hl' Heq; [inversion Hl|].
  apply NoDup_cons in Hnd as [Hx Hnd].
  apply elem_of_cons in Hl as [->|Hl]; apply elem_of_cons in Hl' as [->|Hl'].
  - reflexivity.
  - exfalso. apply Hx. rewrite Heq. apply list_elem_of_fmap. eauto.
  - exfalso. apply Hx. rewrite <- Heq. apply list_elem_of_fmap. eauto.
  - auto.
Qed.

(** A layer with content is always among the pointers of the final loop. *)
Lemma considered_non_empty (s : store) (l : Layer) :
  NoDup (map l_addr s) -> l ∈ s -> l_isEmpty l = false ->
  l_addr l ∈ considered s.
Proof.
  intros Hnd Hin Hne. unfold considered.
  assert (Hall : l_addr l ∈ FindAllLayers s).
  { apply list_elem_of_fmap. eauto. }
  assert (Hnot : l_addr l ∉ FindEmptyLayers s).
  { intros (l' & Heq & Hl')%list_elem_of_fmap.
    apply list_elem_of_filter in Hl' as [Hempty Hl'].
    assert (l = l') as <- by (eapply addr_inj; eauto). congruence. }
  destruct (FindEmptyLayers s) eqn:Hf; [exact Hall|].
  rewrite <- Hf in *. apply set_difference_keeps; assumption.
Qed.


Lemma CalcStem_two_with_content (a1 a2 : Z) :
  a1 <> a2 ->
  (CalcStem [mkLayer a1 1 false; mkLayer a2 2 false]).2 =
  [SetDrawingStemDir STEMDIRECTION_up (mkLayer a1 1 false);
   SetDrawingStemDir STEMDIRECTION_down (mkLayer a2 2 false)].
Proof.
  intros H12. unfold CalcStem, FindAllLayers, FindEmptyLayers; simpl.
  unfold assignByParity, write; simpl.
  repeat (case_decide; simpl in *); congruence || reflexivity.
Qed.

Lemma CalcStem_first_of_three_empty (a1 a2 a3 : Z) :
  a1 <> a2 -> a1 <> a3 -> a2 <> a3 ->
  (CalcStem [mkLayer a1 1 true; mkLayer a2 2 false; mkLayer a3 3 false]).2 =
  [mkLayer a1 1 true;
   SetDrawingStemDir STEMDIRECTION_down (mkLayer a2 2 false);
   SetDrawingStemDir STEMDIRECTION_up (mkLayer a3 3 false)].
Proof.
  intros H12 H13 H23. unfold CalcStem, FindAllLayers, FindEmptyLayers; simpl.
  rewrite Z.ltb_irrefl. simpl.
  unfold assignByParity, write; simpl.
  repeat (case_decide; simpl in *); congruence || reflexivity.
Qed.

(** [std::set_difference] expects ascending ranges.  The two lists are in
    document order; when the pointers do not ascend in that order an empty
    layer can stay in the list and is assigned like the others. *)
Lemma CalcStem_empty_layer_at_lower_address :
  (CalcStem emptyLayerAtLowerAddress).2 =
  [SetDrawingStemDir STEMDIRECTION_up (mkLayer 100 1 false);
   SetDrawingStemDir STEMDIRECTION_down (mkLayer 300 2 false);
   SetDrawingStemDir STEMDIRECTION_up (mkLayer 200 3 true)].
Proof. reflexivity. Qed.

(** The guard of the source is a case of the reading of the specification:
    where the latter does not apply, the early return is not taken. *)
Lemma ambiguous_fewerThanTwoWithContent (s : store) :
  (2 <= length s)%nat -> ambiguous s -> fewerThanTwoWithContent s.
Proof.
  intros Hlen [Hlt Hex]. split; [|exact Hex].
  destruct Hex as (l & Hin & Hempty).
  destruct s as [|l1 [|l2 [|l3 s]]]; simpl in Hlen, Hlt; try lia.
  rewrite !(filter_cons (fun l => l_isEmpty l = false)), filter_nil.
  destruct (decide (l_isEmpty l1 = false)) as [H1|_];
    destruct (decide (l_isEmpty l2 = false)) as [H2|_]; simpl; try lia.
  apply elem_of_cons in Hin as [->|Hin]; [congruence|].
  apply list_elem_of_singleton in Hin as ->. congruence.
Qed.

(** Past the guard every layer with content is assigned by the parity of
    its own number. *)
Lemma CalcStem_with_content (s : store) (i : nat) (l : Layer) :
  NoDup (map l_addr s) -> (2 <= length s)%nat -> ~ ambiguous s ->
  s !! i = Some l -> l_isEmpty l = false ->
  (CalcStem s).2 !! i = Some (SetDrawingStemDir (stemDirOfN (l_n l)) l).
Proof.
  intros Hnd Hlen Hamb Hi Hne.
  rewrite CalcStem_unfold by assumption. cbn [snd].
  rewrite lookup_map, Hi. simpl.
  rewrite decide_True; [reflexivity|].
  apply considered_non_empty; auto.
  eapply list_elem_of_lookup_2, Hi.
Qed.

(** The direction the final loop hands to the setter, by the parity of the
    number. *)
Lemma stemDirOfN_parity (n : Z) :
  stemDirOfN n = if Z.odd n then STEMDIRECTION_up else STEMDIRECTION_down.
Proof.
  destruct (Z.odd n) eqn:Hodd; [apply stemDirOfN_odd, Hodd|].
  apply stemDirOfN_even. rewrite <- Z.negb_odd, Hodd. reflexivity.
Qed.

(** Past the guard a layer with content holds, after the call, the
    direction of the parity of its number, and is otherwise the layer it
    was. *)
Lemma CalcStem_with_content_fields (s : store) (i : nat) (l : Layer) :
  NoDup (map l_addr s) -> (2 <= length s)%nat -> ~ ambiguous s ->
  s !! i = Some l -> l_isEmpty l = false ->
  exists l',
    (CalcStem s).2 !! i = Some l' /\
    l_drawingStemDir l' =
      (if Z.odd (l_n l) then STEMDIRECTION_up else STEMDIRECTION_down) /\
    l_drawingStemDir l' <> STEMDIRECTION_NONE /\
    (l_addr l', l_n l', l_isEmpty l',
     l_crossStaffFromBelow l', l_crossStaffFromAbove l') =
    (l_addr l, l_n l, l_isEmpty l,
     l_crossStaffFromBelow l, l_crossStaffFromAbove l).
Proof.
  intros Hnd Hlen Hamb Hi Hne.
  exists (SetDrawingStemDir (stemDirOfN (l_n l)) l).
  split; [apply CalcStem_with_content; assumption|].
  cbn [SetDrawingStemDir l_drawingStemDir l_addr l_n l_isEmpty
       l_crossStaffFromBelow l_crossStaffFromAbove].
  rewrite stemDirOfN_parity.
  split; [reflexivity|]. split; [|reflexivity].
  destruct (Z.odd (l_n l)); discriminate.
Qed.

(** C8.  On a staff with two layers or more, outside the early return for
    the ambiguous case, every layer with content holds after the call the
    drawing stem direction of the parity of its own number: up when odd,
    down when even, and is otherwise the layer it was.  Layers 1 and 2 with
    content end with up and down; of layers 1 (empty), 2 and 3 (with
    content), layer 2 ends with down, layer 3 with up and layer 1 with its
    unset direction.  Distinct objects have distinct addresses. *)
Theorem CalcStem_assigns_by_parity (s : store) :
  NoDup (map l_addr s) ->
  (2 <= length s)%nat ->
  ~ ambiguous s ->
  (forall i l, s !! i = Some l -> l_isEmpty l = false ->
     exists l',
       (CalcStem s).2 !! i = Some l' /\
       l_drawingStemDir l' =
         (if Z.odd (l_n l) then STEMDIRECTION_up else STEMDIRECTION_down) /\
       l_drawingStemDir l' <> STEMDIRECTION_NONE /\
       (l_addr l', l_n l', l_isEmpty l',
        l_crossStaffFromBelow l', l_crossStaffFromAbove l') =
       (l_addr l, l_n l, l_isEmpty l,
        l_crossStaffFromBelow l, l_crossStaffFromAbove l)) /\
  (forall a1 a2, a1 <> a2 ->
     map (fun l => (l_n l, l_drawingStemDir l))
         (CalcStem [mkLayer a1 1 false; mkLayer a2 2 false]).2 =
     [(1, STEMDIRECTION_up); (2, STEMDIRECTION_down)]) /\
  (forall a1 a2 a3, a1 <> a2 -> a1 <> a3 -> a2 <> a3 ->
     map (fun l => (l_n l, l_drawingStemDir l))
         (CalcStem [mkLayer a1 1 true; mkLayer a2 2 false;
                    mkLayer a3 3 false]).2 =
     [(1, STEMDIRECTION_NONE); (2, STEMDIRECTION_down); (3, STEMDIRECTION_up)]).
Proof.
  intros Hnd Hlen Hamb. split; [|split].
  - intros i l. apply CalcStem_with_content_fields; assumption.
  - intros a1 a2 H12.
    rewrite (CalcStem_two_with_content a1 a2 H12). reflexivity.
  - intros a1 a2 a3 H12 H13 H23.
    rewrite (CalcStem_first_of_three_empty a1 a2 a3 H12 H13 H23). reflexivity.
Qed.

Lemma CalcStem_assigns_by_parity_witness :
  NoDup (map l_addr oneEmptyOfThree) /\
  (2 <= length oneEmptyOfThree)%nat /\
  ~ ambiguous oneEmptyOfThree /\
  exists l',
    (CalcStem oneEmptyOfThree).2 !! 2%nat = Some l' /\
    l_drawingStemDir l' = STEMDIRECTION_up.
Proof.
  assert (Hnd : NoDup (map l_addr oneEmptyOfThree)).
  { simpl. repeat constructor; rewrite ?elem_of_cons, ?elem_of_nil; lia. }
  assert (Hlen : (2 <= length oneEmptyOfThree)%nat) by (simpl; lia).
  assert (Hamb : ~ ambiguous oneEmptyOfThree).
  { intros [Hlt _]. simpl in Hlt. lia. }
  split; [exact Hnd|]. split; [exact Hlen|]. split; [exact Hamb|].
  destruct (proj1 (CalcStem_assigns_by_parity oneEmptyOfThree Hnd Hlen Hamb)
              2%nat (mkLayer 300 3 false) eq_refl eq_refl)
    as (l' & Hlook & Hdir & _).
  exists l'. split; [exact Hlook | exact Hdir].
Defined.




End StemFacts.

(** ** Machine integers *)

Lemma Int_add_in_range (a b : Z) :
  Int.in_range (a + b) -> Int.add a b = a + b.
Proof.
  unfold Int.in_range, Int.min_signed, Int.max_signed, Int.add, Int.wrap.
  intros Hr. rewrite Z.mod_small; lia.
Qed.

Lemma Int_add_range (a b : Z) : Int.in_range (Int.add a b).
Proof.
  unfold Int.in_range, Int.min_signed, Int.max_signed, Int.add, Int.wrap.
  pose proof (Z.mod_pos_bound (a + b + 2 ^ 31) (2 ^ 32)). lia.
Qed.

(** ** The staff *)

Section StaffFacts.
Import StaffModel.
Context `{VrvDef}.

(** Deciding a guard [bool_decide (x <> y)] from a hypothesis. *)
Ltac guard_holds Hne := rewrite bool_decide_eq_true_2 by exact Hne.
Ltac guard_fails Heq :=
  rewrite bool_decide_eq_false_2
    by (let Hne := fresh "Hne" in intros Hne; apply Hne, Heq).

Lemma positionedByFacsimile_spec (ctx : DrawingContext) (s : Staff) :
  HasFacs s && bool_decide (doc_type ctx = Facs) = true
  <-> positionedByFacsimile ctx s.
Proof.
  unfold positionedByFacsimile.
  rewrite andb_true_iff, bool_decide_eq_true. reflexivity.
Qed.

Lemma GetDrawingY_not_facsimile (ctx : DrawingContext) (s : Staff) :
  ~ positionedByFacsimile ctx s ->
  GetDrawingY ctx s =
  if bool_decide (m_yAbs s <> VRV_UNSET) then (m_yAbs s, s)
  else
    match m_staffAlignment s with
    | None => (0, s)
    | Some alignment =>
        if bool_decide (m_cachedDrawingY s <> VRV_UNSET) then
          (m_cachedDrawingY s, s)
        else
          (Int.add (system_drawingY ctx) (alignment_yRel ctx alignment),
           set_cachedDrawingY
             (Int.add (system_drawingY ctx) (alignment_yRel ctx alignment)) s)
    end.
Proof.
  intros Hnf. rewrite <- positionedByFacsimile_spec in Hnf.
  apply not_true_is_false in Hnf.
  unfold GetDrawingY. rewrite Hnf. reflexivity.
Qed.

(** C6.  [GetDrawingY] decides in this order: (a) a staff with [@facs] in a
    document of type [Facs] gets the facsimile y; (b) otherwise a set
    [m_yAbs] is returned; (c) otherwise, without a staff alignment, 0;
    (d) otherwise the y of the system plus the relative y of the alignment,
    which the call stores in [m_cachedDrawingY] when the cache is unset,
    while a set cache is returned as it is.  In case (d) the cache holds
    after the call the value the call returned; a further call, whatever
    the system and the alignment have become, returns that value again and
    leaves the staff as it is, for as long as the value is not
    [VRV_UNSET], the value of a cache that was reset.  The sum is the [int]
    sum, the mathematical one when that is an [int]. *)
Theorem GetDrawingY_priority (ctx : DrawingContext) (s : Staff) :
  (positionedByFacsimile ctx s ->
   GetDrawingY ctx s = (facsimile_drawingY ctx, s)) /\
  (~ positionedByFacsimile ctx s -> m_yAbs s <> VRV_UNSET ->
   GetDrawingY ctx s = (m_yAbs s, s)) /\
  (~ positionedByFacsimile ctx s -> m_yAbs s = VRV_UNSET ->
   m_staffAlignment s = None ->
   GetDrawingY ctx s = (0, s)) /\
  (forall alignment,
     ~ positionedByFacsimile ctx s -> m_yAbs s = VRV_UNSET ->
     m_staffAlignment s = Some alignment ->
     (m_cachedDrawingY s = VRV_UNSET ->
      (GetDrawingY ctx s).1 =
        Int.add (system_drawingY ctx) (alignment_yRel ctx alignment) /\
      m_cachedDrawingY (GetDrawingY ctx s).2 =
        Int.add (system_drawingY ctx) (alignment_yRel ctx alignment) /\
      GetDrawingY ctx s =
      (Int.add (system_drawingY ctx) (alignment_yRel ctx alignment),
       set_cachedDrawingY
         (Int.add (system_drawingY ctx) (alignment_yRel ctx alignment)) s)) /\
     (m_cachedDrawingY s <> VRV_UNSET ->
      GetDrawingY ctx s = (m_cachedDrawingY s, s)) /\
     m_cachedDrawingY (GetDrawingY ctx s).2 = (GetDrawingY ctx s).1 /\
     (m_yAbs (GetDrawingY ctx s).2, m_staffAlignment (GetDrawingY ctx s).2,
      att_facs (GetDrawingY ctx s).2) =
     (m_yAbs s, m_staffAlignment s, att_facs s) /\
     (forall ctx',
        ~ positionedByFacsimile ctx' s ->
        (GetDrawingY ctx s).1 <> VRV_UNSET ->
        GetDrawingY ctx' (GetDrawingY ctx s).2 =
          ((GetDrawingY ctx s).1, (GetDrawingY ctx s).2) /\
        m_cachedDrawingY (GetDrawingY ctx' (GetDrawingY ctx s).2).2 =
          (GetDrawingY ctx s).1) /\
     (Int.in_range (system_drawingY ctx + alignment_yRel ctx alignment) ->
      Int.add (system_drawingY ctx) (alignment_yRel ctx alignment) =
      system_drawingY ctx + alignment_yRel ctx alignment)).
Proof.
  split; [|split; [|split]].
  - intros Hf. apply positionedByFacsimile_spec in Hf.
    unfold GetDrawingY. rewrite Hf. reflexivity.
  - intros Hnf Hy. rewrite GetDrawingY_not_facsimile by exact Hnf.
    guard_holds Hy. reflexivity.
  - intros Hnf Hy Ha. rewrite GetDrawingY_not_facsimile by exact Hnf.
    guard_fails Hy.
    rewrite Ha. reflexivity.
  - intros alignment Hnf Hy Ha.
    assert (Hstep : forall c s',
              ~ positionedByFacsimile c s' -> m_yAbs s' = VRV_UNSET ->
              m_staffAlignment s' = Some alignment ->
              GetDrawingY c s' =
              if bool_decide (m_cachedDrawingY s' <> VRV_UNSET)
              then (m_cachedDrawingY s', s')
              else (Int.add (system_drawingY c) (alignment_yRel c alignment),
                    set_cachedDrawingY
                      (Int.add (system_drawingY c) (alignment_yRel c alignment)) s')).
    { intros c s' Hnf' Hy' Ha'. rewrite GetDrawingY_not_facsimile by exact Hnf'.
      guard_fails Hy'.
      rewrite Ha'. reflexivity. }
    split; [|split; [|split; [|split; [|split]]]].
    + intros Hc. rewrite Hstep by assumption.
      guard_fails Hc. repeat split.
    + intros Hc. rewrite Hstep by assumption.
      guard_holds Hc. reflexivity.
    + rewrite Hstep by assumption.
      destruct (bool_decide (m_cachedDrawingY s <> VRV_UNSET)); reflexivity.
    + rewrite Hstep by assumption.
      destruct (bool_decide (m_cachedDrawingY s <> VRV_UNSET)); reflexivity.
    + intros ctx' Hnf'. rewrite (Hstep ctx s) by assumption.
      destruct (bool_decide (m_cachedDrawingY s <> VRV_UNSET)) eqn:Hc;
        cbn [fst snd]; intros Hset.
      * rewrite Hstep by assumption. rewrite Hc. split; reflexivity.
      * rewrite Hstep; [| exact Hnf' | exact Hy | exact Ha].
        cbn [set_cachedDrawingY m_cachedDrawingY].
        guard_holds Hset. split; reflexivity.
    + apply Int_add_in_range.
Qed.

Lemma visitTimeSpanning_spec
    (get : Z -> TimeSpanningInterface) (cur : Z) (this : Staff) (e : Z) :
  visitTimeSpanning get cur this e =
  if decide (GetStartMeasure (get e) <> Some cur /\
             IsOnStaff (get e) (GetN this) = true)
  then set_timeSpanningElements (m_timeSpanningElements this ++ [e]) this
  else this.
Proof.
  unfold visitTimeSpanning.
  destruct (decide _) as [[Hs Ho]|Hn].
  - rewrite (bool_decide_eq_true_2 _ Hs), Ho. reflexivity.
  - destruct (bool_decide _ && _) eqn:Hb; [|reflexivity].
    exfalso. apply Hn. apply andb_true_iff in Hb as [Hb Ho].
    apply bool_decide_eq_true in Hb. auto.
Qed.

(** The loop of [PrepareStaffCurrentTimeSpanning] appends, in the order of
    the list, the elements that pass its test. *)
Lemma foldl_visitTimeSpanning
    (get : Z -> TimeSpanningInterface) (cur : Z) (elements : list Z)
    (this : Staff) :
  foldl (visitTimeSpanning get cur) this elements =
  set_timeSpanningElements
    (m_timeSpanningElements this ++
     filter (fun e => GetStartMeasure (get e) <> Some cur /\
                      IsOnStaff (get e) (GetN this) = true) elements)
    this.
Proof.
  revert this; induction elements as [|e elements IH]; intros this.
  - simpl. rewrite app_nil_r. destruct this; reflexivity.
  - simpl foldl. rewrite visitTimeSpanning_spec.
    rewrite (filter_cons (fun e => GetStartMeasure (get e) <> Some cur /\
                                   IsOnStaff (get e) (GetN this) = true)).
    destruct (decide _) as [Hy|Hn]; rewrite IH; [|reflexivity].
    simpl. rewrite <- app_assoc. reflexivity.
Qed.

(** C5, the claim as stated fails: an element of the pass-wide list on
    staff 1 that starts in measure 5 is attached while the staff is
    visited in measure 3, though measure 5 does not precede measure 3. *)
Lemma PrepareStaffCurrentTimeSpanning_attaches_later_start :
  ~ startsBefore (sampleInterfaces 70) 3 /\
  IsOnStaff (sampleInterfaces 70) (@GetN sampleDef sampleStaff) = true /\
  m_timeSpanningElements sampleStaff = [] /\
  m_timeSpanningElements
    (@PrepareStaffCurrentTimeSpanning sampleDef sampleInterfaces 3 [70]
       sampleStaff).2 = [70].
Proof.
  split; [|split; [|split]]; try reflexivity.
  intros (start & Hstart & Hlt). simpl in Hstart.
  injection Hstart as <-. lia.
Qed.

(** C5, amended.  The visit returns [FUNCTOR_CONTINUE] and appends to the
    list of the staff, in the order of the pass-wide list, exactly the
    elements whose start measure is not the current measure of the staff
    and that are on the staff of this number: after the visit
    [m_timeSpanningElements] is what it was, followed by these elements;
    nothing else of the staff changes.  An element that starts in the
    current measure is never appended.  For an element that starts no
    later than the current measure, not starting in it is starting before
    it. *)
Theorem PrepareStaffCurrentTimeSpanning_appends
    (get : Z -> TimeSpanningInterface) (cur : Z) (elements : list Z)
    (this : Staff) :
  (PrepareStaffCurrentTimeSpanning get cur elements this).1
    = FUNCTOR_CONTINUE /\
  m_timeSpanningElements
    (PrepareStaffCurrentTimeSpanning get cur elements this).2 =
    m_timeSpanningElements this ++
    filter (fun e => GetStartMeasure (get e) <> Some cur /\
                     IsOnStaff (get e) (GetN this) = true) elements /\
  (forall e,
     e ∈ filter (fun e => GetStartMeasure (get e) <> Some cur /\
                          IsOnStaff (get e) (GetN this) = true) elements <->
     e ∈ elements /\ GetStartMeasure (get e) <> Some cur /\
     IsOnStaff (get e) (GetN this) = true) /\
  PrepareStaffCurrentTimeSpanning get cur elements this =
  (FUNCTOR_CONTINUE,
   set_timeSpanningElements
     (m_timeSpanningElements this ++
      filter (fun e => GetStartMeasure (get e) <> Some cur /\
                       IsOnStaff (get e) (GetN this) = true) elements)
     this) /\
  (let after := (PrepareStaffCurrentTimeSpanning get cur elements this).2 in
   (m_id after, m_children after, att_facs after, att_n after,
    att_visible after, m_yAbs after, m_cachedDrawingY after,
    m_drawingStaffSize after, m_drawingLines after,
    m_drawingNotationType after, m_staffAlignment after,
    m_drawingStaffDef after, m_drawingTuning after,
    m_ledgerLinesAbove after, m_ledgerLinesBelow after,
    m_ledgerLinesAboveCue after, m_ledgerLinesBelowCue after) =
   (m_id this, m_children this, att_facs this, att_n this,
    att_visible this, m_yAbs this, m_cachedDrawingY this,
    m_drawingStaffSize this, m_drawingLines this,
    m_drawingNotationType this, m_staffAlignment this,
    m_drawingStaffDef this, m_drawingTuning this,
    m_ledgerLinesAbove this, m_ledgerLinesBelow this,
    m_ledgerLinesAboveCue this, m_ledgerLinesBelowCue this)) /\
  (forall e,
     GetStartMeasure (get e) = Some cur ->
     e ∉ filter (fun e => GetStartMeasure (get e) <> Some cur /\
                          IsOnStaff (get e) (GetN this) = true) elements) /\
  (forall e start,
     GetStartMeasure (get e) = Some start -> start <= cur ->
     (GetStartMeasure (get e) <> Some cur <-> startsBefore (get e) cur)).
Proof.
  assert (Hrun : PrepareStaffCurrentTimeSpanning get cur elements this =
                 (FUNCTOR_CONTINUE,
                  set_timeSpanningElements
                    (m_timeSpanningElements this ++
                     filter (fun e => GetStartMeasure (get e) <> Some cur /\
                                      IsOnStaff (get e) (GetN this) = true)
                            elements)
                    this)).
  { unfold PrepareStaffCurrentTimeSpanning.
    rewrite foldl_visitTimeSpanning. reflexivity. }
  split; [rewrite Hrun; reflexivity|].
  split; [rewrite Hrun; reflexivity|].
  split.
  { intros e. rewrite list_elem_of_filter. tauto. }
  split; [exact Hrun|].
  split; [rewrite Hrun; reflexivity|].
  split.
  - intros e Hstart Hin. apply list_elem_of_filter in Hin as [[Hne _] _].
    contradiction.
  - intros e start Hstart Hle. unfold startsBefore. rewrite Hstart. split.
    + intros Hne. exists start. split; [reflexivity|].
      assert (start <> cur) by congruence. lia.
    + intros (start' & [= <-] & Hlt) [= ->]. lia.
Qed.

(** C9.  A child that is neither a layer nor an editorial element is not a
    supported child of a staff: the predicate answers [false], leaves the
    child as it is, and [AddChild] leaves the staff, and so its child list,
    unchanged.  A layer and an editorial element are accepted and appended
    after the children the staff has; a layer without [@n] is numbered one
    more than the layers the staff holds. *)
Theorem IsSupportedChild_accepts_layers_and_editorial
    (this : Staff) (child : Node) :
  (node_classId child <> LAYER ->
   IsEditorialElement (node_classId child) = false ->
   IsSupportedChild this child = (false, child) /\
   AddChild this child = (false, this) /\
   m_children (AddChild this child).2 = m_children this) /\
  (node_classId child = LAYER \/
   IsEditorialElement (node_classId child) = true ->
   (IsSupportedChild this child).1 = true /\
   AddChild this child =
   (true,
    set_base (m_id this)
      (m_children this ++ [(IsSupportedChild this child).2]) this) /\
   node_classId (IsSupportedChild this child).2 = node_classId child /\
   node_id (IsSupportedChild this child).2 = node_id child) /\
  (node_classId child = LAYER -> node_n child = None ->
   node_n (IsSupportedChild this child).2 =
   Some (Int.add (GetChildCount LAYER this) 1)) /\
  (node_classId child <> LAYER \/ is_Some (node_n child) ->
   (IsSupportedChild this child).2 = child).
Proof.
  unfold AddChild, IsSupportedChild.
  split; [|split; [|split]].
  - intros Hl He. rewrite decide_False by exact Hl. rewrite He. auto.
  - intros [Hl|He].
    + rewrite decide_True by exact Hl. destruct (node_n child); auto.
    + destruct (decide (node_classId child = LAYER)).
      * destruct (node_n child); auto.
      * rewrite He. auto.
  - intros Hl Hn. rewrite decide_True by exact Hl. rewrite Hn. reflexivity.
  - intros [Hl|[n Hn]].
    + rewrite decide_False by exact Hl.
      destruct (IsEditorialElement (node_classId child)); reflexivity.
    + rewrite Hn. destruct (decide (node_classId child = LAYER)); [reflexivity|].
      destruct (IsEditorialElement (node_classId child)); reflexivity.
Qed.

Lemma filter_eq_absent (x : string) (l : list string) :
  x ∉ l -> filter (fun i => i = x) l = [].
Proof.
  induction l as [|y l IH]; intros Hx; [reflexivity|].
  apply not_elem_of_cons in Hx as [Hne Hx].
  rewrite (filter_cons (fun i => i = x)).
  rewrite decide_False by congruence. auto.
Qed.

(** What [ConvertToCastOffMensural] returns when the target measure is
    there: the clone, after the reset and the swap of identifiers, is the
    target staff and the last child of the target measure. *)
Lemma ConvertToCastOffMensural_unfold
    (used : gset string) (params : ConvertToCastOffMensuralParams)
    (this : Staff) (measure : Measure) :
  m_targetMeasure params = Some measure ->
  ConvertToCastOffMensural used params this =
  Some (FUNCTOR_CONTINUE,
        set_base (GenerateID used) (m_children this) this,
        {| m_targetStaff :=
             Some (set_base (m_id this) [] (CloneReset this));
           m_targetMeasure :=
             Some (Measure_AddChild measure
                     (set_base (m_id this) [] (CloneReset this))) |}).
Proof.
  intros Hm. unfold ConvertToCastOffMensural. rewrite Hm. reflexivity.
Qed.

(** C3.  Let a staff carry the identifier X, in use in the document and
    carried by no other node.  After [ConvertToCastOffMensural] the new
    staff, appended to the target measure, carries X; the original carries
    a generated identifier that was not in use, so one distinct from X; and
    X is carried by exactly one node. *)
Theorem ConvertToCastOffMensural_transfers_identity
    (used : gset string) (params : ConvertToCastOffMensuralParams)
    (this : Staff) (measure : Measure) (others : list string) :
  m_targetMeasure params = Some measure ->
  m_id this ∈ used ->
  m_id this ∉ map m_id (measure_children measure) ->
  m_id this ∉ others ->
  exists this' target,
    ConvertToCastOffMensural used params this =
    Some (FUNCTOR_CONTINUE, this',
          {| m_targetStaff := Some target;
             m_targetMeasure := Some (Measure_AddChild measure target) |}) /\
    measure_children (Measure_AddChild measure target) =
      measure_children measure ++ [target] /\
    m_id target = m_id this /\
    (m_id this' ∉ used) /\
    m_id this' <> m_id this /\
    carriers (m_id this) this' (Measure_AddChild measure target) others = 1%nat.
Proof.
  intros Hm Hused Hmeasure Hothers.
  exists (set_base (GenerateID used) (m_children this) this),
         (set_base (m_id this) [] (CloneReset this)).
  assert (Hfresh : GenerateID used ∉ used) by apply is_fresh.
  assert (Hne : GenerateID used <> m_id this).
  { intros Heq. apply Hfresh. rewrite Heq. exact Hused. }
  split; [apply ConvertToCastOffMensural_unfold, Hm|].
  split; [reflexivity|]. split; [reflexivity|].
  split; [exact Hfresh|]. split; [exact Hne|].
  unfold carriers. cbn [m_id set_base Measure_AddChild measure_children].
  rewrite (filter_cons (fun i => i = m_id this)).
  rewrite decide_False by exact Hne.
  rewrite map_app, !filter_app. cbn [map].
  rewrite (filter_eq_absent _ _ Hmeasure), (filter_eq_absent _ _ Hothers).
  rewrite (filter_cons (fun i => i = m_id this)).
  rewrite decide_True by reflexivity. reflexivity.
Qed.


End StaffFacts.

(** ** The staff, at the sample data *)

Section StaffSamples.
Import StaffModel.

Lemma ConvertToCastOffMensural_transfers_identity_witness :
  exists this' target,
    ConvertToCastOffMensural sampleUsed sampleParams sampleStaff =
    Some (FUNCTOR_CONTINUE, this',
          {| m_targetStaff := Some target;
             m_targetMeasure :=
               Some (Measure_AddChild {| measure_children := [] |} target) |}) /\
    measure_children (Measure_AddChild {| measure_children := [] |} target) =
      [] ++ [target] /\
    m_id target = "staff-X" /\
    (m_id this' ∉ sampleUsed) /\
    m_id this' <> "staff-X" /\
    carriers "staff-X" this'
      (Measure_AddChild {| measure_children := [] |} target) ["layer-1"] = 1%nat.
Proof.
  apply (ConvertToCastOffMensural_transfers_identity
           sampleUsed sampleParams sampleStaff
           {| measure_children := [] |} ["layer-1"]).
  - reflexivity.
  - unfold sampleUsed. simpl. set_solver.
  - simpl. apply not_elem_of_nil.
  - simpl. rewrite list_elem_of_singleton. discriminate.
Defined.



End StaffSamples.

(** ** The CMME importer *)

Section CmmeFacts.
Import StaffModel Cmme.
Context `{VrvDef} `{PugiXml}.

Lemma find_filter_head {A : Type} (p : A -> bool) (l : list A) (x : A)
    (rest : list A) :
  filter (fun a => p a = true) l = x :: rest -> List.find p l = Some x.
Proof.
  induction l as [|a l IH]; [discriminate|].
  rewrite (filter_cons (fun a => p a = true)). simpl.
  destruct (decide (p a = true)) as [Hp|Hp].
  - rewrite Hp. congruence.
  - apply not_true_is_false in Hp. rewrite Hp. exact IH.
Qed.

Lemma existsb_filter {A : Type} (p q : A -> bool) (l : list A) :
  existsb (fun a => p a && q a) l =
  existsb q (filter (fun a => p a = true) l).
Proof.
  induction l as [|a l IH]; [reflexivity|].
  rewrite (filter_cons (fun a => p a = true)). simpl.
  destruct (decide (p a = true)) as [Hp|Hp].
  - rewrite Hp. simpl. rewrite IH. reflexivity.
  - apply not_true_is_false in Hp. rewrite Hp. simpl. exact IH.
Qed.

(** On a node with a single text node, [text()] is that node and the XPath
    comparison with a string is the comparison with its value. *)
Lemma single_text (n : xml_node) (value s : string) :
  omap text_value (children n) = [value] ->
  text n = Some value /\
  existsb (fun t => bool_decide (text_value t = Some s)) (children n)
  = bool_decide (value = s).
Proof.
  unfold text. induction (children n) as [|a l IH]; [discriminate|].
  simpl. unfold is_text. destruct (text_value a) as [v|] eqn:Ha; simpl.
  - intros [= -> Hl]. split; [exact Ha|].
    assert (Hnone : existsb (fun t => bool_decide (text_value t = Some s)) l = false).
    { clear -Hl. induction l as [|b l IHl]; [reflexivity|].
      simpl in Hl |- *. destruct (text_value b); [discriminate|].
      rewrite bool_decide_eq_false_2 by discriminate. auto. }
    rewrite Hnone, orb_false_r.
    apply bool_decide_ext. split; congruence.
  - intros Hl. apply IH, Hl.
Qed.

(** On a well-formed voice the number [ChildAsInt] reads is the numeral the
    XPath predicate compares. *)
Lemma singleVoiceNum_selected (voice : xml_node) (s : string) :
  singleVoiceNum voice -> has_VoiceNum s voice = true ->
  ChildAsInt (Some voice) "VoiceNum" = as_int s.
Proof.
  intros (number & value & Hnum & Htext) Hhas.
  destruct (single_text number value s Htext) as [Ht Hex].
  unfold has_VoiceNum in Hhas. rewrite existsb_filter, Hnum in Hhas.
  simpl in Hhas. rewrite orb_false_r, Hex in Hhas.
  apply bool_decide_eq_true in Hhas. subst s.
  unfold ChildAsInt, select_child.
  rewrite (find_filter_head _ _ _ _ Hnum). unfold AsInt. rewrite Ht. reflexivity.
Qed.

Lemma select_voice_some (section voice : xml_node) (number : Z) :
  select_voice section number = Some voice ->
  voice ∈ children section /\ is_element "Voice" voice = true /\
  has_VoiceNum (StringFormat_d number) voice = true.
Proof.
  unfold select_voice. intros Hfind. apply find_some in Hfind as [Hin Hp].
  apply andb_true_iff in Hp as [Hv Hn].
  split; [apply list_elem_of_In, Hin | auto].
Qed.

Lemma vector_at_in_range (k : Z) (v : list MensInfo) :
  0 <= k < Z.of_nat (length v) -> vector_at k v = Some (Z.to_nat k).
Proof.
  intros Hk. unfold vector_at.
  destruct (Z.leb_spec 0 k); [|lia].
  destruct (Z.ltb_spec k (Z.of_nat (length v))); [|lia].
  reflexivity.
Qed.

End CmmeFacts.

Section CmmeSamples.
Import StaffModel Cmme.

Lemma samplePugi_reads_numerals (z : Z) :
  @as_int samplePugi (StringFormat_d z) = z.
Proof.
  unfold StringFormat_d. simpl. rewrite NilEmpty.isi. apply DecimalZ.of_to.
Qed.

End CmmeSamples.

(** ** Ledger lines: what the dashes cover *)

Section LedgerCoverage.
Import LedgerLine StaffLedger.

Lemma covered_nil (x : Z) : ~ covered x [].
Proof. intros (d & Hin & _). inversion Hin. Qed.

Lemma covered_cons (x : Z) (d : Dash) (dashes : list Dash) :
  covered x (d :: dashes) <-> d.1 <= x <= d.2 \/ covered x dashes.
Proof.
  unfold covered. split.
  - intros (d' & [->|Hin]%elem_of_cons & Hx); [left; exact Hx | right; eauto].
  - intros [Hx|(d' & Hin & Hx)].
    + exists d. split; [left | exact Hx].
    + exists d'. split; [right; exact Hin | exact Hx].
Qed.

Lemma covered_insertDash (x left right : Z) (dashes : list Dash) :
  covered x (insertDash left right dashes) <->
  covered x dashes \/ left <= x <= right.
Proof.
  induction dashes as [|d rest IH]; simpl.
  - rewrite covered_cons. cbn [fst snd]. pose proof (covered_nil x). tauto.
  - destruct (left <? d.1).
    + rewrite (covered_cons x (left, right)). cbn [fst snd]. tauto.
    + rewrite !covered_cons, IH. tauto.
Qed.

(** With an extension that is not negative the sweep merges two dashes
    only when they overlap, and the merged dash covers what the two
    covered. *)
Lemma covered_sweep (x extension : Z) (previous : Dash) (rest : list Dash) :
  0 <= extension ->
  StronglySorted (fun a b : Dash => a.1 <= b.1) (previous :: rest) ->
  covered x (sweep extension previous rest) <-> covered x (previous :: rest).
Proof.
  intros Hext. revert previous.
  induction rest as [|iter rest IH]; intros previous Hs; simpl; [reflexivity|].
  inversion Hs as [|? ? Hrest Hall]; subst.
  inversion Hall as [|? ? Hpi Hall']; subst.
  inversion Hrest as [|? ? Hrest' Hiter]; subst.
  destruct (overlaps previous.2 iter.1 extension) eqn:Hov.
  - rewrite IH by (constructor; [exact Hrest' | exact Hall']).
    rewrite !covered_cons. cbn [fst snd].
    unfold overlaps in Hov. apply Z.ltb_lt in Hov.
    assert (Hmerge : previous.1 <= x <= Z.max iter.2 previous.2 <->
                     previous.1 <= x <= previous.2 \/ iter.1 <= x <= iter.2)
      by (simpl in Hpi; lia).
    tauto.
  - rewrite covered_cons, IH by exact Hrest. rewrite !covered_cons. tauto.
Qed.

Lemma covered_AddDash_dashes (x left right extension : Z) (dashes : list Dash) :
  0 <= extension -> sortedByLeft dashes ->
  covered x (AddDash_dashes left right extension dashes) <->
  covered x dashes \/ left <= x <= right.
Proof.
  intros Hext Hs. rewrite <- covered_insertDash.
  pose proof (insertDash_sorted left right dashes Hs) as Hi.
  unfold AddDash_dashes.
  destruct (insertDash left right dashes) as [|first rest]; [reflexivity|].
  apply covered_sweep; [exact Hext|]. apply sortedByLeft_strongly, Hi.
Qed.

(** X1.  After any run of [AddDash] calls on a new ledger line, each with
    [left < right], as the assertion of the function asks, and with an
    extension that is not negative, a point is covered by a dash of the
    line exactly when it lies within the dash of one of the calls: the
    merging neither loses nor invents coverage. *)
Theorem AddDash_covers_exactly_the_calls (calls : list call) (x : Z) :
  Forall (fun c => c_left c < c_right c) calls ->
  Forall (fun c => 0 <= c_extension c) calls ->
  covered x (m_dashes (run calls new)) <->
  exists c, c ∈ calls /\ c_left c <= x <= c_right c.
Proof.
  intros _.
  induction calls as [|c calls IH] using rev_ind; intros Hext.
  - split; [intros Hc; destruct (covered_nil x Hc)|].
    intros (c & Hin & _). inversion Hin.
  - apply Forall_app in Hext as [Hcalls Hc].
    apply Forall_cons in Hc as [Hc _].
    rewrite run_snoc. unfold apply, AddDash. cbn [m_dashes].
    rewrite covered_AddDash_dashes;
      [| exact Hc | apply run_sorted; constructor].
    rewrite (IH Hcalls). split.
    + intros [(c' & Hin & Hx)|Hx].
      * exists c'. split; [apply elem_of_app; left; exact Hin | exact Hx].
      * exists c. split; [apply elem_of_app; right; left | exact Hx].
    + intros (c' & [Hin|Hin]%elem_of_app & Hx).
      * left. eauto.
      * apply list_elem_of_singleton in Hin as ->. right. exact Hx.
Qed.

Lemma AddDash_covers_exactly_the_calls_witness :
  Forall (fun c => c_left c < c_right c)
         [Call 0 10 2; Call 20 30 2; Call 5 20 2] /\
  Forall (fun c => 0 <= c_extension c) [Call 0 10 2; Call 20 30 2; Call 5 20 2] /\
  (covered 15 (m_dashes (run [Call 0 10 2; Call 20 30 2; Call 5 20 2] new)) <->
   exists c, c ∈ [Call 0 10 2; Call 20 30 2; Call 5 20 2] /\
             c_left c <= 15 <= c_right c).
Proof.
  assert (Hvalid : Forall (fun c => c_left c < c_right c)
                          [Call 0 10 2; Call 20 30 2; Call 5 20 2]).
  { repeat constructor; simpl; lia. }
  assert (H : Forall (fun c => 0 <= c_extension c)
                     [Call 0 10 2; Call 20 30 2; Call 5 20 2]).
  { repeat constructor; simpl; lia. }
  split; [exact Hvalid|]. split; [exact H|].
  exact (AddDash_covers_exactly_the_calls
           [Call 0 10 2; Call 20 30 2; Call 5 20 2] 15 Hvalid H).
Defined.

Lemma edgesFrom_mono (calls calls' : list call) (dashes : list Dash) :
  (forall c, c ∈ calls -> c ∈ calls') ->
  edgesFrom calls dashes -> edgesFrom calls' dashes.
Proof.
  intros Hsub Hd. eapply Forall_impl; [exact Hd|].
  intros d (Hlt & (c1 & H1 & E1) & (c2 & H2 & E2)). eauto 10.
Qed.

Lemma edgesFrom_insertDash (calls : list call) (c : call) (dashes : list Dash) :
  c_left c < c_right c -> c ∈ calls -> edgesFrom calls dashes ->
  edgesFrom calls (insertDash (c_left c) (c_right c) dashes).
Proof.
  intros Hc Hin.
  assert (Hnew : (c_left c, c_right c).1 < (c_left c, c_right c).2 /\
                 (exists c', c' ∈ calls /\ (c_left c, c_right c).1 = c_left c') /\
                 (exists c', c' ∈ calls /\ (c_left c, c_right c).2 = c_right c')).
  { simpl. split; [exact Hc|]. split; exists c; auto. }
  induction dashes as [|d rest IH]; simpl; intros Hd.
  - constructor; [exact Hnew | constructor].
  - destruct (c_left c <? d.1).
    + constructor; [exact Hnew | exact Hd].
    + apply Forall_cons in Hd as [Hd Hrest].
      constructor; [exact Hd | apply IH, Hrest].
Qed.

Lemma edgesFrom_sweep (calls : list call) (extension : Z) (previous : Dash)
    (rest : list Dash) :
  edgesFrom calls (previous :: rest) ->
  edgesFrom calls (sweep extension previous rest).
Proof.
  revert previous. induction rest as [|iter rest IH]; intros previous Hd; simpl.
  - exact Hd.
  - apply Forall_cons in Hd as [Hp Hd]. apply Forall_cons in Hd as [Hi Hd].
    destruct (overlaps previous.2 iter.1 extension).
    + apply IH. constructor; [|exact Hd]. simpl.
      destruct Hp as (Hp & Hpl & Hpr), Hi as (Hi & Hil & Hir).
      split; [lia|]. split; [exact Hpl|].
      destruct (Z.max_spec iter.2 previous.2) as [[_ ->]|[_ ->]]; assumption.
    + constructor; [exact Hp|]. apply IH. constructor; assumption.
Qed.

Lemma sweep_length (extension : Z) (previous : Dash) (rest : list Dash) :
  (1 <= length (sweep extension previous rest) <= S (length rest))%nat.
Proof.
  revert previous. induction rest as [|iter rest IH]; intros previous; simpl.
  - lia.
  - destruct (overlaps previous.2 iter.1 extension).
    + specialize (IH (previous.1, Z.max iter.2 previous.2)). lia.
    + specialize (IH iter). simpl. lia.
Qed.

Lemma insertDash_length (left right : Z) (dashes : list Dash) :
  length (insertDash left right dashes) = S (length dashes).
Proof.
  induction dashes as [|d rest IH]; simpl; [reflexivity|].
  destruct (left <? d.1); simpl; [reflexivity | rewrite IH; reflexivity].
Qed.

Lemma AddDash_dashes_length (left right extension : Z) (dashes : list Dash) :
  (1 <= length (AddDash_dashes left right extension dashes)
     <= S (length dashes))%nat.
Proof.
  unfold AddDash_dashes.
  pose proof (insertDash_length left right dashes) as Hlen.
  destruct (insertDash left right dashes) as [|first rest]; [discriminate|].
  simpl in Hlen. pose proof (sweep_length extension first rest). lia.
Qed.

(** X2.  After a run of [AddDash] calls with [left < right] on a new
    ledger line, every dash of the line has its left edge from one call and
    its right edge from one call, with left < right; the line holds at
    least one dash once a call was made, and never more dashes than calls
    were made. *)
Theorem AddDash_run_keeps_dashes_valid (calls : list call) :
  Forall (fun c => c_left c < c_right c) calls ->
  edgesFrom calls (m_dashes (run calls new)) /\
  (length (m_dashes (run calls new)) <= length calls)%nat /\
  (calls <> [] -> m_dashes (run calls new) <> []).
Proof.
  induction calls as [|c calls IH] using rev_ind; intros Hvalid.
  - split; [constructor|]. split; [simpl; lia | congruence].
  - apply Forall_app in Hvalid as [Hcalls Hc].
    apply Forall_cons in Hc as [Hc _].
    destruct (IH Hcalls) as (Hedges & Hlen & _).
    rewrite run_snoc. unfold apply, AddDash. cbn [m_dashes].
    pose proof (AddDash_dashes_length (c_left c) (c_right c) (c_extension c)
                  (m_dashes (run calls new))) as Hl.
    split; [|split].
    + unfold AddDash_dashes.
      assert (Hins : edgesFrom (calls ++ [c])
                       (insertDash (c_left c) (c_right c)
                          (m_dashes (run calls new)))).
      { apply edgesFrom_insertDash; [exact Hc | apply elem_of_app; right; left |].
        eapply edgesFrom_mono; [|exact Hedges].
        intros c' Hin. apply elem_of_app. left. exact Hin. }
      destruct (insertDash _ _ _) as [|first rest]; [constructor|].
      apply edgesFrom_sweep, Hins.
    + rewrite length_app. simpl. lia.
    + intros _ Heq. rewrite Heq in Hl. simpl in Hl. lia.
Qed.

Lemma AddDash_run_keeps_dashes_valid_witness :
  Forall (fun c => c_left c < c_right c) [Call 0 10 2; Call 20 30 2; Call 5 20 2] /\
  edgesFrom [Call 0 10 2; Call 20 30 2; Call 5 20 2]
    (m_dashes (run [Call 0 10 2; Call 20 30 2; Call 5 20 2] new)) /\
  (length (m_dashes (run [Call 0 10 2; Call 20 30 2; Call 5 20 2] new)) <= 3)%nat.
Proof.
  assert (H : Forall (fun c => c_left c < c_right c)
                     [Call 0 10 2; Call 20 30 2; Call 5 20 2]).
  { repeat constructor; simpl; lia. }
  split; [exact H|].
  destruct (AddDash_run_keeps_dashes_valid
              [Call 0 10 2; Call 20 30 2; Call 5 20 2] H) as (He & Hl & _).
  split; [exact He | exact Hl].
Defined.

End LedgerCoverage.

(** ** The ledger line buffers of a staff *)

Section StaffLedgerFacts.
Import LedgerLine StaffModel StaffLedger.

Lemma run_cons (c : call) (calls : list call) (line : t) :
  run (c :: calls) line = run calls (apply line c).
Proof. reflexivity. Qed.

Lemma run_dashes_nonempty (calls : list call) (line : t) :
  calls <> [] -> m_dashes (run calls line) <> [].
Proof.
  destruct calls as [|c calls _] using rev_ind; [congruence|].
  intros _. rewrite run_snoc. unfold apply, AddDash. cbn [m_dashes].
  pose proof (AddDash_dashes_length (c_left c) (c_right c) (c_extension c)
                (m_dashes (run calls line))) as Hl.
  intros Heq. rewrite Heq in Hl. simpl in Hl. lia.
Qed.

(** The loop of [AddLedgerLines] after [k] rounds, on a vector that has
    [k] lines or more: [at] never throws. *)
Lemma foldl_addDashAt (left right extension : Z) (lines : list t) (k : nat) :
  (k <= length lines)%nat ->
  foldl (addDashAt left right extension) (Some lines) (seqZ 0 (Z.of_nat k)) =
  Some (map (AddDash left right extension) (take k lines) ++ drop k lines).
Proof.
  induction k as [|k IH]; intros Hk.
  - simpl. rewrite drop_0. reflexivity.
  - rewrite seqZ_S, foldl_app, IH by lia. simpl.
    destruct (lookup_lt_is_Some_2 lines k) as [line Hline]; [lia|].
    replace (Z.to_nat (0 + Z.of_nat k)) with k by lia.
    assert (Hlen : length (map (AddDash left right extension) (take k lines)) = k).
    { rewrite length_map, length_take. lia. }
    rewrite lookup_app_r by lia. rewrite Hlen, Nat.sub_diag.
    rewrite lookup_drop, Nat.add_0_r, Hline. simpl.
    rewrite insert_app_r_alt by lia. rewrite Hlen, Nat.sub_diag.
    rewrite (drop_S _ _ _ Hline). simpl.
    rewrite (take_S_r _ _ _ Hline), map_app, <- app_assoc. reflexivity.
Qed.

(** [AddLedgerLines] in one expression: the vector is grown to [count]
    lines when it is shorter, and the dash is added to its first [count]
    lines. *)
Lemma AddLedgerLines_spec (lines : list t) (count left right extension : Z) :
  left < right ->
  AddLedgerLines lines count left right extension =
  Some (map (AddDash left right extension)
            (take (Z.to_nat count)
                  (lines ++ replicate (Z.to_nat count - length lines) new)) ++
        drop (Z.to_nat count)
             (lines ++ replicate (Z.to_nat count - length lines) new)).
Proof.
  intros Hlr. unfold AddLedgerLines.
  destruct (Z.ltb_spec left right) as [_|]; [|lia].
  destruct (Z.le_gt_cases count 0) as [Hc|Hc].
  - destruct (Z.ltb_spec (Z.of_nat (length lines)) count) as [|_]; [lia|].
    replace (Z.to_nat count) with 0%nat by lia.
    rewrite seqZ_nil by lia. simpl. rewrite app_nil_r. reflexivity.
  - assert (Hgrown :
      (if Z.of_nat (length lines) <? count then resize count lines else lines) =
      lines ++ replicate (Z.to_nat count - length lines) new).
    { destruct (Z.ltb_spec (Z.of_nat (length lines)) count) as [Hlt|Hge].
      - unfold resize. rewrite take_ge by lia. reflexivity.
      - replace (Z.to_nat count - length lines)%nat with 0%nat by lia.
        simpl. rewrite app_nil_r. reflexivity. }
    rewrite Hgrown.
    replace (seqZ 0 count) with (seqZ 0 (Z.of_nat (Z.to_nat count)))
      by (rewrite Z2Nat.id by lia; reflexivity).
    apply foldl_addDashAt. rewrite length_app, length_replicate. lia.
Qed.

Lemma AddLedgerLines_lookup (lines lines' : list t)
    (count left right extension : Z) :
  left < right ->
  AddLedgerLines lines count left right extension = Some lines' ->
  length lines' = Nat.max (length lines) (Z.to_nat count) /\
  (forall i : nat, Z.of_nat i < count ->
     lines' !! i =
     Some (AddDash left right extension (default new (lines !! i)))) /\
  (forall i : nat, count <= Z.of_nat i -> lines' !! i = lines !! i).
Proof.
  intros Hlr. rewrite AddLedgerLines_spec by exact Hlr. intros [= <-].
  set (grown := lines ++ replicate (Z.to_nat count - length lines) new).
  assert (Hgrown : length grown = Nat.max (length lines) (Z.to_nat count)).
  { unfold grown. rewrite length_app, length_replicate. lia. }
  split; [|split].
  - rewrite length_app, length_map, length_take, length_drop. lia.
  - intros i Hi.
    rewrite lookup_app_l by (rewrite length_map, length_take; lia).
    rewrite lookup_map, lookup_take. rewrite decide_True by lia. unfold grown.
    destruct (decide (i < length lines)%nat) as [Hlt|Hge].
    + rewrite lookup_app_l by lia.
      destruct (lookup_lt_is_Some_2 lines i Hlt) as [line ->]. reflexivity.
    + rewrite lookup_app_r by lia.
      rewrite lookup_replicate_2 by lia.
      rewrite (lookup_ge_None_2 lines i) by lia. reflexivity.
  - intros i Hi.
    rewrite lookup_app_r by (rewrite length_map, length_take; lia).
    rewrite length_map, length_take, lookup_drop.
    replace (Z.to_nat count + (i - Z.to_nat count `min` length grown))%nat
      with i by lia.
    unfold grown.
    destruct (decide (i < length lines)%nat) as [Hlt|Hge].
    + rewrite lookup_app_l by lia. reflexivity.
    + rewrite (lookup_ge_None_2 lines i) by lia.
      apply lookup_ge_None_2.
      rewrite length_app, length_replicate. lia.
Qed.

(** X3.  [AddLedgerLines(lines, count, left, right, extension)] fails its
    assertion when [left < right] does not hold, and otherwise never
    throws: the vector ends with the larger of its length and [count]
    lines; each of the first [count] lines got the dash by [AddDash], a
    line that was not there before starting without dashes; the lines
    from index [count] on are untouched, so that a [count] of zero or less
    changes nothing and the vector never shrinks. *)
Theorem AddLedgerLines_grows_and_adds
    (lines : list t) (count left right extension : Z) :
  (right <= left -> AddLedgerLines lines count left right extension = None) /\
  (left < right ->
   exists lines',
     AddLedgerLines lines count left right extension = Some lines' /\
     length lines' = Nat.max (length lines) (Z.to_nat count) /\
     (forall i : nat, Z.of_nat i < count ->
        lines' !! i =
        Some (AddDash left right extension (default new (lines !! i)))) /\
     (forall i : nat, count <= Z.of_nat i -> lines' !! i = lines !! i) /\
     (count <= 0 -> lines' = lines)).
Proof.
  split.
  - intros Hrl. unfold AddLedgerLines.
    destruct (Z.ltb_spec left right); [lia | reflexivity].
  - intros Hlr.
    destruct (AddLedgerLines lines count left right extension) as [lines'|] eqn:Hrun;
      [|rewrite AddLedgerLines_spec in Hrun by exact Hlr; discriminate].
    destruct (AddLedgerLines_lookup _ _ _ _ _ _ Hlr Hrun) as (Hlen & Hlow & Hhigh).
    exists lines'. split; [reflexivity|]. split; [exact Hlen|].
    split; [exact Hlow|]. split; [exact Hhigh|].
    intros Hc. apply list_eq. intros i. apply Hhigh. lia.
Qed.

Lemma callsAt_cons (i : nat) (r : request) (requests : list request) :
  callsAt i (r :: requests) =
  if decide (Z.of_nat i < r_count r)
  then Call (r_left r) (r_right r) (r_extension r) :: callsAt i requests
  else callsAt i requests.
Proof.
  unfold callsAt. rewrite (filter_cons (fun r => Z.of_nat i < r_count r)).
  destruct (decide (Z.of_nat i < r_count r)); reflexivity.
Qed.

Lemma callsAt_nonempty (i : nat) (requests : list request) :
  Z.of_nat i < maxCount requests -> callsAt i requests <> [].
Proof.
  induction requests as [|r requests IH]; [simpl; lia|].
  change (maxCount (r :: requests))
    with (Z.max (r_count r) (maxCount requests)).
  intros Hi. rewrite callsAt_cons.
  destruct (decide (Z.of_nat i < r_count r)); [discriminate|].
  apply IH. lia.
Qed.

Lemma callsAt_sublist (i : nat) (requests : list request) :
  sublist (callsAt (S i) requests) (callsAt i requests).
Proof.
  induction requests as [|r requests IH]; [constructor|].
  rewrite !callsAt_cons.
  destruct (decide (Z.of_nat (S i) < r_count r)) as [Hs|Hs];
    destruct (decide (Z.of_nat i < r_count r)) as [Hi|Hi]; try lia.
  - apply sublist_skip, IH.
  - apply sublist_cons, IH.
  - exact IH.
Qed.

(** A run of requests on a buffer, line by line. *)
Lemma serveAll_spec (requests : list request) (lines0 : list t) :
  Forall (fun r => r_left r < r_right r) requests ->
  exists lines,
    serveAll requests lines0 = Some lines /\
    length lines = Nat.max (length lines0) (Z.to_nat (maxCount requests)) /\
    (forall i : nat, (i < length lines)%nat ->
       lines !! i =
       Some (run (callsAt i requests) (default new (lines0 !! i)))).
Proof.
  revert lines0. induction requests as [|r requests IH]; intros lines0 Hvalid.
  - exists lines0. split; [reflexivity|]. split; [simpl; lia|].
    intros i Hi. destruct (lookup_lt_is_Some_2 lines0 i Hi) as [line ->].
    reflexivity.
  - apply Forall_cons in Hvalid as [Hr Hvalid].
    destruct (AddLedgerLines lines0 (r_count r) (r_left r) (r_right r)
                (r_extension r)) as [lines1|] eqn:Hrun;
      [|rewrite AddLedgerLines_spec in Hrun by exact Hr; discriminate].
    destruct (AddLedgerLines_lookup _ _ _ _ _ _ Hr Hrun) as (Hlen1 & Hlow & Hhigh).
    destruct (IH lines1 Hvalid) as (lines & Hserve & Hlen & Hlines).
    exists lines. split; [|split].
    + unfold serveAll in *. cbn [foldl serve mbind option_bind].
      rewrite Hrun. exact Hserve.
    + rewrite Hlen, Hlen1.
      change (maxCount (r :: requests))
        with (Z.max (r_count r) (maxCount requests)).
      lia.
    + intros i Hi. rewrite (Hlines i Hi), callsAt_cons.
      destruct (decide (Z.of_nat i < r_count r)) as [Hc|Hc].
      * rewrite run_cons, (Hlow i Hc). reflexivity.
      * rewrite (Hhigh i) by lia. reflexivity.
Qed.

(** X4.  A run of [AddLedgerLines] requests with [left < right] on an
    empty buffer never fails.  The buffer ends with as many lines as the
    largest count asked for, and the line at index [i] is the ledger line
    that the [AddDash] calls of the requests with a count above [i] build,
    in the order of the run, on a line of its own: at least one call, and
    a subsequence of the calls that reach the line at index [i - 1].  So
    every line of the buffer holds a dash, sorted by left edge. *)
Theorem AddLedgerLines_lines_are_runs (requests : list request) :
  Forall (fun r => r_left r < r_right r) requests ->
  exists lines,
    serveAll requests [] = Some lines /\
    length lines = Z.to_nat (maxCount requests) /\
    (forall i : nat, (i < length lines)%nat ->
       lines !! i = Some (run (callsAt i requests) new) /\
       callsAt i requests <> [] /\
       sublist (callsAt (S i) requests) (callsAt i requests)) /\
    Forall (fun line => sortedByLeft (m_dashes line) /\ m_dashes line <> [])
           lines.
Proof.
  intros Hvalid.
  destruct (serveAll_spec requests [] Hvalid) as (lines & Hserve & Hlen & Hlines).
  simpl in Hlen.
  assert (Hall : forall i : nat, (i < length lines)%nat ->
            lines !! i = Some (run (callsAt i requests) new) /\
            callsAt i requests <> []).
  { intros i Hi. split; [rewrite (Hlines i Hi); reflexivity|].
    apply callsAt_nonempty. lia. }
  exists lines. split; [exact Hserve|]. split; [exact Hlen|]. split.
  - intros i Hi. destruct (Hall i Hi) as [Hline Hne].
    split; [exact Hline|]. split; [exact Hne | apply callsAt_sublist].
  - apply Forall_forall. intros line Hin.
    apply list_elem_of_lookup in Hin as [i Hi].
    destruct (Hall i) as [Hline Hne]; [eapply lookup_lt_Some, Hi|].
    rewrite Hi in Hline. injection Hline as ->. split.
    + apply run_sorted. constructor.
    + apply run_dashes_nonempty, Hne.
Qed.

Lemma AddLedgerLines_lines_are_runs_witness :
  Forall (fun r => r_left r < r_right r)
         [Request 2 0 10 2; Request 1 5 20 2; Request 3 40 50 2] /\
  exists lines,
    serveAll [Request 2 0 10 2; Request 1 5 20 2; Request 3 40 50 2] []
      = Some lines /\
    length lines = 3%nat /\
    Forall (fun line => sortedByLeft (m_dashes line) /\ m_dashes line <> [])
           lines.
Proof.
  assert (H : Forall (fun r => r_left r < r_right r)
                     [Request 2 0 10 2; Request 1 5 20 2; Request 3 40 50 2]).
  { repeat constructor; simpl; lia. }
  split; [exact H|].
  destruct (AddLedgerLines_lines_are_runs
              [Request 2 0 10 2; Request 1 5 20 2; Request 3 40 50 2] H)
    as (lines & Hserve & Hlen & _ & Hall).
  exists lines. split; [exact Hserve|]. split; [exact Hlen | exact Hall].
Defined.

End StaffLedgerFacts.

Section StaffLedgerStaffFacts.
Import LedgerLine StaffModel StaffLedger.

(** X5.  [AddLedgerLineAbove] and [AddLedgerLineBelow] with [left < right]
    never fail and work on one buffer each, the one that the side and the
    flag [cueSize] select: that buffer becomes what [AddLedgerLines] makes
    of it, and the three other buffers and every other member of the staff
    stay as they are. *)
Theorem AddLedgerLine_buffers_are_independent
    (count left right extension : Z) (cueSize : bool) (s : Staff) :
  left < right ->
  exists above below,
    AddLedgerLineAbove count left right extension cueSize s = Some above /\
    AddLedgerLineBelow count left right extension cueSize s = Some below /\
    AddLedgerLines
      (if cueSize then m_ledgerLinesAboveCue s else m_ledgerLinesAbove s)
      count left right extension
    = Some (if cueSize then m_ledgerLinesAboveCue above
            else m_ledgerLinesAbove above) /\
    AddLedgerLines
      (if cueSize then m_ledgerLinesBelowCue s else m_ledgerLinesBelow s)
      count left right extension
    = Some (if cueSize then m_ledgerLinesBelowCue below
            else m_ledgerLinesBelow below) /\
    (if cueSize then m_ledgerLinesAbove above else m_ledgerLinesAboveCue above)
    = (if cueSize then m_ledgerLinesAbove s else m_ledgerLinesAboveCue s) /\
    m_ledgerLinesBelow above = m_ledgerLinesBelow s /\
    m_ledgerLinesBelowCue above = m_ledgerLinesBelowCue s /\
    (if cueSize then m_ledgerLinesBelow below else m_ledgerLinesBelowCue below)
    = (if cueSize then m_ledgerLinesBelow s else m_ledgerLinesBelowCue s) /\
    m_ledgerLinesAbove below = m_ledgerLinesAbove s /\
    m_ledgerLinesAboveCue below = m_ledgerLinesAboveCue s /\
    set_ledgerLines [] [] [] [] above = set_ledgerLines [] [] [] [] s /\
    set_ledgerLines [] [] [] [] below = set_ledgerLines [] [] [] [] s.
Proof.
  intros Hlr. unfold AddLedgerLineAbove, AddLedgerLineBelow.
  destruct cueSize; rewrite !AddLedgerLines_spec by exact Hlr;
    cbn [mbind option_bind]; eexists _, _;
    (split; [reflexivity|]); (split; [reflexivity|]);
    repeat (split; [reflexivity|]); reflexivity.
Qed.

Lemma AddLedgerLine_buffers_are_independent_witness :
  0 < 5 /\
  exists above below,
    AddLedgerLineAbove 2 0 5 1 true StaffModel.sampleStaff = Some above /\
    AddLedgerLineBelow 2 0 5 1 true StaffModel.sampleStaff = Some below /\
    m_ledgerLinesAbove above = [] /\
    m_ledgerLinesAboveCue above = [Build [(0, 5)]; Build [(0, 5)]] /\
    m_ledgerLinesBelowCue below = [Build [(0, 5)]; Build [(0, 5)]].
Proof.
  split; [lia|].
  destruct (AddLedgerLine_buffers_are_independent 2 0 5 1 true
              StaffModel.sampleStaff ltac:(lia))
    as (above & below & Ha & Hb & Hla & Hlb & Haa & _).
  exists above, below. split; [exact Ha|]. split; [exact Hb|].
  split; [exact Haa|].
  split; [injection Hla as <- | injection Hlb as <-]; reflexivity.
Defined.

Lemma AddDash_new (left right extension : Z) :
  AddDash left right extension new = Build [(left, right)].
Proof. reflexivity. Qed.

(** X6.  On a staff whose ledger lines were just cleared, by
    [ClearLedgerLines], [ResetData] or [ResetVerticalAlignment],
    [AddLedgerLineAbove(count, left, right, extension, false)] leaves
    exactly [count] lines above the staff, each with the one dash
    (left, right), and no line in the three other buffers. *)
Theorem AddLedgerLineAbove_on_cleared_staff
    (count left right extension : Z) (s : Staff) :
  left < right ->
  AddLedgerLineAbove count left right extension false (ClearLedgerLines s) =
  Some (set_ledgerLines
          (replicate (Z.to_nat count) (Build [(left, right)])) [] [] [] s) /\
  AddLedgerLineAbove count left right extension false (ResetData s).2 =
  Some (set_ledgerLines
          (replicate (Z.to_nat count) (Build [(left, right)])) [] [] []
          (ResetData s).2) /\
  AddLedgerLineAbove count left right extension false
    (ResetVerticalAlignment s).2 =
  Some (set_ledgerLines
          (replicate (Z.to_nat count) (Build [(left, right)])) [] [] []
          (ResetVerticalAlignment s).2).
Proof.
  intros Hlr.
  assert (Hempty : AddLedgerLines [] count left right extension =
                   Some (replicate (Z.to_nat count) (Build [(left, right)]))).
  { rewrite AddLedgerLines_spec by exact Hlr. cbn [app length].
    rewrite Nat.sub_0_r, take_ge, drop_ge, app_nil_r
      by (rewrite length_replicate; lia).
    f_equal. induction (Z.to_nat count) as [|k IH]; [reflexivity|].
    simpl. rewrite IH. reflexivity. }
  unfold AddLedgerLineAbove, ResetData, ResetVerticalAlignment.
  cbn [snd ClearLedgerLines m_ledgerLinesAbove m_ledgerLinesBelow
       m_ledgerLinesAboveCue m_ledgerLinesBelowCue].
  rewrite Hempty. cbn [mbind option_bind].
  split; [reflexivity|]. split; reflexivity.
Qed.

Lemma AddLedgerLineAbove_on_cleared_staff_witness :
  0 < 5 /\
  AddLedgerLineAbove 3 0 5 1 false (ClearLedgerLines StaffModel.sampleStaff) =
  Some (set_ledgerLines [Build [(0, 5)]; Build [(0, 5)]; Build [(0, 5)]]
          [] [] [] StaffModel.sampleStaff).
Proof.
  split; [lia|].
  exact (proj1 (AddLedgerLineAbove_on_cleared_staff 3 0 5 1
                  StaffModel.sampleStaff ltac:(lia))).
Defined.

End StaffLedgerStaffFacts.

(** ** Notation type and staff geometry *)

Lemma Int_sub_in_range (a b : Z) :
  Int.in_range (a - b) -> Int.sub a b = a - b.
Proof.
  unfold Int.in_range, Int.min_signed, Int.max_signed, Int.sub, Int.wrap.
  intros Hr. rewrite Z.mod_small; lia.
Qed.

Lemma IntOps_mul_in_range (a b : Z) :
  Int.in_range (a * b) -> IntOps.mul a b = a * b.
Proof.
  unfold Int.in_range, Int.min_signed, Int.max_signed, IntOps.mul, Int.wrap.
  intros Hr. rewrite Z.mod_small; lia.
Qed.

Lemma IntOps_rem_defined (a b : Z) :
  b <> 0 -> b <> -1 -> IntOps.rem a b = Some (Z.rem a b).
Proof.
  intros H0 H1. unfold IntOps.rem.
  destruct (Z.eqb_spec b 0); [contradiction|].
  destruct (Z.eqb_spec b (-1)); [contradiction|].
  rewrite andb_false_r. reflexivity.
Qed.

Section StaffGeometryFacts.
Import StaffModel StaffGeometry.
Context `{VrvDef}.

(** X7.  A staff is of one notation family at most: mensural, neume and
    tablature exclude one another.  After [Reset] and after [CloneReset]
    the staff is of none of them, whatever it was before. *)
Theorem notation_families_are_exclusive (s : Staff) :
  (IsMensural s = true -> IsNeume s = false /\ IsTablature s = false) /\
  (IsNeume s = true -> IsMensural s = false /\ IsTablature s = false) /\
  (IsTablature s = true -> IsMensural s = false /\ IsNeume s = false) /\
  (IsMensural (Reset s) = false /\ IsNeume (Reset s) = false /\
   IsTablature (Reset s) = false) /\
  (IsMensural (CloneReset s) = false /\ IsNeume (CloneReset s) = false /\
   IsTablature (CloneReset s) = false).
Proof.
  unfold IsMensural, IsNeume, IsTablature.
  split; [|split; [|split; [|split]]];
    try (destruct (m_drawingNotationType s); intros; split; congruence);
    repeat split; reflexivity.
Qed.

Lemma GetDrawingY_staffSize (ctx : DrawingContext) (s : Staff) :
  m_drawingStaffSize (GetDrawingY ctx s).2 = m_drawingStaffSize s.
Proof.
  unfold GetDrawingY.
  destruct (HasFacs s && bool_decide (doc_type ctx = Facs)); [reflexivity|].
  destruct (bool_decide (m_yAbs s <> VRV_UNSET)); [reflexivity|].
  destruct (m_staffAlignment s); [|reflexivity].
  destruct (bool_decide (m_cachedDrawingY s <> VRV_UNSET)); reflexivity.
Qed.

Lemma IsOnStaffLine_unfold (ctx : DrawingContext) (doc : Doc) (y : Z)
    (s : Staff) :
  IsOnStaffLine ctx doc y s =
  (r ← IntOps.rem (Int.sub y (GetDrawingY ctx s).1)
                   (IntOps.mul 2 (GetDrawingUnit doc (m_drawingStaffSize s)));
   Some (r =? 0),
   (GetDrawingY ctx s).2).
Proof.
  unfold IsOnStaffLine. rewrite <- (GetDrawingY_staffSize ctx s).
  destruct (GetDrawingY ctx s). reflexivity.
Qed.

Lemma fitsInt_unit (y drawingY unit : Z) :
  fitsInt y drawingY unit -> Int.in_range (2 * unit) /\ Int.in_range unit.
Proof.
  unfold fitsInt, Int.in_range, Int.min_signed, Int.max_signed. lia.
Qed.

Lemma IsOnStaffLine_value (ctx : DrawingContext) (doc : Doc) (y : Z)
    (s : Staff) :
  GetDrawingUnit doc (m_drawingStaffSize s) <> 0 ->
  fitsInt y (GetDrawingY ctx s).1 (GetDrawingUnit doc (m_drawingStaffSize s)) ->
  exists onLine,
    (IsOnStaffLine ctx doc y s).1 = Some onLine /\
    (onLine = true <->
     (2 * GetDrawingUnit doc (m_drawingStaffSize s) | y - (GetDrawingY ctx s).1)).
Proof.
  intros Hunit Hfits. rewrite IsOnStaffLine_unfold. cbn [fst].
  destruct (fitsInt_unit _ _ _ Hfits) as [H2 _].
  destruct Hfits as (_ & _ & Hd & _).
  rewrite IntOps_mul_in_range, Int_sub_in_range by assumption.
  rewrite IntOps_rem_defined by lia. cbn [mbind option_bind].
  eexists. split; [reflexivity|].
  rewrite Z.eqb_eq. apply Z.rem_divide. lia.
Qed.

(** X8.  [IsOnStaffLine(y, doc)] has no value when the drawing unit of the
    staff is 0, the divisor being 0 then.  With another unit, and
    coordinates for which nothing leaves the range of [int], it tells
    whether [y] lies a whole number of double units from the drawing y of
    the staff: the drawing y itself is on a staff line, and a position is
    on a line exactly when the position two units above it is.  The staff
    is left as [GetDrawingY] leaves it. *)
Theorem IsOnStaffLine_counts_double_units
    (ctx : DrawingContext) (doc : Doc) (y : Z) (s : Staff) :
  (GetDrawingUnit doc (m_drawingStaffSize s) = 0 ->
   (IsOnStaffLine ctx doc y s).1 = None) /\
  (GetDrawingUnit doc (m_drawingStaffSize s) <> 0 ->
   fitsInt y (GetDrawingY ctx s).1 (GetDrawingUnit doc (m_drawingStaffSize s)) ->
   (exists onLine,
      (IsOnStaffLine ctx doc y s).1 = Some onLine /\
      (onLine = true <->
       (2 * GetDrawingUnit doc (m_drawingStaffSize s)
        | y - (GetDrawingY ctx s).1))) /\
   (y = (GetDrawingY ctx s).1 -> (IsOnStaffLine ctx doc y s).1 = Some true) /\
   (fitsInt (y + 2 * GetDrawingUnit doc (m_drawingStaffSize s))
            (GetDrawingY ctx s).1 (GetDrawingUnit doc (m_drawingStaffSize s)) ->
    (IsOnStaffLine ctx doc
       (y + 2 * GetDrawingUnit doc (m_drawingStaffSize s)) s).1 =
    (IsOnStaffLine ctx doc y s).1)) /\
  (IsOnStaffLine ctx doc y s).2 = (GetDrawingY ctx s).2.
Proof.
  split; [|split].
  - intros Hz. rewrite IsOnStaffLine_unfold, Hz. reflexivity.
  - intros Hunit Hfits.
    destruct (IsOnStaffLine_value ctx doc y s Hunit Hfits) as (b & Hb & Hiff).
    split; [eauto|]. split.
    + intros Hy. rewrite Hb. f_equal. apply Hiff.
      rewrite Hy, Z.sub_diag. apply Z.divide_0_r.
    + intros Hfits'.
      destruct (IsOnStaffLine_value ctx doc _ s Hunit Hfits')
        as (b' & Hb' & Hiff').
      rewrite Hb, Hb'. f_equal.
      assert (Hsame :
        (2 * GetDrawingUnit doc (m_drawingStaffSize s)
         | y + 2 * GetDrawingUnit doc (m_drawingStaffSize s)
           - (GetDrawingY ctx s).1) <->
        (2 * GetDrawingUnit doc (m_drawingStaffSize s)
         | y - (GetDrawingY ctx s).1)).
      { split; intros [k Hk]; [exists (k - 1) | exists (k + 1)]; lia. }
      destruct b, b'; try reflexivity; exfalso.
      * assert (false = true); [apply Hiff', Hsame, Hiff; reflexivity | discriminate].
      * assert (false = true); [apply Hiff, Hsame, Hiff'; reflexivity | discriminate].
  - rewrite IsOnStaffLine_unfold. reflexivity.
Qed.

Lemma CalcPitchPosYRel_value (doc : Doc) (loc : Z) (s : Staff) :
  pitchFitsInt doc loc s ->
  CalcPitchPosYRel doc loc s =
  (loc - 2 * (m_drawingLines s - 1)) * GetDrawingUnit doc (m_drawingStaffSize s).
Proof.
  intros (H1 & H2 & H3 & H4). unfold CalcPitchPosYRel.
  rewrite (Int_sub_in_range _ 1) by exact H1.
  rewrite (IntOps_mul_in_range _ 2) by exact H2.
  rewrite Int_sub_in_range by exact H3.
  rewrite IntOps_mul_in_range by exact H4.
  f_equal. lia.
Qed.

(** X9.  Where nothing leaves the range of [int], [CalcPitchPosYRel(doc,
    loc)] is the distance, in drawing units, of [loc] from the location
    2 * (lines - 1) of the top line: 0 on the top line, one unit more per
    location.  The position it gives, taken from the drawing y of the
    staff, is on a staff line for [IsOnStaffLine] exactly when [loc] is
    even. *)
Theorem CalcPitchPosYRel_even_locations_are_lines
    (ctx : DrawingContext) (doc : Doc) (loc : Z) (s : Staff) :
  GetDrawingUnit doc (m_drawingStaffSize s) <> 0 ->
  pitchFitsInt doc loc s ->
  fitsInt ((GetDrawingY ctx s).1 + CalcPitchPosYRel doc loc s)
          (GetDrawingY ctx s).1 (GetDrawingUnit doc (m_drawingStaffSize s)) ->
  CalcPitchPosYRel doc loc s =
    (loc - 2 * (m_drawingLines s - 1)) *
    GetDrawingUnit doc (m_drawingStaffSize s) /\
  (loc = 2 * (m_drawingLines s - 1) -> CalcPitchPosYRel doc loc s = 0) /\
  (pitchFitsInt doc (loc + 1) s ->
   CalcPitchPosYRel doc (loc + 1) s =
   CalcPitchPosYRel doc loc s + GetDrawingUnit doc (m_drawingStaffSize s)) /\
  (IsOnStaffLine ctx doc
     ((GetDrawingY ctx s).1 + CalcPitchPosYRel doc loc s) s).1 =
  Some (Z.even loc).
Proof.
  intros Hunit Hpitch Hfits.
  pose proof (CalcPitchPosYRel_value doc loc s Hpitch) as Hvalue.
  split; [exact Hvalue|]. split; [|split].
  - intros Hloc. rewrite Hvalue, Hloc. lia.
  - intros Hpitch'. rewrite (CalcPitchPosYRel_value doc (loc + 1) s Hpitch').
    rewrite Hvalue. lia.
  - destruct (IsOnStaffLine_value ctx doc _ s Hunit Hfits) as (b & Hb & Hiff).
    rewrite Hb. f_equal. rewrite Hvalue in Hiff.
    replace ((GetDrawingY ctx s).1 +
             (loc - 2 * (m_drawingLines s - 1)) *
             GetDrawingUnit doc (m_drawingStaffSize s) - (GetDrawingY ctx s).1)
      with ((loc - 2 * (m_drawingLines s - 1)) *
            GetDrawingUnit doc (m_drawingStaffSize s)) in Hiff by lia.
    destruct (Z.even loc) eqn:Heven.
    + apply Hiff. apply Z.mul_divide_mono_r.
      apply Z.even_spec in Heven as [k ->].
      exists (k - (m_drawingLines s - 1)). lia.
    + destruct b; [|reflexivity]. exfalso.
      assert (Hdiv : (2 * GetDrawingUnit doc (m_drawingStaffSize s)
                      | (loc - 2 * (m_drawingLines s - 1)) *
                        GetDrawingUnit doc (m_drawingStaffSize s)))
        by (apply Hiff; reflexivity).
      apply Z.mul_divide_cancel_r in Hdiv; [|exact Hunit].
      destruct Hdiv as [k Hk].
      assert (Z.even loc = true); [|congruence].
      apply Z.even_spec. exists (k + (m_drawingLines s - 1)). lia.
Qed.

End StaffGeometryFacts.

Lemma rem_bounds (a b : Z) :
  0 < b ->
  (0 <= a -> 0 <= Z.rem a b < b) /\ (a <= 0 -> - b < Z.rem a b <= 0).
Proof.
  intros Hb. split; intros Ha.
  - apply Z.rem_bound_pos; lia.
  - pose proof (Z.rem_bound_pos (- a) b ltac:(lia) Hb) as Hbound.
    rewrite Z.rem_opp_l in Hbound by lia. lia.
Qed.

Section InterStaffPositionFacts.
Import StaffModel StaffGeometry.
Context `{VrvDef}.

(** A value is in the range of [int], by linear arithmetic over the bounds
    at hand. *)
Ltac range := unfold Int.in_range, Int.min_signed, Int.max_signed in *; lia.

Lemma GetNearestInterStaffPosition_unfold
    (ctx : DrawingContext) (doc : Doc) (y : Z) (place : data_STAFFREL)
    (s : Staff) :
  GetNearestInterStaffPosition ctx doc y place s =
  (distance ← IntOps.rem (Int.sub y (GetDrawingY ctx s).1)
                          (GetDrawingUnit doc (m_drawingStaffSize s));
   Some match place with
        | STAFFREL_above =>
            Int.add
              (Int.sub y
                 (if 0 <? distance
                  then Int.sub (GetDrawingUnit doc (m_drawingStaffSize s))
                               distance
                  else distance))
              (GetDrawingUnit doc (m_drawingStaffSize s))
        | _ =>
            Int.sub
              (Int.sub y
                 (if distance <? 0
                  then Int.add (GetDrawingUnit doc (m_drawingStaffSize s))
                               distance
                  else distance))
              (GetDrawingUnit doc (m_drawingStaffSize s))
        end,
   (GetDrawingY ctx s).2).
Proof.
  unfold GetNearestInterStaffPosition. rewrite <- (GetDrawingY_staffSize ctx s).
  destruct (GetDrawingY ctx s). reflexivity.
Qed.

(** X10.  For a place other than above, with a positive drawing unit and
    coordinates for which nothing leaves the range of [int],
    [GetNearestInterStaffPosition] returns a position a whole number of
    units from the drawing y of the staff, below [y] by one unit at least
    and by less than two. *)
Theorem GetNearestInterStaffPosition_below_is_on_the_grid
    (ctx : DrawingContext) (doc : Doc) (y : Z) (place : data_STAFFREL)
    (s : Staff) :
  place <> STAFFREL_above ->
  0 < GetDrawingUnit doc (m_drawingStaffSize s) ->
  fitsInt y (GetDrawingY ctx s).1 (GetDrawingUnit doc (m_drawingStaffSize s)) ->
  exists position,
    (GetNearestInterStaffPosition ctx doc y place s).1 = Some position /\
    (GetDrawingUnit doc (m_drawingStaffSize s)
     | position - (GetDrawingY ctx s).1) /\
    GetDrawingUnit doc (m_drawingStaffSize s) <= y - position
      < 2 * GetDrawingUnit doc (m_drawingStaffSize s).
Proof.
  intros Hplace Hunit Hfits.
  rewrite GetNearestInterStaffPosition_unfold. cbn [fst].
  set (unit := GetDrawingUnit doc (m_drawingStaffSize s)) in *.
  set (drawingY := (GetDrawingY ctx s).1) in *.
  destruct Hfits as (Hy & Hdy & Hd & Hlow & Hhigh).
  rewrite Int_sub_in_range by exact Hd.
  rewrite IntOps_rem_defined by lia. cbn [mbind option_bind].
  pose proof (Z.quot_rem' (y - drawingY) unit) as Hqr.
  assert (Hbound : - unit < Z.rem (y - drawingY) unit < unit).
  { destruct (rem_bounds (y - drawingY) unit Hunit) as [Hp Hn].
    destruct (Z.le_gt_cases 0 (y - drawingY)); [specialize (Hp ltac:(lia)) | specialize (Hn ltac:(lia))]; lia. }
  unfold Int.in_range, Int.min_signed, Int.max_signed in *.
  assert (Hother :
    match place with
    | STAFFREL_above =>
        Int.add
          (Int.sub y
             (if 0 <? Z.rem (y - drawingY) unit
              then Int.sub unit (Z.rem (y - drawingY) unit)
              else Z.rem (y - drawingY) unit)) unit
    | OtherStaffRel _ =>
        Int.sub
          (Int.sub y
             (if Z.rem (y - drawingY) unit <? 0
              then Int.add unit (Z.rem (y - drawingY) unit)
              else Z.rem (y - drawingY) unit)) unit
    end =
    Int.sub
      (Int.sub y
         (if Z.rem (y - drawingY) unit <? 0
          then Int.add unit (Z.rem (y - drawingY) unit)
          else Z.rem (y - drawingY) unit)) unit).
  { destruct place; [contradiction | reflexivity]. }
  rewrite Hother. clear Hother.
  destruct (Z.ltb_spec (Z.rem (y - drawingY) unit) 0) as [Hneg|Hpos].
  - rewrite Int_add_in_range by range.
    rewrite (Int_sub_in_range y) by range.
    rewrite Int_sub_in_range by range.
    eexists. split; [reflexivity|]. split; [|lia].
    exists (Z.quot (y - drawingY) unit - 2). lia.
  - rewrite (Int_sub_in_range y) by range.
    rewrite Int_sub_in_range by range.
    eexists. split; [reflexivity|]. split; [|lia].
    exists (Z.quot (y - drawingY) unit - 1). lia.
Qed.

(** X11.  For the place above, with a positive drawing unit and
    coordinates for which nothing leaves the range of [int]: when [y] is
    not above the drawing y of the staff, or is a whole number of units
    from it, the position returned is a whole number of units from the
    drawing y, above [y] by one unit at least and by less than two.  When
    [y] is above the drawing y and off the grid of units, the position
    returned is [y] plus the remainder of its distance from the drawing y,
    less than one unit above [y], and on the grid only when that remainder
    is half a unit. *)
Theorem GetNearestInterStaffPosition_above_from_the_staff
    (ctx : DrawingContext) (doc : Doc) (y : Z) (s : Staff) :
  0 < GetDrawingUnit doc (m_drawingStaffSize s) ->
  fitsInt y (GetDrawingY ctx s).1 (GetDrawingUnit doc (m_drawingStaffSize s)) ->
  exists position,
    (GetNearestInterStaffPosition ctx doc y STAFFREL_above s).1
      = Some position /\
    (y <= (GetDrawingY ctx s).1 \/
     (GetDrawingUnit doc (m_drawingStaffSize s) | y - (GetDrawingY ctx s).1) ->
     (GetDrawingUnit doc (m_drawingStaffSize s)
      | position - (GetDrawingY ctx s).1) /\
     GetDrawingUnit doc (m_drawingStaffSize s) <= position - y
       < 2 * GetDrawingUnit doc (m_drawingStaffSize s)) /\
    ((GetDrawingY ctx s).1 < y ->
     ~ (GetDrawingUnit doc (m_drawingStaffSize s) | y - (GetDrawingY ctx s).1) ->
     position =
       y + Z.rem (y - (GetDrawingY ctx s).1)
                 (GetDrawingUnit doc (m_drawingStaffSize s)) /\
     y < position < y + GetDrawingUnit doc (m_drawingStaffSize s) /\
     ((GetDrawingUnit doc (m_drawingStaffSize s)
       | position - (GetDrawingY ctx s).1) <->
      2 * Z.rem (y - (GetDrawingY ctx s).1)
                (GetDrawingUnit doc (m_drawingStaffSize s))
      = GetDrawingUnit doc (m_drawingStaffSize s))).
Proof.
  intros Hunit Hfits.
  rewrite GetNearestInterStaffPosition_unfold. cbn [fst].
  set (unit := GetDrawingUnit doc (m_drawingStaffSize s)) in *.
  set (drawingY := (GetDrawingY ctx s).1) in *.
  destruct Hfits as (Hy & Hdy & Hd & Hlow & Hhigh).
  rewrite Int_sub_in_range by exact Hd.
  rewrite IntOps_rem_defined by lia. cbn [mbind option_bind].
  pose proof (Z.quot_rem' (y - drawingY) unit) as Hqr.
  assert (Hdivides : (unit | y - drawingY) <-> Z.rem (y - drawingY) unit = 0).
  { symmetry. apply Z.rem_divide. lia. }
  assert (Hsign : (0 <= y - drawingY -> 0 <= Z.rem (y - drawingY) unit < unit) /\
                  (y - drawingY <= 0 -> - unit < Z.rem (y - drawingY) unit <= 0)).
  { apply rem_bounds, Hunit. }
  unfold Int.in_range, Int.min_signed, Int.max_signed in *.
  destruct (Z.ltb_spec 0 (Z.rem (y - drawingY) unit)) as [Hpos|Hneg].
  - assert (Habove : drawingY < y) by lia.
    rewrite (Int_sub_in_range unit) by range.
    rewrite (Int_sub_in_range y) by range.
    rewrite Int_add_in_range by range.
    eexists. split; [reflexivity|]. split.
    + intros [Hle|Hdiv]; [lia|]. apply Hdivides in Hdiv. lia.
    + intros _ _. split; [lia|]. split; [lia|].
      split.
      * intros [k Hk].
        assert (Hk' : 2 * Z.rem (y - drawingY) unit
                      = (k - Z.quot (y - drawingY) unit) * unit) by lia.
        assert (0 < (k - Z.quot (y - drawingY) unit) * unit < 2 * unit) by lia.
        assert (k - Z.quot (y - drawingY) unit = 1) by nia.
        nia.
      * intros Hhalf. exists (Z.quot (y - drawingY) unit + 1). lia.
  - assert (Hrange : - unit < Z.rem (y - drawingY) unit <= 0) by lia.
    rewrite (Int_sub_in_range y) by range.
    rewrite Int_add_in_range by range.
    eexists. split; [reflexivity|]. split.
    + intros _. split; [|lia].
      exists (Z.quot (y - drawingY) unit + 1). lia.
    + intros Habove Hndiv. exfalso. apply Hndiv, Hdivides. lia.
Qed.

(** X12.  After [ResetVerticalAlignment] and after [CastOffEncoding] a
    staff that is not positioned by a facsimile and has no absolute y
    draws at 0, whatever its cache holds.  Neither method clears the
    cache: once the staff has an alignment again, [GetDrawingY] returns
    the value cached before the reset, whatever the y of the system and
    the relative y of the new alignment are. *)
Theorem GetDrawingY_after_ResetVerticalAlignment
    (ctx : DrawingContext) (s : Staff) :
  ~ positionedByFacsimile ctx s ->
  m_yAbs s = VRV_UNSET ->
  GetDrawingY ctx (ResetVerticalAlignment s).2
    = (0, (ResetVerticalAlignment s).2) /\
  GetDrawingY ctx (CastOffEncoding s).2 = (0, (CastOffEncoding s).2) /\
  m_cachedDrawingY (ResetVerticalAlignment s).2 = m_cachedDrawingY s /\
  m_cachedDrawingY (CastOffEncoding s).2 = m_cachedDrawingY s /\
  (m_cachedDrawingY s <> VRV_UNSET ->
   forall alignment,
     GetDrawingY ctx
       (set_staffAlignment (Some alignment) (ResetVerticalAlignment s).2)
     = (m_cachedDrawingY s,
        set_staffAlignment (Some alignment) (ResetVerticalAlignment s).2)).
Proof.
  intros Hnf Hy.
  assert (Hfacs : forall s', att_facs s' = att_facs s ->
                             ~ positionedByFacsimile ctx s').
  { intros s' Heq [Hf Hd]. apply Hnf. split; [|exact Hd].
    unfold HasFacs in *. rewrite <- Heq. exact Hf. }
  split; [|split; [|split; [|split]]].
  - rewrite GetDrawingY_not_facsimile by (apply Hfacs; reflexivity).
    cbn [ResetVerticalAlignment snd ClearLedgerLines set_staffAlignment
         m_yAbs m_staffAlignment].
    rewrite bool_decide_eq_false_2 by (intros Hne; apply Hne, Hy).
    reflexivity.
  - rewrite GetDrawingY_not_facsimile by (apply Hfacs; reflexivity).
    cbn [CastOffEncoding snd set_staffAlignment m_yAbs m_staffAlignment].
    rewrite bool_decide_eq_false_2 by (intros Hne; apply Hne, Hy).
    reflexivity.
  - reflexivity.
  - reflexivity.
  - intros Hc alignment.
    rewrite GetDrawingY_not_facsimile by (apply Hfacs; reflexivity).
    cbn [ResetVerticalAlignment snd ClearLedgerLines set_staffAlignment
         m_yAbs m_staffAlignment m_cachedDrawingY].
    rewrite bool_decide_eq_false_2 by (intros Hne; apply Hne, Hy).
    rewrite bool_decide_eq_true_2 by exact Hc.
    reflexivity.
Qed.

End InterStaffPositionFacts.

(** ** Transposition *)

Section TranspositionFacts.
Import StaffModel Transposition.
Context `{VrvDef}.

(** The four facts that follow the run in the statement below. *)
Ltac finish :=
  split; [reflexivity || assumption|]; split; [reflexivity|];
  split; intros Hf; [discriminate Hf || reflexivity | discriminate Hf || reflexivity].

(** X13.  [Staff::Transpose] never throws: [at] is reached only for a key
    that [count] found.  Without the flag [m_transposeToSoundingPitch] the
    parameters stay as they are.  With it the transposer gets the interval
    registered for the number of the staff, and 0 when none is registered
    or the staff has no [@n], even if an interval is registered under the
    value that [GetN()] yields for an unset [@n]; the flag and the table
    stay as they are. *)
Theorem Transpose_missing_interval_is_zero
    (params : TransposeParams) (s : Staff) :
  exists params',
    Transpose params s = Some (FUNCTOR_CONTINUE, params') /\
    m_transposeToSoundingPitch params' = m_transposeToSoundingPitch params /\
    m_transposeIntervalForStaffN params' = m_transposeIntervalForStaffN params /\
    (m_transposeToSoundingPitch params = false -> params' = params) /\
    (m_transposeToSoundingPitch params = true ->
     m_transposition params' =
     match att_n s with
     | Some n => default 0 (m_transposeIntervalForStaffN params !! n)
     | None => 0
     end).
Proof.
  unfold Transpose, HasN, GetN, count, at_.
  destruct (m_transposeToSoundingPitch params) eqn:Hflag.
  - destruct (att_n s) as [n|] eqn:Hn; cbn [default from_option]; unfold id.
    + rewrite bool_decide_eq_true_2 by eauto. cbn [andb].
      destruct (m_transposeIntervalForStaffN params !! n) as [interval|] eqn:Hi.
      * rewrite bool_decide_eq_true_2 by eauto. cbn [Z.ltb Z.compare].
        cbn [mbind option_bind]. eexists. split; [reflexivity|].
        finish.
      * rewrite bool_decide_eq_false_2 by (intros [? [=]]).
        cbn [Z.ltb Z.compare mbind option_bind]. eexists.
        split; [reflexivity|]. finish.
    + rewrite bool_decide_eq_false_2 by (intros [? [=]]). cbn [andb].
      cbn [mbind option_bind]. eexists. split; [reflexivity|].
      finish.
  - exists params. (split; [reflexivity|]). finish.
Qed.

End TranspositionFacts.

(** ** Stem directions: what the pass leaves alone *)

Section StemFrameFacts.
Import Stem.

Lemma FindEmptyLayers_map (f : Layer -> Layer) (s : store) :
  (forall l, l_addr (f l) = l_addr l) ->
  (forall l, l_isEmpty (f l) = l_isEmpty l) ->
  FindEmptyLayers (map f s) = FindEmptyLayers s.
Proof.
  intros Haddr Hempty. unfold FindEmptyLayers.
  induction s as [|l s IH]; [reflexivity|].
  cbn [map]. rewrite !(filter_cons (fun l => l_isEmpty l = true)).
  rewrite Hempty. destruct (decide (l_isEmpty l = true)); [|exact IH].
  cbn [map]. rewrite Haddr, IH. reflexivity.
Qed.

Lemma FindAllLayers_map (f : Layer -> Layer) (s : store) :
  (forall l, l_addr (f l) = l_addr l) ->
  FindAllLayers (map f s) = FindAllLayers s.
Proof.
  intros Haddr. unfold FindAllLayers. rewrite map_map.
  apply map_ext. exact Haddr.
Qed.

Lemma ambiguous_cases (s : store) : ambiguous s \/ ~ ambiguous s.
Proof.
  destruct ((length (FindAllLayers s) <? 3)%nat &&
            (0 <? length (FindEmptyLayers s))%nat) eqn:Hguard.
  - left. apply CalcStem_guard_spec, Hguard.
  - right. intros Hamb. apply CalcStem_guard_spec in Hamb. congruence.
Qed.



(** X15.  Running [CalcStem] on the staff it has left gives that staff
    again: the pass is idempotent. *)
Theorem CalcStem_is_idempotent (s : store) :
  CalcStem (CalcStem s).2 = CalcStem s.
Proof.
  destruct s as [|l1 [|l2 s]].
  - reflexivity.
  - unfold CalcStem.
    destruct (l_crossStaffFromBelow l1) eqn:Hb;
      [|destruct (l_crossStaffFromAbove l1) eqn:Ha]; cbn [snd];
      cbn [SetDrawingStemDir l_crossStaffFromBelow l_crossStaffFromAbove];
      rewrite ?Hb, ?Ha; reflexivity.
  - set (layers := l1 :: l2 :: s).
    assert (Hlen : (2 <= length layers)%nat) by (simpl; lia).
    destruct (ambiguous_cases layers) as [Hamb|Hamb].
    + rewrite (CalcStem_ambiguous layers Hlen Hamb). cbn [snd].
      apply CalcStem_ambiguous; assumption.
    + rewrite (CalcStem_unfold layers Hlen Hamb). cbn [snd].
      set (f := fun l => if decide (l_addr l ∈ considered layers)
                         then SetDrawingStemDir (stemDirOfN (l_n l)) l else l).
      assert (Haddr : forall l, l_addr (f l) = l_addr l).
      { intros l. unfold f. destruct (decide _); reflexivity. }
      assert (Hempty : forall l, l_isEmpty (f l) = l_isEmpty l).
      { intros l. unfold f. destruct (decide _); reflexivity. }
      assert (Hn : forall l, l_n (f l) = l_n l).
      { intros l. unfold f. destruct (decide _); reflexivity. }
      assert (Hconsidered : considered (map f layers) = considered layers).
      { unfold considered.
        rewrite FindEmptyLayers_map, FindAllLayers_map by assumption.
        reflexivity. }
      assert (Hamb' : ~ ambiguous (map f layers)).
      { intros Ha. apply Hamb. apply CalcStem_guard_spec.
        apply CalcStem_guard_spec in Ha.
        rewrite FindEmptyLayers_map, FindAllLayers_map in Ha by assumption.
        exact Ha. }
      rewrite CalcStem_unfold; [|rewrite length_map; exact Hlen | exact Hamb'].
      f_equal. rewrite Hconsidered, map_map. apply map_ext. intros l.
      unfold f.
      destruct (decide (l_addr l ∈ considered layers)) as [Hin|Hnin].
      * cbn [SetDrawingStemDir l_addr l_n].
        rewrite decide_True by exact Hin. reflexivity.
      * rewrite decide_False by exact Hnin. reflexivity.
Qed.

End StemFrameFacts.

(** ** The CMME importer: the events of a voice *)

Section CmmeEventFacts.
Import StaffModel Cmme CmmeEvents.
Context `{VrvDef} `{PugiXml}.

Lemma CreateClef_shapeMap_keys (appearance : string) :
  is_Some (CreateClef_shapeMap !! appearance) <-> appearance ∈ clefs.
Proof.
  unfold CreateClef_shapeMap, clefs. split.
  - intros [shape Hshape]. apply elem_of_list_to_map_2 in Hshape.
    repeat (apply elem_of_cons in Hshape as [[= -> _]|Hshape];
            [set_solver|]).
    inversion Hshape.
  - intros Hin.
    repeat (apply elem_of_cons in Hin as [->|Hin]; [eexists; reflexivity|]).
    inversion Hin.
Qed.

Lemma IsClef_spec (clefNode : xml_node) :
  IsClef clefNode = true <->
  select_node ["Signature"] clefNode = None /\
  ChildAsString (Some clefNode) ["Appearance"] ∈ clefs.
Proof.
  unfold IsClef. destruct (select_node ["Signature"] clefNode).
  - split; [discriminate | intros [[=] _]].
  - rewrite bool_decide_eq_true. tauto.
Qed.

Lemma wordsFrom_app (inWord : bool) (syls1 syls2 : list Syl) :
  wordsFrom inWord (syls1 ++ syls2) <->
  wordsFrom inWord syls1 /\ wordsFrom (inWordAfter inWord syls1) syls2.
Proof.
  revert inWord. induction syls1 as [|syl syls1 IH]; intros inWord; simpl.
  - tauto.
  - destruct (syl_wordpos syl); rewrite IH; tauto.
Qed.

Lemma inWordAfter_app (inWord : bool) (syls1 syls2 : list Syl) :
  inWordAfter inWord (syls1 ++ syls2) =
  inWordAfter (inWordAfter inWord syls1) syls2.
Proof.
  revert inWord. induction syls1 as [|syl syls1 IH]; intros inWord; simpl;
    [reflexivity | apply IH].
Qed.

Lemma syllables_app (elements1 elements2 : list LayerElement) :
  syllables (elements1 ++ elements2) =
  syllables elements1 ++ syllables elements2.
Proof. apply omap_app. Qed.

Lemma omap_length_le {A B : Type} (f : A -> option B) (l : list A) :
  (length (omap f l) <= length l)%nat.
Proof.
  induction l as [|a l IH]; [reflexivity|].
  cbn [omap list_omap]. destruct (f a); simpl; lia.
Qed.

(** The facts that follow the run in the step lemma below. *)
Ltac closing Hsame :=
  repeat split; try reflexivity; try assumption;
  try (rewrite app_nil_r; reflexivity);
  try (symmetry; exact Hsame);
  repeat (constructor; try discriminate); try discriminate.

Lemma readDuration_cases (durationNode : xml_node) (mens : MensInfo) :
  exists duration num numbase,
    readDuration durationNode mens = (duration, num, numbase).
Proof. destruct (readDuration durationNode mens) as [[d n] b]. eauto. Qed.

(** One round of the loop of [CreateStaff] over the events, on an
    importer that can take an event. *)
Lemma CreateEvent_step (st : Filling) (e : xml_node) (layer : Node) (k : nat)
    (info : MensInfo) :
  ready (f_input st) layer k ->
  m_mensInfos (f_input st) !! k = Some info ->
  exists st' added,
    CreateEvent (Some st) e = Some st' /\
    f_children st' = f_children st ++ added /\
    map kindOf added = option_list (eventKind e) /\
    f_warnings st' =
      f_warnings st ++
      (if supported (eventName e) then [] else [eventName e]) /\
    ready (f_input st') layer k /\
    m_mensInfos (f_input st') =
      <[k := mensInfoPast info e]> (m_mensInfos (f_input st)) /\
    (m_numVoices (f_input st'), m_currentSection (f_input st'),
     m_used (f_input st')) =
    (m_numVoices (f_input st), m_currentSection (f_input st),
     m_used (f_input st)) /\
    wordsFrom (m_isInSyllable (f_input st)) (syllables added) /\
    m_isInSyllable (f_input st') =
      inWordAfter (m_isInSyllable (f_input st)) (syllables added) /\
    Forall connectorFits (syllables added) /\
    Forall (fun element =>
              forall mensur, element = LayerMensur mensur ->
                             mensur = mensurOf (mensInfoPast info e)) added.
Proof.
  intros (Hlayer & Hk & Hlt) Hinfo.
  assert (Hsame : <[k := info]> (m_mensInfos (f_input st))
                  = m_mensInfos (f_input st)) by (apply list_insert_id, Hinfo).
  assert (Hready : ready (f_input st) layer k) by (repeat split; assumption).
  unfold CreateEvent, eventKind, mensInfoPast. cbn [mbind option_bind].
  destruct (String.eqb_spec (eventName e) "Clef") as [Hn|H1].
  { rewrite Hn. cbn [String.eqb Ascii.eqb Bool.eqb].
    destruct (IsClef e).
    - unfold CreateClef. rewrite Hlayer. cbn [mbind option_bind].
      eexists _, [_]. split; [reflexivity|].
      closing Hsame.
    - unfold CreateKeySig. rewrite Hlayer. cbn [mbind option_bind].
      eexists _, [_]. split; [reflexivity|].
      closing Hsame. }
  destruct (String.eqb_spec (eventName e) "Dot") as [Hn|H2].
  { rewrite Hn. cbn [String.eqb Ascii.eqb Bool.eqb].
    unfold CreateDot. rewrite Hlayer. cbn [mbind option_bind].
    eexists _, [_]. split; [reflexivity|].
    closing Hsame. }
  destruct (String.eqb_spec (eventName e) "Mensuration") as [Hn|H3].
  { rewrite Hn.
    unfold CreateMensuration. rewrite Hlayer, Hk. cbn [mbind option_bind].
    rewrite Hinfo. cbn [mbind option_bind].
    eexists _, [_]. split; [reflexivity|].
    closing Hsame.
    - cbn [f_input AddChild_layer set_voiceState m_mensInfos].
      rewrite length_insert. exact Hlt.
    - intros mensur [= <-]. reflexivity. }
  destruct (String.eqb_spec (eventName e) "Note") as [Hn|H4].
  { rewrite Hn. cbn [String.eqb Ascii.eqb Bool.eqb].
    unfold CreateNote, ReadDuration, currentMensInfo.
    rewrite Hlayer, Hk. cbn [mbind option_bind]. rewrite Hinfo.
    cbn [mbind option_bind].
    destruct (readDuration_cases e info) as (duration & num & numbase & ->).
    destruct (select_child "ModernText" e) as [verseNode|].
    - unfold CreateVerse.
      destruct (select_child "WordEnd" verseNode);
        destruct (m_isInSyllable (f_input st)) eqn:Hin;
        (eexists _, [_]; split; [reflexivity|]);
        cbn [syllables omap note_verse fmap option_fmap option_map verse_syl
             wordsFrom inWordAfter syl_wordpos list_omap];
        closing Hsame.
    - eexists _, [_]. split; [reflexivity|].
      closing Hsame. }
  destruct (String.eqb_spec (eventName e) "OriginalText") as [Hn|H5].
  { rewrite Hn. cbn [String.eqb Ascii.eqb Bool.eqb].
    unfold CreateOriginalText.
    eexists _, []. split; [reflexivity|].
    closing Hsame. }
  destruct (String.eqb_spec (eventName e) "Rest") as [Hn|Hrest].
  { rewrite Hn.
    unfold CreateRest, ReadDuration, currentMensInfo.
    rewrite Hlayer, Hk. cbn [mbind option_bind]. rewrite Hinfo.
    cbn [mbind option_bind].
    destruct (readDuration_cases e info) as (duration & num & numbase & ->).
    eexists _, [_]. split; [reflexivity|].
    closing Hsame. }
  assert (Hunsupported : supported (eventName e) = false).
  { apply bool_decide_eq_false. intros Hin.
    repeat (apply elem_of_cons in Hin as [Hin|Hin]; [contradiction|]).
    inversion Hin. }
  rewrite Hunsupported.
  eexists _, []. split; [reflexivity|].
  closing Hsame.
Qed.

(** The loop of [CreateStaff] over the events. *)
Lemma CreateEvent_loop (eventNodes : list xml_node) :
  forall (st : Filling) (layer : Node) (k : nat) (info : MensInfo),
  ready (f_input st) layer k ->
  m_mensInfos (f_input st) !! k = Some info ->
  exists st' added,
    foldl CreateEvent (Some st) eventNodes = Some st' /\
    f_children st' = f_children st ++ added /\
    map kindOf added = omap eventKind eventNodes /\
    f_warnings st' =
      f_warnings st ++
      filter (fun name => supported name = false) (map eventName eventNodes) /\
    ready (f_input st') layer k /\
    m_mensInfos (f_input st') =
      <[k := foldl mensInfoPast info eventNodes]> (m_mensInfos (f_input st)) /\
    (m_numVoices (f_input st'), m_currentSection (f_input st'),
     m_used (f_input st')) =
    (m_numVoices (f_input st), m_currentSection (f_input st),
     m_used (f_input st)) /\
    wordsFrom (m_isInSyllable (f_input st)) (syllables added) /\
    m_isInSyllable (f_input st') =
      inWordAfter (m_isInSyllable (f_input st)) (syllables added) /\
    Forall connectorFits (syllables added) /\
    Forall (fun element =>
              forall mensur, element = LayerMensur mensur ->
                             exists info', mensur = mensurOf info') added.
Proof.
  induction eventNodes as [|e eventNodes IH]; intros st layer k info Hready Hinfo.
  - exists st, []. cbn [foldl omap map syllables list_omap].
    rewrite (filter_nil (fun name => supported name = false)), !app_nil_r.
    rewrite list_insert_id by exact Hinfo.
    repeat split; try reflexivity; try apply Hready; constructor.
  - destruct (CreateEvent_step st e layer k info Hready Hinfo)
      as (st1 & added1 & Hrun1 & Hch1 & Hkind1 & Hwarn1 & Hready1 & Hmens1
          & Hframe1 & Hwords1 & Hin1 & Hcon1 & Hmensur1).
    assert (Hinfo1 : m_mensInfos (f_input st1) !! k = Some (mensInfoPast info e)).
    { rewrite Hmens1. apply list_lookup_insert_eq. apply Hready. }
    destruct (IH st1 layer k (mensInfoPast info e) Hready1 Hinfo1)
      as (st2 & added2 & Hrun2 & Hch2 & Hkind2 & Hwarn2 & Hready2 & Hmens2
          & Hframe2 & Hwords2 & Hin2 & Hcon2 & Hmensur2).
    exists st2, (added1 ++ added2).
    split; [cbn [foldl]; rewrite Hrun1; exact Hrun2|].
    split; [rewrite Hch2, Hch1, app_assoc; reflexivity|].
    split.
    { rewrite map_app, Hkind1, Hkind2. cbn [omap list_omap].
      destruct (eventKind e); reflexivity. }
    split.
    { rewrite Hwarn2, Hwarn1, <- app_assoc. f_equal. cbn [map].
      rewrite (filter_cons (fun name => supported name = false)).
      destruct (supported (eventName e)) eqn:Hs.
      - rewrite decide_False by congruence. reflexivity.
      - rewrite decide_True by reflexivity. reflexivity. }
    split; [exact Hready2|].
    split; [rewrite Hmens2, Hmens1, list_insert_insert_eq; reflexivity|].
    split; [rewrite Hframe2; exact Hframe1|].
    rewrite syllables_app.
    split; [apply wordsFrom_app; split; [exact Hwords1|rewrite <- Hin1; exact Hwords2]|].
    split; [rewrite inWordAfter_app, <- Hin1; exact Hin2|].
    split; [apply Forall_app; split; assumption|].
    apply Forall_app. split; [|exact Hmensur2].
    eapply Forall_impl; [exact Hmensur1|]. intros element Hel mensur Heq.
    eexists. apply Hel, Heq.
Qed.

(** X16.  An event named [Clef] becomes a clef exactly when it has no
    [Signature] child and its [Appearance] is one of the five keys of the
    shape table of [CreateClef]; the clef then gets the shape the table
    has for that appearance, never the default of the lookup, on the line
    (StaffLoc + 1) / 2: the locations 2 * line - 1 and 2 * line both give
    [line].  Any other event named [Clef] becomes a key signature. *)
Theorem Clef_event_is_a_clef_or_a_key_signature
    (eventNode : xml_node) (st : Filling) :
  eventName eventNode = "Clef" ->
  is_Some (m_currentLayer (f_input st)) ->
  (IsClef eventNode = true <->
   select_node ["Signature"] eventNode = None /\
   is_Some (CreateClef_shapeMap !!
              ChildAsString (Some eventNode) ["Appearance"])) /\
  (IsClef eventNode = true ->
   exists shape,
     CreateClef_shapeMap !! ChildAsString (Some eventNode) ["Appearance"]
       = Some shape /\
     CreateEvent (Some st) eventNode =
     Some (AddChild_layer
             (LayerClef
                {| clef_line :=
                     Z.quot (Int.add (ChildAsInt (Some eventNode) "StaffLoc") 1) 2;
                   clef_shape := shape |}) st) /\
     (forall line,
        0 < line -> 2 * line <= Int.max_signed ->
        ChildAsInt (Some eventNode) "StaffLoc" = 2 * line - 1 \/
        ChildAsInt (Some eventNode) "StaffLoc" = 2 * line ->
        Z.quot (Int.add (ChildAsInt (Some eventNode) "StaffLoc") 1) 2 = line)) /\
  (IsClef eventNode = false ->
   exists keyaccid,
     CreateEvent (Some st) eventNode =
     Some (AddChild_layer (LayerKeySig keyaccid) st)).
Proof.
  intros Hname [layer Hlayer].
  split; [rewrite IsClef_spec, CreateClef_shapeMap_keys; reflexivity|].
  unfold CreateEvent. cbn [mbind option_bind]. rewrite Hname.
  cbn [String.eqb Ascii.eqb Bool.eqb].
  split.
  - intros Hclef. rewrite Hclef.
    pose proof (proj1 (IsClef_spec eventNode) Hclef) as [_ Hin].
    apply CreateClef_shapeMap_keys in Hin as [shape Hshape].
    exists shape. split; [exact Hshape|].
    unfold CreateClef. rewrite Hlayer, Hshape. cbn [mbind option_bind].
    split; [reflexivity|].
    intros line Hpos Hmax Hloc.
    assert (Hadd : Int.add (ChildAsInt (Some eventNode) "StaffLoc") 1
                   = ChildAsInt (Some eventNode) "StaffLoc" + 1).
    { apply Int_add_in_range.
      unfold Int.in_range, Int.min_signed, Int.max_signed in *. lia. }
    rewrite Hadd. symmetry.
    apply Z.quot_unique with (r :=
      ChildAsInt (Some eventNode) "StaffLoc" + 1 - 2 * line); lia.
  - intros Hclef. rewrite Hclef. unfold CreateKeySig. rewrite Hlayer.
    cbn [mbind option_bind]. eexists. reflexivity.
Qed.

(** X17.  On an importer that can take an event, the loop of
    [CreateStaff] over the events of a voice never fails.  It hands to the
    layer one object for each event named Clef, Dot, Mensuration, Note or
    Rest, in the order of the events and of the kind of the event, and no
    object for another event; it reports to [LogWarning], in order, the
    names of the events whose name is none of these and not OriginalText,
    and no other name. *)
Theorem CreateStaff_events_mirror_the_voice
    (eventNodes : list xml_node) (st : Filling) (layer : Node) (k : nat) :
  ready (f_input st) layer k ->
  exists st' added,
    foldl CreateEvent (Some st) eventNodes = Some st' /\
    f_children st' = f_children st ++ added /\
    map kindOf added = omap eventKind eventNodes /\
    (length added <= length eventNodes)%nat /\
    f_warnings st' =
      f_warnings st ++
      filter (fun name => supported name = false) (map eventName eventNodes).
Proof.
  intros Hready.
  destruct (lookup_lt_is_Some_2 (m_mensInfos (f_input st)) k) as [info Hinfo];
    [apply Hready|].
  destruct (CreateEvent_loop eventNodes st layer k info Hready Hinfo)
    as (st' & added & Hrun & Hch & Hkind & Hwarn & _).
  exists st', added. split; [exact Hrun|]. split; [exact Hch|].
  split; [exact Hkind|]. split; [|exact Hwarn].
  rewrite <- (length_map kindOf added), Hkind. apply omap_length_le.
Qed.

(** What [CreateStaff] hands to the loop over the events. *)
Lemma CreateStaff_layer_unfold
    (voiceNode : xml_node) (input : CmmeInput) (measure : Measure) (k : nat) :
  m_currentSection input = Some measure ->
  vector_at (Int.sub (ChildAsInt (Some voiceNode) "VoiceNum") 1)
            (m_mensInfos input) = Some k ->
  exists st layer,
    CreateStaff_layer voiceNode input =
      foldl CreateEvent (Some st) (events voiceNode) /\
    ready (f_input st) layer k /\
    f_children st = [] /\ f_warnings st = [] /\
    m_isInSyllable (f_input st) = false /\
    m_mensInfos (f_input st) = m_mensInfos input /\
    m_numVoices (f_input st) = m_numVoices input.
Proof.
  intros Hsection Hat. unfold CreateStaff_layer. rewrite Hsection.
  remember (Int.sub (ChildAsInt (Some voiceNode) "VoiceNum") 1) as index.
  cbn [newID m_mensInfos]. rewrite Hat.
  eexists _, _. split; [reflexivity|].
  split; [|repeat split].
  repeat split. cbn [f_input m_mensInfos].
  unfold vector_at in Hat.
  destruct ((0 <=? _) && (_ <? _)) eqn:Hrange; [|discriminate].
  injection Hat as <-. apply andb_true_iff in Hrange as [Hle Hlt].
  apply Z.leb_le in Hle. apply Z.ltb_lt in Hlt. lia.
Qed.


(** X19.  [CreateStaff] for a voice leaves the mensuration of every other
    voice as it is and [m_mensInfos] at its length.  The mensuration of
    the voice itself is, at the end, what the [Mensuration] events of the
    voice made of it in their order: an event with a [MensInfo] child
    replaces it by the four numbers read from that child, an event without
    one keeps the mensuration it finds, which is the one an earlier
    section left for the voice; with no [MensInfo] in the voice
    [m_mensInfos] is unchanged.  Every [Mensur] handed to the layer shows
    a mensuration: sign O with tempus 3 and sign C with tempus 2, a dot
    with prolatio 3 and none with prolatio 2. *)
Theorem CreateStaff_writes_the_mensuration_of_its_voice
    (voiceNode : xml_node) (input : CmmeInput) (measure : Measure) (k : nat)
    (info : MensInfo) :
  m_currentSection input = Some measure ->
  vector_at (Int.sub (ChildAsInt (Some voiceNode) "VoiceNum") 1)
            (m_mensInfos input) = Some k ->
  m_mensInfos input !! k = Some info ->
  exists st',
    CreateStaff_layer voiceNode input = Some st' /\
    length (m_mensInfos (f_input st')) = length (m_mensInfos input) /\
    (forall j, j <> k ->
       m_mensInfos (f_input st') !! j = m_mensInfos input !! j) /\
    m_mensInfos (f_input st') !! k =
      Some (foldl mensInfoPast info (events voiceNode)) /\
    (Forall (fun e => eventName e = "Mensuration" ->
                      select_child "MensInfo" e = None) (events voiceNode) ->
     m_mensInfos (f_input st') = m_mensInfos input) /\
    Forall (fun element =>
              forall mensur, element = LayerMensur mensur ->
                (mensur_sign mensur = Some MENSURATIONSIGN_O <->
                 mensur_tempus mensur = TEMPUS_3) /\
                (mensur_sign mensur = Some MENSURATIONSIGN_C <->
                 mensur_tempus mensur = TEMPUS_2) /\
                (mensur_dot mensur = Some BOOLEAN_true <->
                 mensur_prolatio mensur = PROLATIO_3) /\
                (mensur_dot mensur = Some BOOLEAN_false <->
                 mensur_prolatio mensur = PROLATIO_2))
           (f_children st').
Proof.
  intros Hsection Hat Hinfo.
  destruct (CreateStaff_layer_unfold voiceNode input measure k Hsection Hat)
    as (st & layer & -> & Hready & Hch & _ & _ & Hmens & _).
  rewrite <- Hmens in Hinfo.
  destruct (CreateEvent_loop (events voiceNode) st layer k info Hready Hinfo)
    as (st' & added & Hrun & Hch' & _ & _ & Hready' & Hmens' & _ & _ & _ & _
        & Hmensur).
  rewrite Hch in Hch'. cbn [app] in Hch'. rewrite Hmens in Hmens'.
  exists st'. split; [exact Hrun|].
  split; [rewrite Hmens', length_insert; reflexivity|].
  split; [intros j Hj; rewrite Hmens'; apply list_lookup_insert_ne; congruence|].
  split.
  { rewrite Hmens'. apply list_lookup_insert_eq.
    rewrite <- Hmens. apply Hready. }
  split.
  { intros Hnone. rewrite Hmens'. apply list_insert_id.
    rewrite <- Hmens, Hinfo. f_equal.
    clear -Hnone. revert info.
    induction (events voiceNode) as [|e l IH]; intros info; [reflexivity|].
    apply Forall_cons in Hnone as [He Hl]. cbn [foldl].
    rewrite <- (IH Hl). f_equal. unfold mensInfoPast, mensInfoAfter.
    destruct (String.eqb_spec (eventName e) "Mensuration") as [Hn|_];
      [rewrite (He Hn)|]; reflexivity. }
  rewrite Hch'. eapply Forall_impl; [exact Hmensur|].
  intros element Hel mensur Heq. destruct (Hel mensur Heq) as [info' ->].
  unfold mensurOf. cbn [mensur_sign mensur_tempus mensur_dot mensur_prolatio].
  destruct (tempus info' =? 3), (prolatio info' =? 3);
    repeat split; intros; congruence.
Qed.

End CmmeEventFacts.

(** ** The CMME importer: one staff per voice *)

Section CmmeSectionFacts.
Import StaffModel Cmme CmmeEvents.
Context `{VrvDef} `{PugiXml}.

(** The loop over the events does not touch the score. *)
Lemma CreateEvent_keeps_score (st st' : Filling) (e : xml_node) :
  CreateEvent (Some st) e = Some st' ->
  m_score (f_input st') = m_score (f_input st).
Proof.
  unfold CreateEvent, CreateClef, CreateKeySig, CreateDot, CreateMensuration,
    CreateNote, CreateOriginalText, CreateRest, ReadDuration.
  cbn [mbind option_bind]. intros Hrun.
  repeat case_match; simplify_option_eq; repeat case_match;
    simplify_option_eq; reflexivity.
Qed.

Lemma foldl_CreateEvent_None (eventNodes : list xml_node) :
  foldl CreateEvent None eventNodes = None.
Proof. induction eventNodes as [|e eventNodes IH]; [reflexivity | exact IH]. Qed.

Lemma CreateEvent_loop_keeps_score (eventNodes : list xml_node) :
  forall st st' : Filling,
  foldl CreateEvent (Some st) eventNodes = Some st' ->
  m_score (f_input st') = m_score (f_input st).
Proof.
  induction eventNodes as [|e eventNodes IH]; intros st st' Hrun.
  - injection Hrun as <-. reflexivity.
  - cbn [foldl] in Hrun.
    destruct (CreateEvent (Some st) e) as [st1|] eqn:Hstep.
    + rewrite (IH st1 st' Hrun). apply (CreateEvent_keeps_score st st1 e Hstep).
    + rewrite foldl_CreateEvent_None in Hrun. discriminate.
Qed.

(** [CreateStaff] where the current section is there and the number of the
    voice is within [m_mensInfos]: the loop over the events goes through,
    and the two calls of [AddChild] put the layer, numbered 1, under the
    staff of the number read and the staff at the end of the measure.  The
    children of the layer, the warnings, [m_mensInfos] and
    [m_isInSyllable] are those [CreateStaff_layer] leaves. *)
Lemma CreateStaff_spec
    (voiceNode : xml_node) (input : CmmeInput) (measure : Measure) (k : nat) :
  m_currentSection input = Some measure ->
  vector_at (Int.sub (ChildAsInt (Some voiceNode) "VoiceNum") 1)
            (m_mensInfos input) = Some k ->
  exists st st0 staff layer,
    CreateStaff voiceNode input = Some st /\
    CreateStaff_layer voiceNode input = Some st0 /\
    (f_children st, f_warnings st, m_mensInfos (f_input st),
     m_isInSyllable (f_input st)) =
    (f_children st0, f_warnings st0, m_mensInfos (f_input st0),
     m_isInSyllable (f_input st0)) /\
    m_currentSection (f_input st) = Some (Measure_AddChild measure staff) /\
    m_currentLayer (f_input st) = Some layer /\
    m_numVoices (f_input st) = m_numVoices input /\
    length (m_mensInfos (f_input st)) = length (m_mensInfos input) /\
    att_n staff = Some (ChildAsInt (Some voiceNode) "VoiceNum") /\
    att_visible staff = BOOLEAN_NONE /\
    m_children staff = [layer] /\
    node_classId layer = LAYER /\ node_n layer = Some 1 /\
    m_score (f_input st) = m_score input.
Proof.
  intros Hsection Hat.
  remember (Int.sub (ChildAsInt (Some voiceNode) "VoiceNum") 1) as index.
  assert (Hk : (k < length (m_mensInfos input))%nat).
  { unfold vector_at in Hat.
    destruct ((0 <=? _) && (_ <? _)) eqn:Hrange; [|discriminate].
    injection Hat as <-. apply andb_true_iff in Hrange as [Hle Hlt].
    apply Z.leb_le in Hle. apply Z.ltb_lt in Hlt. lia. }
  destruct (lookup_lt_is_Some_2 (m_mensInfos input) k Hk) as [info Hinfo].
  unfold CreateStaff, CreateStaff_layer. rewrite Hsection, <- Heqindex.
  cbn [newID m_mensInfos]. rewrite Hat.
  match goal with
  | |- context [foldl CreateEvent (Some ?x) _] => set (st1 := x)
  end.
  match goal with
  | |- context [AddChild ?x _] => set (staff := x)
  end.
  destruct (CreateEvent_loop (events voiceNode) st1 _ k info
              (conj eq_refl (conj eq_refl Hk)) Hinfo)
    as (st0 & added & Hrun & _ & _ & _ & Hready0 & Hmens0 & Hframe & _).
  rewrite Hrun. cbn [mbind option_bind].
  destruct Hready0 as (Hcurrent & _ & _). rewrite Hcurrent.
  cbn [mbind option_bind].
  injection Hframe as Hnum0 Hsec0 _.
  unfold addToCurrentSection. rewrite Hsec0. cbn [st1 f_input m_currentSection].
  rewrite Hsection. cbn [mbind option_bind].
  eexists _, st0, _, _. split; [reflexivity|].
  split; [reflexivity|]. split; [reflexivity|].
  split; [reflexivity|]. split; [exact Hcurrent|].
  split; [exact Hnum0|].
  split.
  { cbn [f_input m_mensInfos]. rewrite Hmens0, length_insert. reflexivity. }
  split; [reflexivity|]. split; [reflexivity|].
  split; [reflexivity|]. split; [reflexivity|]. split; [reflexivity|].
  cbn [f_input m_score].
  rewrite (CreateEvent_loop_keeps_score (events voiceNode) st1 st0 Hrun).
  reflexivity.
Qed.

(** One round of the loop of [CreateSection]. *)
Lemma CreateSection_voice_step
    (section : xml_node) (state : Building) (measure : Measure) (i : Z) :
  wellFormedSection section ->
  (forall z, 0 < z <= Int.max_signed -> as_int (StringFormat_d z) = z) ->
  m_currentSection (b_input state) = Some measure ->
  0 <= i < Z.of_nat (length (m_mensInfos (b_input state))) ->
  i < Int.max_signed ->
  exists state' staff,
    CreateSection_voice section state i = Some state' /\
    m_currentSection (b_input state') = Some (Measure_AddChild measure staff) /\
    m_numVoices (b_input state') = m_numVoices (b_input state) /\
    length (m_mensInfos (b_input state')) =
      length (m_mensInfos (b_input state)) /\
    staffOfVoice section i staff /\
    map fst (b_layers state') = map fst (b_layers state) ++ m_children staff /\
    m_score (b_input state') = m_score (b_input state).
Proof.
  intros Hwf Hread Hcur Hi Hmax.
  assert (Hadd : Int.add i 1 = i + 1).
  { apply Int_add_in_range.
    unfold Int.in_range, Int.min_signed, Int.max_signed in *. lia. }
  unfold CreateSection_voice, staffOfVoice. rewrite Hadd.
  destruct (select_voice section (i + 1)) as [voice|] eqn:Hsel.
  - apply select_voice_some in Hsel as (Hin & Hvoice & Hnum).
    assert (Hn : ChildAsInt (Some voice) "VoiceNum" = i + 1).
    { rewrite (singleVoiceNum_selected voice (StringFormat_d (i + 1)));
        [apply Hread; lia | apply Hwf; assumption | exact Hnum]. }
    assert (Hsub : Int.sub (i + 1) 1 = i).
    { unfold Int.sub, Int.wrap. unfold Int.max_signed in Hmax.
      rewrite Z.mod_small by lia. lia. }
    destruct (CreateStaff_spec voice (b_input state) measure (Z.to_nat i))
      as (st & st0 & staff & layer & Hrun & _ & _ & Hsec & Hlayer & Hnumv
          & Hlen & Hstaffn & _ & Hchildren & Hclass & Hlayern & Hscore);
      [exact Hcur | rewrite Hn, Hsub; apply vector_at_in_range, Hi |].
    rewrite Hrun. cbn [mbind option_bind]. rewrite Hlayer.
    cbn [mbind option_bind].
    exists {| b_input := f_input st;
              b_layers := b_layers state ++ [(layer, f_children st)];
              b_warnings := b_warnings state ++ f_warnings st |}, staff.
    cbn [b_input b_layers].
    split; [reflexivity|]. split; [exact Hsec|]. split; [exact Hnumv|].
    split; [exact Hlen|].
    split; [split; [rewrite Hstaffn, Hn; reflexivity | eauto]|].
    split; [|exact Hscore].
    rewrite map_app, Hchildren. reflexivity.
  - unfold addToCurrentSection. cbn [newID m_currentSection]. rewrite Hcur.
    cbn [mbind option_bind].
    eexists _, _. split; [reflexivity|].
    split; [reflexivity|]. split; [reflexivity|]. split; [reflexivity|].
    split; [repeat split|]. split; [|reflexivity].
    cbn [b_layers m_children newStaff SetVisible Reset ClearLedgerLines].
    rewrite app_nil_r. reflexivity.
Qed.

(** The loop of [CreateSection] after [k] rounds. *)
Lemma CreateSection_loop
    (section : xml_node) (state0 : Building) (k : nat) :
  wellFormedSection section ->
  (forall z, 0 < z <= Int.max_signed -> as_int (StringFormat_d z) = z) ->
  m_currentSection (b_input state0) = Some {| measure_children := [] |} ->
  (k <= length (m_mensInfos (b_input state0)))%nat ->
  Z.of_nat k <= Int.max_signed ->
  exists state' staves,
    foldl (fun state i => state ≫= fun state =>
                          CreateSection_voice section state i)
          (Some state0) (seqZ 0 (Z.of_nat k)) = Some state' /\
    m_currentSection (b_input state') = Some {| measure_children := staves |} /\
    m_numVoices (b_input state') = m_numVoices (b_input state0) /\
    length (m_mensInfos (b_input state')) =
      length (m_mensInfos (b_input state0)) /\
    length staves = k /\
    (forall i : nat, (i < k)%nat ->
       exists staff, staves !! i = Some staff /\
                     staffOfVoice section (Z.of_nat i) staff) /\
    map fst (b_layers state') =
      map fst (b_layers state0) ++ flat_map m_children staves /\
    m_score (b_input state') = m_score (b_input state0).
Proof.
  intros Hwf Hread Hcur. induction k as [|k IH]; intros Hlen Hmax.
  - exists state0, []. simpl. rewrite app_nil_r.
    repeat split; auto. intros i Hi. lia.
  - destruct IH as (state1 & staves & Hrun & Hcur1 & Hnum & Hmens & Hstaves
                    & Hall & Hlayers & Hscore);
      [lia | lia |].
    rewrite seqZ_S, foldl_app, Hrun. simpl.
    destruct (CreateSection_voice_step section state1
                {| measure_children := staves |} (Z.of_nat k))
      as (state2 & staff & Hstep & Hcur2 & Hnum2 & Hmens2 & Hstaff & Hlayers2
          & Hscore2);
      [assumption | assumption | assumption | rewrite Hmens; lia | lia |].
    exists state2, (staves ++ [staff]).
    split; [exact Hstep|]. split; [exact Hcur2|].
    split; [congruence|]. split; [congruence|].
    split; [rewrite length_app; simpl; lia|].
    split.
    + intros i Hi. destruct (decide (i = k)) as [->|Hne].
      * exists staff. split; [|exact Hstaff].
        rewrite lookup_app_r by lia. rewrite Hstaves, Nat.sub_diag. reflexivity.
      * destruct (Hall i) as (staff' & Hlook & Hstaff'); [lia|].
        exists staff'. split; [|exact Hstaff'].
        rewrite lookup_app_l by lia. exact Hlook.
    + split; [|congruence].
      rewrite Hlayers2, Hlayers, flat_map_app, <- app_assoc. simpl.
      rewrite app_nil_r. reflexivity.
Qed.

(** C10, amended.  On a section in which every [Voice] element has one
    [VoiceNum] child with one text node, on an importer that has its score
    and has the voices counted and [m_mensInfos] sized as [Import] leaves
    them, [CreateSection] succeeds, whatever the events of the voices are,
    and leaves in the measure of the section one staff per voice,
    [m_numVoices] in all, in the order of the voice numbers: the staff at
    index [i] has the number [i + 1]; it holds the layer parsed from the
    voice when the section has a voice of that number, and is a
    placeholder with [@visible] false when it has not.  So every staff of
    the measure has a number and the numbers are pairwise distinct.  The
    layers filled are the layers of these staves, in order.  The score has
    one section more, of the type the name of the section node gives; the
    count of the voices and the length of [m_mensInfos] are as before, so
    that the next section meets the same conditions. *)
Theorem CreateSection_one_staff_per_voice
    (section : xml_node) (input : CmmeInput) :
  wellFormedSection section ->
  (forall z, 0 < z <= Int.max_signed -> as_int (StringFormat_d z) = z) ->
  is_Some (m_score input) ->
  0 <= m_numVoices input <= Int.max_signed ->
  length (m_mensInfos input) = Z.to_nat (m_numVoices input) ->
  exists result staves,
    CreateSection section input = Some result /\
    m_currentSection (b_input result) =
      Some {| measure_children := staves |} /\
    Z.of_nat (length staves) = m_numVoices input /\
    (forall i : nat, Z.of_nat i < m_numVoices input ->
       exists staff, staves !! i = Some staff /\
                     staffOfVoice section (Z.of_nat i) staff) /\
    map att_n staves =
      map (fun i => Some (i + 1)) (seqZ 0 (m_numVoices input)) /\
    Forall (fun staff => is_Some (att_n staff)) staves /\
    NoDup (map att_n staves) /\
    map fst (b_layers result) = flat_map m_children staves /\
    m_score (b_input result) =
      (fun sections => sections ++ [eventName section]) <$> m_score input /\
    m_numVoices (b_input result) = m_numVoices input /\
    length (m_mensInfos (b_input result)) = Z.to_nat (m_numVoices input).
Proof.
  intros Hwf Hread [sections Hsections] Hrange Hlen.
  unfold CreateSection. rewrite Hsections.
  cbn [newID m_numVoices m_mensInfos m_used
    m_mensInfo m_isInSyllable m_currentLayer].
  match goal with
  | |- context [foldl _ (Some ?x) _] => set (state0 := x)
  end.
  destruct (CreateSection_loop section state0 (Z.to_nat (m_numVoices input)))
    as (result & staves & Hrun & Hcur & Hnum & Hmens & Hstaves & Hall & Hlayers
        & Hscore);
    [assumption | assumption | reflexivity | simpl; lia | lia |].
  rewrite Z2Nat.id in Hrun by lia.
  exists result, staves.
  split; [exact Hrun|]. split; [exact Hcur|].
  split; [lia|].
  assert (Hn : forall i : nat, Z.of_nat i < m_numVoices input ->
            exists staff, staves !! i = Some staff /\
                          staffOfVoice section (Z.of_nat i) staff).
  { intros i Hi. apply Hall. lia. }
  split; [exact Hn|].
  assert (Hmap : map att_n staves =
                 map (fun i => Some (i + 1)) (seqZ 0 (m_numVoices input))).
  { apply list_eq. intros i. rewrite !lookup_map.
    destruct (decide (i < length staves)%nat) as [Hi|Hi].
    - destruct (Hn i) as (staff & Hlook & Hn' & _); [lia|].
      rewrite Hlook, lookup_seqZ_lt by lia. simpl. rewrite Hn'. reflexivity.
    - rewrite lookup_ge_None_2 by lia.
      rewrite lookup_seqZ_ge by lia. reflexivity. }
  split; [exact Hmap|]. split.
  { apply Forall_forall. intros staff Hin.
    apply list_elem_of_lookup in Hin as [i Hi].
    destruct (Hn i) as (staff' & Hlook & Hn' & _).
    { apply lookup_lt_Some in Hi. lia. }
    rewrite Hi in Hlook. injection Hlook as <-. rewrite Hn'. eauto. }
  split.
  { rewrite Hmap.
    assert (Hinj : Inj (=) (=) (fun i : Z => Some (i + 1))).
    { intros a b [=]. lia. }
    apply (NoDup_fmap_2 (fun i => Some (i + 1))), NoDup_seqZ. }
  split; [exact Hlayers|].
  split; [rewrite Hscore; reflexivity|].
  split; [exact Hnum|].
  rewrite Hmens. exact Hlen.
Qed.

End CmmeSectionFacts.

Section CmmeSectionSamples.
Import StaffModel Cmme CmmeEvents Samples.

Lemma sampleEventSection_wellFormed : wellFormedSection sampleEventSection.
Proof.
  intros voice Hin _. simpl in Hin.
  apply list_elem_of_singleton in Hin as ->.
  exists (field "VoiceNum" "1"), "1"%string.
  split; reflexivity.
Qed.

(** C10, the claim as stated fails: in a section whose only voice carries
    the numbers 2 and 1, the voice is found for the first slot and for the
    second, and both staves get the number 2, the first [VoiceNum]. *)
Lemma CreateSection_voice_with_two_numbers :
  is_Some (select_voice doubleNumberSection 1) /\
  is_Some (select_voice doubleNumberSection 2) /\
  staffNumbers
    (b_input <$>
     @CreateSection sampleDef samplePugi doubleNumberSection sampleInput)
  = Some [(Some 2, BOOLEAN_NONE); (Some 2, BOOLEAN_NONE)] /\
  ~ NoDup [Some 2; Some 2].
Proof.
  split; [eexists; reflexivity|]. split; [eexists; reflexivity|].
  split; [lazy; reflexivity|].
  intros Hnd. apply NoDup_cons in Hnd as [Hnotin _].
  apply Hnotin. left.
Qed.

Lemma CreateSection_one_staff_per_voice_witness :
  wellFormedSection sampleEventSection /\
  (exists result staves,
     @CreateSection sampleDef samplePugi sampleEventSection sampleInput
       = Some result /\
     m_currentSection (b_input result) =
       Some {| measure_children := staves |} /\
     Z.of_nat (length staves) = 2 /\
     map att_n staves = [Some 1; Some 2] /\
     NoDup (map att_n staves)) /\
  staffNumbers
    (b_input <$>
     @CreateSection sampleDef samplePugi sampleEventSection sampleInput)
  = Some [(Some 1, BOOLEAN_NONE); (Some 2, BOOLEAN_false)] /\
  (fun result =>
     (m_score (b_input result), m_mensInfos (b_input result),
      m_isInSyllable (b_input result),
      map (fun layer => length layer.2) (b_layers result),
      b_warnings result)) <$>
  @CreateSection sampleDef samplePugi sampleEventSection sampleInput
  = Some (Some ["MensuralMusic"%string],
          [{| prolatio := 3; tempus := 2; modusminor := 2; modusmaior := 2 |};
           binary],
          false, [6%nat], ["Proportion"%string]).
Proof.
  split; [exact sampleEventSection_wellFormed|].
  split; [|split; [lazy; reflexivity | vm_compute; reflexivity]].
  destruct (@CreateSection_one_staff_per_voice sampleDef samplePugi
              sampleEventSection sampleInput)
    as (result & staves & Hrun & Hcur & Hlen & _ & Hmap & _ & Hnd & _).
  - exact sampleEventSection_wellFormed.
  - intros z _. apply samplePugi_reads_numerals.
  - eexists. reflexivity.
  - unfold Int.max_signed. simpl. lia.
  - reflexivity.
  - exists result, staves.
    split; [exact Hrun|]. split; [exact Hcur|]. split; [exact Hlen|].
    split; [exact Hmap | exact Hnd].
Defined.

End CmmeSectionSamples.

Section CmmeValueFacts.
Import StaffModel Cmme CmmeEvents.
Context `{VrvDef} `{PugiXml}.

(** The default lengths that [ReadDuration] builds for a mensuration
    whose numbers are 2 or 3. *)
Lemma ratio_mensural (mens : MensInfo) :
  mensural mens ->
  ratio "Maxima" mens =
    (modusmaior mens * modusminor mens * tempus mens * prolatio mens, 1) /\
  ratio "Longa" mens = (modusminor mens * tempus mens * prolatio mens, 1) /\
  ratio "Brevis" mens = (tempus mens * prolatio mens, 1) /\
  ratio "Semibrevis" mens = (prolatio mens, 1) /\
  ratio "Minima" mens = (1, 1) /\
  ratio "Semiminima" mens = (1, 2) /\
  ratio "Fusa" mens = (1, 4) /\
  ratio "Semifusa" mens = (1, 8).
Proof.
  intros (Hp & Ht & Hmi & Hma). unfold ratio.
  cbn [String.eqb Ascii.eqb Bool.eqb].
  destruct Hp as [-> | ->], Ht as [-> | ->], Hmi as [-> | ->],
    Hma as [-> | ->]; repeat split; reflexivity.
Qed.

Lemma ratio_other (type : string) (mens : MensInfo) :
  type ∉ ["Maxima"; "Longa"; "Brevis"; "Semibrevis"; "Semiminima"; "Fusa";
          "Semifusa"] ->
  ratio type mens = (1, 1).
Proof.
  intros Hnot. unfold ratio.
  destruct (String.eqb_spec type "Maxima") as [Heq|_];
    [exfalso; apply Hnot; rewrite Heq; set_solver|].
  destruct (String.eqb_spec type "Longa") as [Heq|_];
    [exfalso; apply Hnot; rewrite Heq; set_solver|].
  destruct (String.eqb_spec type "Brevis") as [Heq|_];
    [exfalso; apply Hnot; rewrite Heq; set_solver|].
  destruct (String.eqb_spec type "Semibrevis") as [Heq|_];
    [exfalso; apply Hnot; rewrite Heq; set_solver|].
  destruct (String.eqb_spec type "Semiminima") as [Heq|_];
    [exfalso; apply Hnot; rewrite Heq; set_solver|].
  destruct (String.eqb_spec type "Fusa") as [Heq|_];
    [exfalso; apply Hnot; rewrite Heq; set_solver|].
  destruct (String.eqb_spec type "Semifusa") as [Heq|_];
    [exfalso; apply Hnot; rewrite Heq; set_solver|].
  reflexivity.
Qed.

(** X20.  [ReadDuration] takes the duration from the table of types,
    brevis for a type the table does not have.  It leaves [num] and
    [numbase] unset when the event has no [Length], and when [Num] and
    [Den] are the numerator and the denominator of the default length of
    the type; otherwise it returns Num times the default denominator and
    Den times the default numerator.  The comparison is of the two pairs,
    not of the two fractions: a length that equals the default but is
    written with other numbers is not left unset, and gives [num] equal to
    [numbase].  For a mensuration whose numbers are 2 or 3 the default
    lengths are 1 for a minima, the prolatio for a semibrevis, tempus times
    prolatio for a brevis, and so on up to the maxima, and 1/2, 1/4 and
    1/8 for semiminima, fusa and semifusa; for any other type, 1. *)
Theorem ReadDuration_compares_the_pair
    (durationNode : xml_node) (input : CmmeInput) (mens : MensInfo) :
  currentMensInfo input = Some mens ->
  exists duration num numbase,
    ReadDuration durationNode input = Some (duration, num, numbase) /\
    duration =
      default DURATION_brevis
        (durationMap !! ChildAsString (Some durationNode) ["Type"]) /\
    (select_child "Length" durationNode = None ->
     num = VRV_UNSET /\ numbase = VRV_UNSET) /\
    (forall length,
       select_child "Length" durationNode = Some length ->
       ((ChildAsInt (Some length) "Num", ChildAsInt (Some length) "Den") =
        ratio (ChildAsString (Some durationNode) ["Type"]) mens ->
        num = VRV_UNSET /\ numbase = VRV_UNSET) /\
       ((ChildAsInt (Some length) "Num", ChildAsInt (Some length) "Den") <>
        ratio (ChildAsString (Some durationNode) ["Type"]) mens ->
        num =
          IntOps.mul (ChildAsInt (Some length) "Num")
            (ratio (ChildAsString (Some durationNode) ["Type"]) mens).2 /\
        numbase =
          IntOps.mul (ChildAsInt (Some length) "Den")
            (ratio (ChildAsString (Some durationNode) ["Type"]) mens).1 /\
        (ChildAsInt (Some length) "Num" *
           (ratio (ChildAsString (Some durationNode) ["Type"]) mens).2 =
         ChildAsInt (Some length) "Den" *
           (ratio (ChildAsString (Some durationNode) ["Type"]) mens).1 ->
         num = numbase))) /\
    (mensural mens ->
     ratio "Maxima" mens =
       (modusmaior mens * modusminor mens * tempus mens * prolatio mens, 1) /\
     ratio "Longa" mens = (modusminor mens * tempus mens * prolatio mens, 1) /\
     ratio "Brevis" mens = (tempus mens * prolatio mens, 1) /\
     ratio "Semibrevis" mens = (prolatio mens, 1) /\
     ratio "Minima" mens = (1, 1) /\
     ratio "Semiminima" mens = (1, 2) /\
     ratio "Fusa" mens = (1, 4) /\
     ratio "Semifusa" mens = (1, 8)) /\
    (ChildAsString (Some durationNode) ["Type"] ∉
       ["Maxima"; "Longa"; "Brevis"; "Semibrevis"; "Semiminima"; "Fusa";
        "Semifusa"] ->
     ratio (ChildAsString (Some durationNode) ["Type"]) mens = (1, 1)).
Proof.
  intros Hmens. unfold ReadDuration. rewrite Hmens. cbn [mbind option_bind].
  unfold readDuration.
  set (type := ChildAsString (Some durationNode) ["Type"]).
  set (r := ratio type mens).
  destruct (select_child "Length" durationNode) as [length|].
  - set (Num := ChildAsInt (Some length) "Num").
    set (Den := ChildAsInt (Some length) "Den").
    destruct (negb (r.1 =? Num) || negb (r.2 =? Den)) eqn:Hdiff.
    + eexists _, _, _. split; [reflexivity|].
      split; [unfold default; destruct (durationMap !! type); reflexivity|].
      split; [discriminate|]. split; [|split; [apply ratio_mensural|]].
      * intros length' [= <-]. fold Num Den. split.
        -- intros Heq. exfalso. rewrite <- Heq in Hdiff. cbn [fst snd] in Hdiff.
           rewrite !Z.eqb_refl in Hdiff. discriminate.
        -- intros _. split; [reflexivity|]. split; [reflexivity|].
           intros Hcross. unfold IntOps.mul. rewrite Hcross. reflexivity.
      * apply ratio_other.
    + eexists _, _, _. split; [reflexivity|].
      split; [unfold default; destruct (durationMap !! type); reflexivity|].
      split; [discriminate|]. split; [|split; [apply ratio_mensural|]].
      * intros length' [= <-]. fold Num Den. split; [auto|].
        intros Hne. exfalso. apply Hne.
        apply orb_false_iff in Hdiff as [H1 H2].
        apply negb_false_iff, Z.eqb_eq in H1, H2.
        destruct r as [r1 r2]. cbn [fst snd] in *. congruence.
      * apply ratio_other.
  - eexists _, _, _. split; [reflexivity|].
    split; [unfold default; destruct (durationMap !! type); reflexivity|].
    split; [auto|]. split; [discriminate|]. split; [apply ratio_mensural|].
    apply ratio_other.
Qed.

Lemma octaveOf_cases (pname : data_PITCHNAME) (oct : Z) :
  octaveOf pname oct =
  match pname with
  | PITCHNAME_a | PITCHNAME_b => oct
  | _ => Int.add oct 1
  end.
Proof. destruct pname; reflexivity. Qed.

(** The pitch of MEI for a letter and an octave number of CMME. *)
Lemma pitch_translation (letter : string) (octaveNum : Z) :
  Int.in_range (octaveNum + 1) ->
  (forall step,
     stepOfLetter letter octaveNum = Some step ->
     exists pname,
       pitchMap !! letter = Some pname /\
       stepOfPitch pname (octaveOf pname octaveNum) = step + 5) /\
  (stepOfLetter letter octaveNum = None -> pitchMap !! letter = None).
Proof.
  intros Hrange. pose proof (Int_add_in_range octaveNum 1 Hrange) as Hadd.
  assert (Hletter : forall pname step' s,
            pitchMap !! s = Some pname ->
            stepOfPitch pname (octaveOf pname octaveNum) = step' + 5 ->
            (forall step, Some step' = Some step ->
               exists pname,
                 pitchMap !! s = Some pname /\
                 stepOfPitch pname (octaveOf pname octaveNum) = step + 5) /\
            (Some step' = None -> pitchMap !! s = None)).
  { intros pname step' s Hp Hs. split; [|discriminate].
    intros step [= <-]. eauto. }
  unfold stepOfLetter.
  destruct (String.eqb_spec letter "A") as [->|HA].
  { apply (Hletter PITCHNAME_a); [reflexivity|].
    rewrite octaveOf_cases. unfold stepOfPitch. lia. }
  destruct (String.eqb_spec letter "B") as [->|HB].
  { apply (Hletter PITCHNAME_b); [reflexivity|].
    rewrite octaveOf_cases. unfold stepOfPitch. lia. }
  destruct (String.eqb_spec letter "C") as [->|HC].
  { apply (Hletter PITCHNAME_c); [reflexivity|].
    rewrite octaveOf_cases, Hadd. unfold stepOfPitch. lia. }
  destruct (String.eqb_spec letter "D") as [->|HD].
  { apply (Hletter PITCHNAME_d); [reflexivity|].
    rewrite octaveOf_cases, Hadd. unfold stepOfPitch. lia. }
  destruct (String.eqb_spec letter "E") as [->|HE].
  { apply (Hletter PITCHNAME_e); [reflexivity|].
    rewrite octaveOf_cases, Hadd. unfold stepOfPitch. lia. }
  destruct (String.eqb_spec letter "F") as [->|HF].
  { apply (Hletter PITCHNAME_f); [reflexivity|].
    rewrite octaveOf_cases, Hadd. unfold stepOfPitch. lia. }
  destruct (String.eqb_spec letter "G") as [->|HG].
  { apply (Hletter PITCHNAME_g); [reflexivity|].
    rewrite octaveOf_cases, Hadd. unfold stepOfPitch. lia. }
  split; [discriminate|]. intros _.
  apply not_elem_of_list_to_map_1. cbn [fmap list_fmap fst].
  intros Hin.
  repeat (apply elem_of_cons in Hin as [->|Hin]; [congruence|]).
  inversion Hin.
Qed.

(** X21.  [CreateNote] and [CreateKeySig] carry a pitch of CMME, a letter
    from A to G with an octave number that counts from A, over to MEI, a
    pitch name with an octave that counts from c, by a translation: the
    step of the pitch on the diatonic scale grows by 5 for every letter
    and octave, so that higher stays higher and distinct stays distinct.
    A letter that is none of the seven gives the pitch name c in the
    octave after the octave number. *)
Theorem CreateNote_translates_the_pitch
    (noteNode keyNode : xml_node) (st : Filling) (layer : Node) (k : nat) :
  ready (f_input st) layer k ->
  (Int.in_range (ChildAsInt (Some noteNode) "OctaveNum" + 1) ->
   exists st' note,
     CreateNote noteNode st = Some st' /\
     f_children st' = f_children st ++ [LayerNote note] /\
     (forall step,
        stepOfLetter (ChildAsString (Some noteNode) ["LetterName"])
                     (ChildAsInt (Some noteNode) "OctaveNum") = Some step ->
        stepOfPitch (note_pname note) (note_oct note) = step + 5) /\
     (stepOfLetter (ChildAsString (Some noteNode) ["LetterName"])
                   (ChildAsInt (Some noteNode) "OctaveNum") = None ->
      note_pname note = PITCHNAME_c /\
      note_oct note = ChildAsInt (Some noteNode) "OctaveNum" + 1)) /\
  (Int.in_range (ChildAsIntAt (Some keyNode) ["Pitch"; "OctaveNum"] + 1) ->
   exists st' keyaccid,
     CreateKeySig keyNode st = Some st' /\
     f_children st' = f_children st ++ [LayerKeySig keyaccid] /\
     (forall step,
        stepOfLetter (ChildAsString (Some keyNode) ["Pitch"; "LetterName"])
                     (ChildAsIntAt (Some keyNode) ["Pitch"; "OctaveNum"])
          = Some step ->
        stepOfPitch (keyaccid_pname keyaccid) (keyaccid_oct keyaccid)
          = step + 5) /\
     (stepOfLetter (ChildAsString (Some keyNode) ["Pitch"; "LetterName"])
                   (ChildAsIntAt (Some keyNode) ["Pitch"; "OctaveNum"]) = None ->
      keyaccid_pname keyaccid = PITCHNAME_c /\
      keyaccid_oct keyaccid =
        ChildAsIntAt (Some keyNode) ["Pitch"; "OctaveNum"] + 1)).
Proof.
  intros (Hlayer & Hk & Hlt).
  destruct (lookup_lt_is_Some_2 (m_mensInfos (f_input st)) k Hlt) as [info Hinfo].
  split; intros Hrange.
  - destruct (pitch_translation
                (ChildAsString (Some noteNode) ["LetterName"])
                (ChildAsInt (Some noteNode) "OctaveNum") Hrange)
      as [Hsome Hnone].
    unfold CreateNote, ReadDuration, currentMensInfo.
    rewrite Hlayer, Hk. cbn [mbind option_bind]. rewrite Hinfo.
    cbn [mbind option_bind].
    destruct (readDuration_cases noteNode info) as (duration & num & numbase & ->).
    destruct (match select_child "ModernText" noteNode with
              | Some verseNode =>
                  let (verse, isInSyllable) :=
                    CreateVerse verseNode (m_isInSyllable (f_input st)) in
                  (Some verse, isInSyllable)
              | None => (None, m_isInSyllable (f_input st))
              end) as [verse isInSyllable].
    eexists _, _. split; [reflexivity|]. split; [reflexivity|].
    cbn [note_pname note_oct]. split.
    + intros step Hstep. destruct (Hsome step Hstep) as (pname & -> & Hp).
      exact Hp.
    + intros Hstep. rewrite (Hnone Hstep). split; [reflexivity|].
      rewrite octaveOf_cases. apply Int_add_in_range, Hrange.
  - destruct (pitch_translation
                (ChildAsString (Some keyNode) ["Pitch"; "LetterName"])
                (ChildAsIntAt (Some keyNode) ["Pitch"; "OctaveNum"]) Hrange)
      as [Hsome Hnone].
    unfold CreateKeySig. rewrite Hlayer. cbn [mbind option_bind].
    eexists _, _. split; [reflexivity|]. split; [reflexivity|].
    cbn [keyaccid_pname keyaccid_oct]. split.
    + intros step Hstep. destruct (Hsome step Hstep) as (pname & -> & Hp).
      exact Hp.
    + intros Hstep. rewrite (Hnone Hstep). split; [reflexivity|].
      rewrite octaveOf_cases. apply Int_add_in_range, Hrange.
Qed.

End CmmeValueFacts.

(** ** The CMME importer: voices and staff group *)

Section CmmeImportFacts.
Import StaffModel Cmme CmmeEvents CmmeImport.

Lemma mapM_total {A B : Type} (f : A -> option B) (g : A -> B) (l : list A) :
  (forall x, x ∈ l -> f x = Some (g x)) -> mapM f l = Some (map g l).
Proof.
  induction l as [|x l IH]; intros Hf; [reflexivity|].
  cbn [mapM map]. rewrite (Hf x) by left. cbn [mbind option_bind].
  rewrite IH by (intros y Hy; apply Hf; right; exact Hy). reflexivity.
Qed.

(** The loop over the voices, on an importer whose count of voices is the
    length of its list of names. *)
Lemma foldl_countVoice (nodes : list xml_node) :
  forall importer : Importer,
  m_numVoices (i_input importer) = Z.of_nat (length (m_voices importer)) ->
  Z.of_nat (length (m_voices importer) + length nodes) <= Int.max_signed ->
  m_numVoices (i_input (foldl countVoice importer nodes)) =
    Z.of_nat (length (m_voices importer) + length nodes) /\
  m_voices (foldl countVoice importer nodes) =
    m_voices importer ++
    map (fun voiceNode => ChildAsString (Some voiceNode) ["Name"]) nodes /\
  m_mensInfos (i_input (foldl countVoice importer nodes)) =
    m_mensInfos (i_input importer).
Proof.
  induction nodes as [|node nodes IH]; intros importer Hcount Hmax.
  - cbn [foldl map length]. rewrite app_nil_r, Nat.add_0_r. auto.
  - cbn [foldl map length] in *.
    destruct (IH (countVoice importer node)) as (Hn & Hv & Hm).
    + cbn [countVoice i_input m_numVoices m_voices].
      rewrite length_app, Hcount, Int_add_in_range; [simpl; lia|].
      unfold Int.in_range, Int.min_signed, Int.max_signed in *. lia.
    + cbn [countVoice m_voices]. rewrite length_app. simpl. lia.
    + rewrite Hn, Hv, Hm. cbn [countVoice i_input m_voices m_mensInfos].
      rewrite length_app, <- app_assoc. simpl. split; [f_equal; lia | auto].
Qed.

(** X22.  On an importer whose count of voices is the length of its list
    of voice names, as on a new one, the first part of [Import] counts one
    voice for each [Voice] element under /Piece/VoiceData, in document
    order, and leaves [m_mensInfos] with one entry per voice, which is what
    [CreateStaff] needs to find the mensuration of every voice; the entries
    it adds are binary.  The staff group then gets the group symbol and,
    after it, one staff definition per voice, numbered from 1 in the order
    of the voices, with 5 lines, mensural, with a label exactly when the
    voice has a name that is not empty, and with the binary mensur as its
    last child; reading the names never throws. *)
Theorem Import_builds_one_staffDef_per_voice
    (document : list xml_node) (importer : Importer) :
  m_numVoices (i_input importer) = Z.of_nat (length (m_voices importer)) ->
  Z.of_nat (length (m_voices importer) + length (voiceNodes document))
    <= Int.max_signed ->
  exists importer' staffDefs,
    Import_voices document importer = Some importer' /\
    m_numVoices (i_input importer') =
      Z.of_nat (length (m_voices importer) + length (voiceNodes document)) /\
    m_voices importer' =
      m_voices importer ++
      map (fun voiceNode => ChildAsString (Some voiceNode) ["Name"])
          (voiceNodes document) /\
    length (m_mensInfos (i_input importer')) =
      Z.to_nat (m_numVoices (i_input importer')) /\
    (forall j : nat,
       (length (m_mensInfos (i_input importer)) <= j)%nat ->
       Z.of_nat j < m_numVoices (i_input importer') ->
       m_mensInfos (i_input importer') !! j = Some binary) /\
    Import_staffGrp importer' =
      Some (StaffGrpSym staffGroupingSym_SYMBOL_bracket ::
            map StaffGrpStaffDef staffDefs) /\
    map staffDef_n staffDefs =
      map (fun i => i + 1) (seqZ 0 (m_numVoices (i_input importer'))) /\
    map labelOf staffDefs =
      map (fun name => if String.eqb name "" then None else Some name)
          (m_voices importer') /\
    Forall (fun staffDef =>
              staffDef_lines staffDef = 5 /\
              staffDef_notationtype staffDef = NOTATIONTYPE_mensural /\
              last (staffDef_children staffDef)
                = Some (StaffDefMensur defaultMensur)) staffDefs.
Proof.
  intros Hcount Hmax.
  destruct (foldl_countVoice (voiceNodes document) importer Hcount Hmax)
    as (Hn & Hv & Hm).
  set (counted := foldl countVoice importer (voiceNodes document)) in *.
  set (n := (length (m_voices importer) + length (voiceNodes document))%nat) in *.
  assert (Hlen : length (m_voices counted) = n).
  { rewrite Hv, length_app, length_map. reflexivity. }
  unfold Import_voices. fold counted. unfold resize. rewrite Hn.
  destruct (Z.ltb_spec (Z.of_nat n) 0) as [|_]; [lia|].
  cbn [mbind option_bind].
  set (staffDefOf := fun i : Z =>
         {| staffDef_n := Int.add i 1;
            staffDef_lines := 5;
            staffDef_notationtype := NOTATIONTYPE_mensural;
            staffDef_children :=
              (if String.eqb (default ""%string (m_voices counted !! Z.to_nat i)) ""
               then []
               else [StaffDefLabel
                       (default ""%string (m_voices counted !! Z.to_nat i))]) ++
              [StaffDefMensur defaultMensur] |}).
  eexists _, (map staffDefOf (seqZ 0 (Z.of_nat n))).
  split; [reflexivity|]. cbn [i_input m_numVoices m_voices m_mensInfos].
  split; [reflexivity|]. split; [exact Hv|].
  split.
  { rewrite length_app, length_take, length_replicate. lia. }
  split.
  { intros j Hj Hjn. rewrite Hm in *. rewrite Nat2Z.id.
    rewrite lookup_app_r by (rewrite length_take; lia).
    rewrite length_take. apply lookup_replicate_2. lia. }
  split.
  { unfold Import_staffGrp. cbn [i_input m_numVoices m_voices].
    rewrite (mapM_total _ (fun i => StaffGrpStaffDef (staffDefOf i))).
    - cbn [mbind option_bind]. rewrite map_map. reflexivity.
    - intros i Hi. apply elem_of_seqZ in Hi. unfold newStaffDef.
      cbn [m_voices].
      destruct (lookup_lt_is_Some_2 (m_voices counted) (Z.to_nat i))
        as [name Hname]; [lia|].
      unfold staffDefOf. rewrite Hname. reflexivity. }
  split.
  { rewrite map_map. apply list_eq. intros j. rewrite !lookup_map.
    destruct (seqZ 0 (Z.of_nat n) !! j) as [i|] eqn:Hi; [|reflexivity].
    cbn [fmap option_fmap option_map staffDefOf staffDef_n]. f_equal.
    apply lookup_seqZ in Hi as [-> Hj]. apply Int_add_in_range.
    unfold Int.in_range, Int.min_signed, Int.max_signed in *. lia. }
  split.
  { rewrite map_map. apply list_eq. intros j. rewrite !lookup_map.
    destruct (decide (j < n)%nat) as [Hj|Hj].
    - rewrite lookup_seqZ_lt by lia.
      destruct (lookup_lt_is_Some_2 (m_voices counted) j) as [name Hname];
        [lia|].
      rewrite Hname. cbn [fmap option_fmap option_map]. f_equal.
      unfold labelOf, staffDefOf. cbn [staffDef_children].
      replace (Z.to_nat (0 + Z.of_nat j)) with j by lia. rewrite Hname.
      cbn [default from_option id]. destruct (String.eqb name ""); reflexivity.
    - rewrite lookup_seqZ_ge by lia.
      rewrite (lookup_ge_None_2 (m_voices counted)) by lia. reflexivity. }
  apply Forall_forall. intros staffDef Hin.
  apply list_elem_of_fmap in Hin as (i & -> & _).
  unfold staffDefOf. cbn [staffDef_lines staffDef_notationtype staffDef_children].
  split; [reflexivity|]. split; [reflexivity|]. apply last_snoc.
Qed.

End CmmeImportFacts.

(** ** The added properties, at the sample data *)

Section GeometrySamples.
Import StaffModel StaffGeometry Samples.

Lemma sample_drawingY :
  (@GetDrawingY sampleDef sampleContext alignedStaff).1 = 1650.
Proof. reflexivity. Qed.

Lemma sample_fitsInt (y : Z) :
  -100000 <= y <= 100000 ->
  fitsInt y (@GetDrawingY sampleDef sampleContext alignedStaff).1
          (GetDrawingUnit sampleDoc (m_drawingStaffSize alignedStaff)).
Proof.
  intros Hy. rewrite sample_drawingY.
  change (GetDrawingUnit sampleDoc (m_drawingStaffSize alignedStaff)) with 9.
  unfold fitsInt, Int.in_range, Int.min_signed, Int.max_signed. lia.
Qed.

Lemma CalcPitchPosYRel_even_locations_are_lines_witness :
  GetDrawingUnit sampleDoc (m_drawingStaffSize alignedStaff) <> 0 /\
  pitchFitsInt sampleDoc 4 alignedStaff /\
  CalcPitchPosYRel sampleDoc 4 alignedStaff = -36 /\
  (@IsOnStaffLine sampleDef sampleContext sampleDoc (1650 + -36) alignedStaff).1
    = Some true.
Proof.
  assert (Hunit : GetDrawingUnit sampleDoc (m_drawingStaffSize alignedStaff) <> 0)
    by discriminate.
  assert (Hpitch : pitchFitsInt sampleDoc 4 alignedStaff).
  { unfold pitchFitsInt, Int.in_range, Int.min_signed, Int.max_signed.
    change (GetDrawingUnit sampleDoc (m_drawingStaffSize alignedStaff)) with 9.
    change (m_drawingLines alignedStaff) with 5. lia. }
  split; [exact Hunit|]. split; [exact Hpitch|].
  destruct (@CalcPitchPosYRel_even_locations_are_lines sampleDef
              sampleContext sampleDoc 4 alignedStaff Hunit Hpitch)
    as (Hvalue & _ & _ & Hline).
  - apply sample_fitsInt. rewrite sample_drawingY.
    change (CalcPitchPosYRel sampleDoc 4 alignedStaff) with (-36). lia.
  - split; [exact Hvalue | exact Hline].
Defined.

Lemma GetNearestInterStaffPosition_below_is_on_the_grid_witness :
  OtherStaffRel 0 <> STAFFREL_above /\
  0 < GetDrawingUnit sampleDoc (m_drawingStaffSize alignedStaff) /\
  exists position,
    (@GetNearestInterStaffPosition sampleDef sampleContext sampleDoc 1600
       (OtherStaffRel 0) alignedStaff).1 = Some position /\
    (9 | position - 1650) /\
    9 <= 1600 - position < 18.
Proof.
  split; [discriminate|]. split; [reflexivity|].
  apply (@GetNearestInterStaffPosition_below_is_on_the_grid sampleDef
           sampleContext sampleDoc 1600 (OtherStaffRel 0) alignedStaff).
  - discriminate.
  - reflexivity.
  - apply sample_fitsInt. lia.
Defined.

Lemma GetNearestInterStaffPosition_above_from_the_staff_witness :
  0 < GetDrawingUnit sampleDoc (m_drawingStaffSize alignedStaff) /\
  exists position,
    (@GetNearestInterStaffPosition sampleDef sampleContext sampleDoc 1600
       STAFFREL_above alignedStaff).1 = Some position /\
    (9 | position - 1650) /\
    9 <= position - 1600 < 18.
Proof.
  split; [reflexivity|].
  destruct (@GetNearestInterStaffPosition_above_from_the_staff sampleDef
              sampleContext sampleDoc 1600 alignedStaff)
    as (position & Hrun & Hgrid & _).
  - reflexivity.
  - apply sample_fitsInt. lia.
  - exists position. split; [exact Hrun|].
    apply Hgrid. left. rewrite sample_drawingY. lia.
Defined.

Lemma GetDrawingY_after_ResetVerticalAlignment_witness :
  ~ positionedByFacsimile sampleContext cachedStaff /\
  m_yAbs cachedStaff = @VRV_UNSET sampleDef /\
  m_cachedDrawingY cachedStaff = 1650 /\
  @GetDrawingY sampleDef sampleContext (ResetVerticalAlignment cachedStaff).2
    = (0, (ResetVerticalAlignment cachedStaff).2) /\
  @GetDrawingY sampleDef sampleContext
    (set_staffAlignment (Some 8192) (ResetVerticalAlignment cachedStaff).2)
    = (1650,
       set_staffAlignment (Some 8192) (ResetVerticalAlignment cachedStaff).2).
Proof.
  assert (Hnf : ~ positionedByFacsimile sampleContext cachedStaff).
  { intros [_ Hdoc]. discriminate Hdoc. }
  split; [exact Hnf|]. split; [reflexivity|]. split; [reflexivity|].
  destruct (@GetDrawingY_after_ResetVerticalAlignment sampleDef
              sampleContext cachedStaff Hnf eq_refl)
    as (Hzero & _ & _ & _ & Hstale).
  split; [exact Hzero|].
  apply Hstale. discriminate.
Defined.

End GeometrySamples.

Section ImporterSamples.
Import StaffModel Cmme CmmeEvents CmmeImport Samples.

Lemma sampleFilling_ready : ready (f_input sampleFilling) sampleLayer 0.
Proof. repeat split. simpl. lia. Qed.

Lemma Clef_event_is_a_clef_or_a_key_signature_witness :
  eventName sampleClef = "Clef"%string /\
  is_Some (m_currentLayer (f_input sampleFilling)) /\
  IsClef sampleClef = true /\
  IsClef sampleKey = false /\
  exists shape,
    CreateClef_shapeMap !! @ChildAsString (Some sampleClef) ["Appearance"]
      = Some shape /\
    @CreateEvent sampleDef samplePugi (Some sampleFilling) sampleClef =
    Some (AddChild_layer
            (LayerClef {| clef_line := 3; clef_shape := shape |})
            sampleFilling).
Proof.
  split; [reflexivity|]. split; [eexists; reflexivity|].
  split; [reflexivity|]. split; [reflexivity|].
  destruct (@Clef_event_is_a_clef_or_a_key_signature sampleDef samplePugi
              sampleClef sampleFilling eq_refl)
    as (_ & Hclef & _); [eexists; reflexivity|].
  destruct (Hclef eq_refl) as (shape & Hshape & Hrun & _).
  exists shape. split; [exact Hshape | exact Hrun].
Defined.

Lemma CreateStaff_events_mirror_the_voice_witness :
  ready (f_input sampleFilling) sampleLayer 0 /\
  omap eventKind (events sampleVoice) =
    [KindClef; KindKeySig; KindMensur; KindNote; KindNote; KindRest] /\
  exists st' added,
    foldl (@CreateEvent sampleDef samplePugi) (Some sampleFilling)
          (events sampleVoice) = Some st' /\
    f_children st' = [] ++ added /\
    map kindOf added = omap eventKind (events sampleVoice) /\
    (length added <= length (events sampleVoice))%nat /\
    f_warnings st' = [] ++ ["Proportion"%string].
Proof.
  split; [exact sampleFilling_ready|]. split; [reflexivity|].
  exact (@CreateStaff_events_mirror_the_voice sampleDef samplePugi
           (events sampleVoice) sampleFilling sampleLayer 0
           sampleFilling_ready).
Defined.

Lemma sampleVoice_index :
  vector_at
    (Int.sub (@ChildAsInt sampleDef samplePugi (Some sampleVoice) "VoiceNum") 1)
    (m_mensInfos sampleInSection) = Some 0%nat.
Proof. reflexivity. Qed.


Lemma CreateStaff_writes_the_mensuration_of_its_voice_witness :
  m_currentSection sampleInSection = Some {| measure_children := [] |} /\
  m_mensInfos sampleInSection !! 0%nat = Some binary /\
  exists st',
    @CreateStaff_layer sampleDef samplePugi sampleVoice sampleInSection
      = Some st' /\
    m_mensInfos (f_input st') !! 1%nat = Some binary /\
    m_mensInfos (f_input st') !! 0%nat =
      Some {| prolatio := 3; tempus := 2; modusminor := 2; modusmaior := 2 |}.
Proof.
  split; [reflexivity|]. split; [reflexivity|].
  destruct (@CreateStaff_writes_the_mensuration_of_its_voice sampleDef
              samplePugi sampleVoice sampleInSection
              {| measure_children := [] |} 0%nat binary eq_refl
              sampleVoice_index eq_refl)
    as (st' & Hrun & _ & Hothers & Hown & _).
  exists st'. split; [exact Hrun|].
  split; [apply (Hothers 1%nat); discriminate | exact Hown].
Defined.

Lemma ReadDuration_compares_the_pair_witness :
  currentMensInfo (f_input sampleFilling) = Some binary /\
  @ReadDuration sampleDef samplePugi sampleNote (f_input sampleFilling)
    = Some (DURATION_semibrevis, @VRV_UNSET sampleDef, @VRV_UNSET sampleDef) /\
  exists duration num numbase,
    @ReadDuration sampleDef samplePugi sampleNote (f_input sampleFilling)
      = Some (duration, num, numbase) /\
    duration =
      default DURATION_brevis
        (durationMap !! ChildAsString (Some sampleNote) ["Type"]).
Proof.
  split; [reflexivity|]. split; [reflexivity|].
  destruct (@ReadDuration_compares_the_pair sampleDef samplePugi sampleNote
              (f_input sampleFilling) binary eq_refl)
    as (duration & num & numbase & Hrun & Hduration & _).
  exists duration, num, numbase. split; [exact Hrun | exact Hduration].
Defined.

Lemma CreateNote_translates_the_pitch_witness :
  ready (f_input sampleFilling) sampleLayer 0 /\
  stepOfLetter "G" 3 = Some 27 /\
  exists st' note,
    @CreateNote sampleDef samplePugi sampleNote sampleFilling = Some st' /\
    f_children st' = [] ++ [LayerNote note] /\
    stepOfPitch (note_pname note) (note_oct note) = 27 + 5.
Proof.
  split; [exact sampleFilling_ready|]. split; [reflexivity|].
  destruct (proj1 (@CreateNote_translates_the_pitch sampleDef samplePugi
                     sampleNote sampleKey sampleFilling sampleLayer 0
                     sampleFilling_ready))
    as (st' & note & Hrun & Hchildren & Hstep & _).
  - unfold Int.in_range, Int.min_signed, Int.max_signed.
    change (@ChildAsInt sampleDef samplePugi (Some sampleNote) "OctaveNum")
      with 3. lia.
  - exists st', note. split; [exact Hrun|]. split; [exact Hchildren|].
    apply Hstep. reflexivity.
Defined.

Lemma Import_builds_one_staffDef_per_voice_witness :
  m_numVoices (i_input sampleImporter)
    = Z.of_nat (length (m_voices sampleImporter)) /\
  length (voiceNodes sampleDocument) = 2%nat /\
  exists importer' staffDefs,
    Import_voices sampleDocument sampleImporter = Some importer' /\
    m_numVoices (i_input importer') = 2 /\
    m_voices importer' = ["Cantus"%string; ""%string] /\
    Import_staffGrp importer' =
      Some (StaffGrpSym staffGroupingSym_SYMBOL_bracket ::
            map StaffGrpStaffDef staffDefs) /\
    map staffDef_n staffDefs = [1; 2] /\
    map labelOf staffDefs = [Some "Cantus"%string; None].
Proof.
  split; [reflexivity|]. split; [reflexivity|].
  destruct (Import_builds_one_staffDef_per_voice sampleDocument sampleImporter
              eq_refl)
    as (importer' & staffDefs & Hrun & Hn & Hv & _ & _ & Hgrp & Hnum & Hlabel & _).
  - unfold Int.max_signed. simpl. lia.
  - exists importer', staffDefs. split; [exact Hrun|].
    split; [exact Hn|]. split; [exact Hv|]. split; [exact Hgrp|].
    split; [rewrite Hnum, Hn; reflexivity|].
    rewrite Hlabel, Hv. reflexivity.
Defined.

End ImporterSamples.

(** ** Time-spanning elements over several passes *)

Section TimeSpanningPassFacts.
Import StaffModel.
Context `{VrvDef}.

(** X23.  [PrepareStaffCurrentTimeSpanning] appends and never looks at
    what the list of the staff holds: run twice on the same staff it
    leaves every element that passes its test twice in the list.  After
    [ResetData] the list is exactly the elements that pass the test, in
    the order of the list of the pass, whatever the list held before. *)
Theorem PrepareStaffCurrentTimeSpanning_appends_again
    (get : Z -> TimeSpanningInterface) (cur : Z) (elements : list Z)
    (this : Staff) :
  m_timeSpanningElements
    (PrepareStaffCurrentTimeSpanning get cur elements
       (PrepareStaffCurrentTimeSpanning get cur elements this).2).2 =
  m_timeSpanningElements this ++
  filter (fun e => GetStartMeasure (get e) <> Some cur /\
                   IsOnStaff (get e) (GetN this) = true) elements ++
  filter (fun e => GetStartMeasure (get e) <> Some cur /\
                   IsOnStaff (get e) (GetN this) = true) elements /\
  m_timeSpanningElements
    (PrepareStaffCurrentTimeSpanning get cur elements (ResetData this).2).2 =
  filter (fun e => GetStartMeasure (get e) <> Some cur /\
                   IsOnStaff (get e) (GetN this) = true) elements /\
  m_timeSpanningElements
    (PrepareStaffCurrentTimeSpanning get cur elements
       (ResetData
          (PrepareStaffCurrentTimeSpanning get cur elements this).2).2).2 =
  filter (fun e => GetStartMeasure (get e) <> Some cur /\
                   IsOnStaff (get e) (GetN this) = true) elements.
Proof.
  unfold PrepareStaffCurrentTimeSpanning. cbn [snd].
  rewrite !foldl_visitTimeSpanning.
  cbn [ResetData snd ClearLedgerLines set_timeSpanningElements
       m_timeSpanningElements app].
  split; [rewrite <- app_assoc; reflexivity|].
  split; reflexivity.
Qed.

End TimeSpanningPassFacts.

(** ** The CMME importer: the number of a voice *)

Section CmmeBoundsFacts.
Import StaffModel Cmme CmmeEvents.
Context `{VrvDef} `{PugiXml}.

Lemma vector_at_is_Some (index : Z) (mensInfos : list MensInfo) :
  is_Some (vector_at index mensInfos) <->
  0 <= index < Z.of_nat (length mensInfos).
Proof.
  unfold vector_at.
  destruct (Z.leb_spec 0 index), (Z.ltb_spec index (Z.of_nat (length mensInfos)));
    cbn [andb]; split; try lia; try (intros _; eexists; reflexivity);
    intros [? [=]].
Qed.

(** X24.  [CreateStaff] looks up the mensuration of the voice at the
    number it reads in [VoiceNum], less one, and [at] throws outside the
    vector: for a number that is an [int] above [INT_MIN], the function
    comes to its end exactly when the current section is there and the
    number lies between 1 and the length of [m_mensInfos].  The events of
    the voice play no part in this: the loop over them never fails. *)
Theorem CreateStaff_needs_a_voice_number_in_range
    (voiceNode : xml_node) (input : CmmeInput) :
  Int.min_signed < ChildAsInt (Some voiceNode) "VoiceNum" <= Int.max_signed ->
  (is_Some (CreateStaff voiceNode input) <->
   is_Some (m_currentSection input) /\
   1 <= ChildAsInt (Some voiceNode) "VoiceNum"
     <= Z.of_nat (length (m_mensInfos input))) /\
  (is_Some (CreateStaff_layer voiceNode input) <->
   is_Some (m_currentSection input) /\
   1 <= ChildAsInt (Some voiceNode) "VoiceNum"
     <= Z.of_nat (length (m_mensInfos input))).
Proof.
  intros Hrange.
  assert (Hsub : Int.sub (ChildAsInt (Some voiceNode) "VoiceNum") 1
                 = ChildAsInt (Some voiceNode) "VoiceNum" - 1).
  { apply Int_sub_in_range.
    unfold Int.in_range, Int.min_signed, Int.max_signed in *. lia. }
  assert (Hat : is_Some (vector_at
                           (Int.sub (ChildAsInt (Some voiceNode) "VoiceNum") 1)
                           (m_mensInfos input)) <->
                1 <= ChildAsInt (Some voiceNode) "VoiceNum"
                  <= Z.of_nat (length (m_mensInfos input))).
  { rewrite vector_at_is_Some, Hsub. lia. }
  destruct (m_currentSection input) as [measure|] eqn:Hsection.
  - destruct (vector_at (Int.sub (ChildAsInt (Some voiceNode) "VoiceNum") 1)
                (m_mensInfos input)) as [k|] eqn:Hk.
    + destruct (CreateStaff_spec voiceNode input measure k Hsection Hk)
        as (st & st0 & _ & _ & -> & -> & _).
      split; (split; [intros _; split; [eauto | apply Hat; eauto] | eauto]).
    + unfold CreateStaff, CreateStaff_layer. rewrite Hsection.
      remember (Int.sub (ChildAsInt (Some voiceNode) "VoiceNum") 1) as index.
      cbn [newID m_mensInfos]. rewrite Hk.
      split; (split; [intros [? [=]] | intros [_ Hin]];
              apply Hat in Hin as [? [=]]).
  - unfold CreateStaff, CreateStaff_layer. rewrite Hsection.
    split; (split; [intros [? [=]] | intros [[? [=]] _]]).
Qed.

End CmmeBoundsFacts.

Section CmmeBoundsSamples.
Import StaffModel Cmme CmmeEvents Samples.

Lemma CreateStaff_needs_a_voice_number_in_range_witness :
  Int.min_signed
    < @ChildAsInt sampleDef samplePugi (Some sampleVoice) "VoiceNum"
    <= Int.max_signed /\
  is_Some (@CreateStaff sampleDef samplePugi sampleVoice sampleInSection) /\
  is_Some (@CreateStaff_layer sampleDef samplePugi sampleVoice sampleInSection).
Proof.
  assert (Hrange : Int.min_signed
                   < @ChildAsInt sampleDef samplePugi (Some sampleVoice) "VoiceNum"
                   <= Int.max_signed).
  { change (@ChildAsInt sampleDef samplePugi (Some sampleVoice) "VoiceNum")
      with 1. unfold Int.min_signed, Int.max_signed. lia. }
  split; [exact Hrange|].
  destruct (@CreateStaff_needs_a_voice_number_in_range sampleDef samplePugi
              sampleVoice sampleInSection Hrange) as [Hstaff Hlayer].
  assert (Hin : is_Some (m_currentSection sampleInSection) /\
                1 <= @ChildAsInt sampleDef samplePugi (Some sampleVoice) "VoiceNum"
                  <= Z.of_nat (length (m_mensInfos sampleInSection))).
  { split; [eexists; reflexivity|].
    change (@ChildAsInt sampleDef samplePugi (Some sampleVoice) "VoiceNum")
      with 1. simpl. lia. }
  split; [apply Hstaff, Hin | apply Hlayer, Hin].
Defined.

End CmmeBoundsSamples.

